(** * xcache: a shallow embedding of the tiered cache, the Memory adapter,
      the Redis INFO parser, the reconfiguration callbacks and the stats
      watcher, with the properties the specification states about them.

    Conventions.
    - Go's [int], [int64] and [time.Duration] are modelled as [Z]; where the
      source can wrap around (the sums of [Multi.Stats]) the wrap is explicit.
    - A [[]byte] is a [list Byte.byte]; a Go [string] key is a [string].
    - An [error] result is an [option error]; [None] is Go's [nil].
    - The [context.Context] argument is threaded unchanged by every function
      of the package and is left out.
    - Calls into a backend are effectful.  A backend operation is a state
      transformer over a world [W] that the theorems leave arbitrary, so that
      an equation between final worlds fixes which calls were made, with which
      arguments and in which order. *)

From Stdlib Require Import ZArith List String Ascii Bool Lia.
From Stdlib Require Import Numbers.DecimalString.
Import ListNotations.

Set Implicit Arguments.
Unset Strict Implicit.
Set Warnings "-register-all".

Local Open Scope Z_scope.

(* ===================================================================== *)
(** ** Machine integers and durations *)

Module Go.

Definition MaxInt64 : Z := 9223372036854775807.
Definition MinInt64 : Z := -9223372036854775808.

Definition in_int64 (z : Z) : Prop := MinInt64 <= z <= MaxInt64.

(** Two's complement wrap-around of an [int64] result. *)
Definition wrap64 (z : Z) : Z := (z + 2 ^ 63) mod 2 ^ 64 - 2 ^ 63.

Definition add64 (a b : Z) : Z := wrap64 (a + b).

(** [time.Duration] is an [int64] count of nanoseconds. *)
Definition Duration : Type := Z.
Definition Nanosecond : Duration := 1.
Definition Second : Duration := 1000000000.
Definition Minute : Duration := 60 * Second.

Definition bytes : Type := list Byte.byte.

End Go.

(* ===================================================================== *)
(** ** Errors: the standard [errors.Is] and [xerr.MultiError] *)

Module Errors.

(** Error values.  [ErrNotFound] is the package's sentinel; [ErrOther]
    stands for any other sentinel (an [errors.New] value, told apart by its
    code); [ErrWrap] is an error that wraps a cause ([%w]); [MultiErr] is an
    [*xerr.MultiError] holding the errors added to it. *)
Inductive error : Type :=
| ErrNotFound
| ErrOther (code : nat)
| ErrWrap (code : nat) (cause : error)
| MultiErr (errs : list error).

Fixpoint error_eqb (a b : error) {struct a} : bool :=
  match a, b with
  | ErrNotFound, ErrNotFound => true
  | ErrOther m, ErrOther n => Nat.eqb m n
  | ErrWrap m x, ErrWrap n y => Nat.eqb m n && error_eqb x y
  | MultiErr l, MultiErr l' =>
      (fix all2 (l l' : list error) {struct l} : bool :=
         match l, l' with
         | [], [] => true
         | x :: t, y :: t' => error_eqb x y && all2 t t'
         | _, _ => false
         end) l l'
  | _, _ => false
  end.

(** [errors.Is err target]: [err] equals [target], or something [err]
    unwraps to does. *)
Fixpoint errors_Is (err target : error) {struct err} : bool :=
  error_eqb err target ||
  match err with
  | ErrWrap _ cause => errors_Is cause target
  | MultiErr l => existsb (fun e => errors_Is e target) l
  | _ => false
  end.

(** [*xerr.MultiError]: the errors added so far, oldest first.  The nil
    pointer the callers start from holds no error and is the empty list. *)
Definition MultiError : Type := list error.

Definition nilMultiError : MultiError := [].

(** [mErr.Add(err)] with a non-nil [err]. *)
Definition Add (mErr : MultiError) (err : error) : MultiError := mErr ++ [err].

(** [mErr.ErrOrNil()]: nil when nothing was added, the error itself when
    exactly one was, the collection otherwise.  The package is not part of
    this repository; what the theorems below use of it is that the result is
    nil exactly when nothing was added and otherwise matches, by
    [errors.Is], every error that was. *)
Definition ErrOrNil (mErr : MultiError) : option error :=
  match mErr with
  | [] => None
  | [e] => Some e
  | _ => Some (MultiErr mErr)
  end.

End Errors.

Export Errors.

(* ===================================================================== *)
(** ** The cache contract and its statistics: [Cache], [Stats] *)

Module Contract.

Import Go.

Definition NoExpire : Duration := 0.

Record Stats : Type := mkStats {
  Memory : Z;
  MaxMemory : Z;
  Hits : Z;
  Misses : Z;
  Keys : Z;
  Expired : Z;
  Evicted : Z
}.

(** [Stats{}], the zero value. *)
Definition zeroStats : Stats := mkStats 0 0 0 0 0 0 0.

(** The seven [+=] of [Multi.Stats], on [int64]. *)
Definition addStats (m s : Stats) : Stats :=
  mkStats (add64 (Memory m) (Memory s))
          (add64 (MaxMemory m) (MaxMemory s))
          (add64 (Hits m) (Hits s))
          (add64 (Misses m) (Misses s))
          (add64 (Keys m) (Keys s))
          (add64 (Expired m) (Expired s))
          (add64 (Evicted m) (Evicted s)).

Section WithWorld.

(** Everything a backend call can read or change. *)
Variable W : Type.

(** The [Cache] interface: each method maps the world before the call
    to its results and the world after it. *)
Record Cache : Type := mkCache {
  Save : string -> bytes -> Duration -> W -> option error * W;
  Load : string -> W -> (bytes * option error) * W;
  TTL : string -> W -> (Duration * option error) * W;
  GetStats : W -> (Stats * option error) * W
}.

End WithWorld.

End Contract.

Export Contract.

(* ===================================================================== *)
(** ** [Multi], the tiered cache *)

Module Multi.

Import Go.

Section WithWorld.

Variable W : Type.

(** [type Multi struct { caches []Cache }] *)
Definition Multi : Type := list (Cache W).

Definition NewMulti (caches : list (Cache W)) : Multi := caches.

(** The [for _, c := range cache.caches] loop of [Save]. *)
Fixpoint Save_loop (caches : list (Cache W)) (key : string) (value : bytes)
    (expire : Duration) (mErr : MultiError) (w : W) : MultiError * W :=
  match caches with
  | [] => (mErr, w)
  | c :: rest =>
      let '(err, w1) := Save c key value expire w in
      match err with
      | Some e => Save_loop rest key value expire (Add mErr e) w1
      | None => Save_loop rest key value expire mErr w1
      end
  end.

Definition Multi_Save (cache : Multi) (key : string) (value : bytes)
    (expire : Duration) (w : W) : option error * W :=
  let '(mErr, w1) := Save_loop cache key value expire nilMultiError w in
  (ErrOrNil mErr, w1).

(** [for i := idx - 1; i >= 0; i-- { _ = cache.caches[i].Save(...) }];
    the argument [n] is [i + 1]. *)
Fixpoint save_upfront (caches : list (Cache W)) (n : nat) (key : string)
    (val : bytes) (ttl : Duration) (w : W) : W :=
  match n with
  | O => w
  | S i =>
      match nth_error caches i with
      | Some c => save_upfront caches i key val ttl (snd (Save c key val ttl w))
      | None => w
      end
  end.

(** The [for idx, c := range cache.caches] loop of [Load]; [rest] is
    [cache.caches[idx:]], and the empty case is the code after the loop. *)
Fixpoint Load_loop (caches rest : list (Cache W)) (idx : nat) (key : string)
    (mErr : MultiError) (w : W) : (bytes * option error) * W :=
  match rest with
  | [] =>
      match ErrOrNil mErr with
      | None => (([], Some ErrNotFound), w)
      | Some err => (([], Some err), w)
      end
  | c :: rest' =>
      let '((val, err), w1) := Load c key w in
      match err with
      | None =>
          if (0 <? idx)%nat then
            let '((ttl, errTTL), w2) := TTL c key w1 in
            match errTTL with
            | None => ((val, None), save_upfront caches idx key val ttl w2)
            | Some _ => ((val, None), w2)
            end
          else ((val, None), w1)
      | Some e =>
          if errors_Is e ErrNotFound
          then Load_loop caches rest' (S idx) key mErr w1
          else Load_loop caches rest' (S idx) key (Add mErr e) w1
      end
  end.

Definition Multi_Load (cache : Multi) (key : string) (w : W)
    : (bytes * option error) * W :=
  Load_loop cache cache 0 key nilMultiError w.

(** The loop of [TTL]. *)
Fixpoint TTL_loop (caches : list (Cache W)) (key : string) (mErr : MultiError)
    (w : W) : (Duration * option error) * W :=
  match caches with
  | [] => ((-1, ErrOrNil mErr), w)
  | c :: rest =>
      let '((ttl, err), w1) := TTL c key w in
      match err with
      | Some e => TTL_loop rest key (Add mErr e) w1
      | None =>
          if 0 <=? ttl then ((ttl, None), w1)
          else TTL_loop rest key mErr w1
      end
  end.

Definition Multi_TTL (cache : Multi) (key : string) (w : W)
    : (Duration * option error) * W :=
  TTL_loop cache key nilMultiError w.

(** The loop of [Stats]. *)
Fixpoint Stats_loop (caches : list (Cache W)) (mErr : MultiError)
    (mStats : Stats) (w : W) : (MultiError * Stats) * W :=
  match caches with
  | [] => ((mErr, mStats), w)
  | c :: rest =>
      let '((stats, err), w1) := GetStats c w in
      match err with
      | Some e => Stats_loop rest (Add mErr e) mStats w1
      | None => Stats_loop rest mErr (addStats mStats stats) w1
      end
  end.

Definition Multi_Stats (cache : Multi) (w : W)
    : (Stats * option error) * W :=
  let '((mErr, mStats), w1) := Stats_loop cache nilMultiError zeroStats w in
  match ErrOrNil mErr with
  | Some err => ((zeroStats, Some err), w1)
  | None => ((mStats, None), w1)
  end.

End WithWorld.

End Multi.

(* ===================================================================== *)
(** ** [Mock] and [Nop], the two backends without storage *)

Module Doubles.

Import Go.

(** A call received by some [Mock]; the world of a set of mocks is the log
    of the calls they received, oldest first.  The counters of the source
    count the entries of one mock in it, as [uint32]. *)
Inductive Call : Type :=
| CallSave (name : nat) (key : string) (value : bytes) (expire : Duration)
| CallLoad (name : nat) (key : string)
| CallTTL (name : nat) (key : string)
| CallStats (name : nat).

Definition Log : Type := list Call.

(** [type Mock struct]: the four optional callbacks; [name] tells the mocks
    of one test apart and stands for the pointer. *)
Record Mock : Type := mkMock {
  name : nat;
  saveCallback : option (string -> bytes -> Duration -> option error);
  loadCallback : option (string -> bytes * option error);
  ttlCallback : option (string -> Duration * option error);
  statsCallback : option (Stats * option error)
}.

Definition Mock_Save (mock : Mock) (key : string) (value : bytes)
    (expire : Duration) (w : Log) : option error * Log :=
  let w1 := w ++ [CallSave (name mock) key value expire] in
  match saveCallback mock with
  | Some cb => (cb key value expire, w1)
  | None => (None, w1)
  end.

Definition Mock_Load (mock : Mock) (key : string) (w : Log)
    : (bytes * option error) * Log :=
  let w1 := w ++ [CallLoad (name mock) key] in
  match loadCallback mock with
  | Some cb => (cb key, w1)
  | None => (([], Some ErrNotFound), w1)
  end.

Definition Mock_TTL (mock : Mock) (key : string) (w : Log)
    : (Duration * option error) * Log :=
  let w1 := w ++ [CallTTL (name mock) key] in
  match ttlCallback mock with
  | Some cb => (cb key, w1)
  | None => ((-1, None), w1)
  end.

Definition Mock_Stats (mock : Mock) (w : Log) : (Stats * option error) * Log :=
  let w1 := w ++ [CallStats (name mock)] in
  match statsCallback mock with
  | Some r => (r, w1)
  | None => ((zeroStats, None), w1)
  end.

(** [*Mock] implements [Cache]. *)
Definition Mock_Cache (mock : Mock) : Cache Log :=
  mkCache (Mock_Save mock) (Mock_Load mock) (Mock_TTL mock) (Mock_Stats mock).

(** [Nop] ignores saves and finds nothing. *)
Definition Nop_Cache (W : Type) : Cache W :=
  mkCache (fun _ _ _ w => (None, w))
          (fun _ w => (([], Some ErrNotFound), w))
          (fun _ w => ((-1, None), w))
          (fun w => ((zeroStats, None), w)).

End Doubles.

(* ===================================================================== *)
(** ** [Memory], the in-process backend over Freecache *)

Module Memory.

Import Go.

Definition freecacheMinBufSize : Z := 512 * 1024.

(** Freecache's sentinel errors. *)
Definition freecache_ErrNotFound : error := ErrOther 1.
Definition freecache_ErrLargeKey : error := ErrOther 2.
Definition freecache_ErrLargeEntry : error := ErrOther 3.

(** [[]byte(key)] *)
Definition key_bytes (key : string) : bytes := list_byte_of_string key.

(** [int(expire.Seconds())].  [Seconds] is the float
    [float64(d / Second) + float64(d % Second) / 1e9] and the conversion to
    [int] drops its fraction.  The whole part is given here exactly; the float
    agrees with it as long as the duration stays below 2^22 seconds, and
    always on durations of less than a second.  On longer durations the sum
    may round up to the next second, so what is proved of [Save] is proved
    within these bounds. *)
Definition Seconds_int (d : Duration) : Z := Z.quot d Second.

(** [getRealMemorySize] *)
Definition getRealMemorySize (memSize : Z) : Z :=
  if memSize <? freecacheMinBufSize then freecacheMinBufSize else memSize.

Section WithStore.

(** The state of one [*freecache.Cache]. *)
Variable S : Type.

(** The part of Freecache's interface the package calls.  [fc_TTL] gives the
    time left in whole seconds (a [uint32]); [fc_entries] is the sequence an
    iterator yields, as (key, value) pairs. *)
Record Freecache : Type := mkFreecache {
  fc_NewCache : Z -> S;
  fc_Set : bytes -> bytes -> Z -> S -> option error * S;
  fc_Del : bytes -> S -> bool * S;
  fc_Get : bytes -> S -> (bytes * option error) * S;
  fc_TTL : bytes -> S -> (Z * option error) * S;
  fc_entries : S -> list (bytes * bytes);
  fc_HitCount : S -> Z;
  fc_MissCount : S -> Z;
  fc_EntryCount : S -> Z;
  fc_ExpiredCount : S -> Z;
  fc_EvacuateCount : S -> Z
}.

Variable fc : Freecache.

(** [type Memory struct]; [mu] tells whether the mutex pointer is set.  The
    read lock taken around each client call changes no result and is not
    part of the state. *)
Record Memory : Type := mkMemory {
  client : S;
  memSize : Z;
  mu : bool
}.

Definition NewMemory (memSize : Z) : Memory :=
  let mem := getRealMemorySize memSize in
  mkMemory (fc_NewCache fc mem) mem false.

Definition with_client (cache : Memory) (s : S) : Memory :=
  mkMemory s (memSize cache) (mu cache).

(** The seconds handed to [client.Set] by [Save] for a non-negative
    [expire]. *)
Definition expireSeconds (expire : Duration) : Z :=
  let expireSeconds := Seconds_int expire in
  if (0 <? expire) && (expireSeconds =? 0) then 1 else expireSeconds.

Definition Memory_Save (key : string) (value : bytes) (expire : Duration)
    (cache : Memory) : option error * Memory :=
  if expire <? 0 then
    let '(_, s) := fc_Del fc (key_bytes key) (client cache) in
    (None, with_client cache s)
  else
    let '(err, s) :=
      fc_Set fc (key_bytes key) value (expireSeconds expire) (client cache) in
    (err, with_client cache s).

Definition Memory_Load (key : string) (cache : Memory)
    : (bytes * option error) * Memory :=
  let '((value, err), s) := fc_Get fc (key_bytes key) (client cache) in
  match err with
  | Some e =>
      if errors_Is e freecache_ErrNotFound
      then (([], Some ErrNotFound), with_client cache s)
      else ((value, Some e), with_client cache s)
  | None => ((value, None), with_client cache s)
  end.

(** [return time.Duration(ttl), err]: the conversion keeps the number. *)
Definition Memory_TTL (key : string) (cache : Memory)
    : (Duration * option error) * Memory :=
  let '((ttl, err), s) := fc_TTL fc (key_bytes key) (client cache) in
  match err with
  | Some e =>
      if errors_Is e freecache_ErrNotFound
      then ((-1, None), with_client cache s)
      else ((ttl, Some e), with_client cache s)
  | None => ((ttl, None), with_client cache s)
  end.

Definition Memory_Stats (cache : Memory) : (Stats * option error) * Memory :=
  ((mkStats (memSize cache) (memSize cache)
            (fc_HitCount fc (client cache))
            (fc_MissCount fc (client cache))
            (fc_EntryCount fc (client cache))
            (fc_ExpiredCount fc (client cache))
            (fc_EvacuateCount fc (client cache)), None), cache).

(** [*Memory] implements [Cache]. *)
Definition Memory_Cache : Cache Memory :=
  mkCache Memory_Save Memory_Load Memory_TTL Memory_Stats.

End WithStore.

End Memory.

(* ===================================================================== *)
(** ** [RedisConfig] and [parseInfoStats], the INFO parser *)

Module RedisInfo.

Import Go.

Local Open Scope string_scope.

Definition redisInfoPrefixMem : string := "used_memory:".
Definition redisInfoPrefixMaxMem : string := "maxmemory:".
Definition redisInfoPrefixTotalSystemMem : string := "total_system_memory:".
Definition redisInfoPrefixHits : string := "keyspace_hits:".
Definition redisInfoPrefixMisses : string := "keyspace_misses:".
Definition redisInfoPrefixEvictedKeys : string := "evicted_keys:".
Definition redisInfoPrefixExpiredKeys : string := "expired_keys:".

Definition clusterReplicaKeyPrefixes : list string :=
  [redisInfoPrefixHits; redisInfoPrefixMisses].

Definition clusterMasterKeyPrefixes : list string :=
  [redisInfoPrefixMem; redisInfoPrefixMaxMem; redisInfoPrefixTotalSystemMem;
   redisInfoPrefixEvictedKeys; redisInfoPrefixExpiredKeys;
   redisInfoPrefixHits; redisInfoPrefixMisses].

(** [strconv.FormatInt(int64(db), 10)] *)
Definition FormatInt (z : Z) : string := NilZero.string_of_int (Z.to_int z).

(** The prefix [setStatsKeyPrefixes] appends outside a cluster, as in
    [db0:keys=59,expires=1,avg_ttl=98929]. *)
Definition keysCountPrefix (db : Z) : string :=
  "db" ++ FormatInt db ++ ":keys=".

(** [setStatsKeyPrefixes], as the value it stores in
    [cache.statsInfoKeyPrefixes]. *)
Definition statsKeyPrefixes (isCluster : bool) (db : Z) : list string :=
  if isCluster then clusterMasterKeyPrefixes
  else (clusterMasterKeyPrefixes ++ [keysCountPrefix db])%list.

(** The INFO reply and the prefixes are byte strings; a [string] is a
    sequence of 8-bit characters. *)

Fixpoint hasPrefix (s sep : string) {struct sep} : bool :=
  match sep with
  | EmptyString => true
  | String c sep' =>
      match s with
      | EmptyString => false
      | String d s' => Ascii.eqb c d && hasPrefix s' sep'
      end
  end.

(** [bytes.Index(s, sep)] for [s] starting at offset [i] of the whole
    input: the offset of the first instance of [sep], or -1. *)
Fixpoint Index_from (i : Z) (s sep : string) : Z :=
  if hasPrefix s sep then i
  else match s with
       | EmptyString => -1
       | String _ s' => Index_from (i + 1) s' sep
       end.

Definition Index (s sep : string) : Z := Index_from 0 s sep.

(** [info[n:]] *)
Fixpoint drop (n : nat) (s : string) : string :=
  match n, s with
  | O, _ => s
  | S n', String _ s' => drop n' s'
  | S _, EmptyString => EmptyString
  end.

Definition isDigit (c : ascii) : bool :=
  let n := N_of_ascii c in ((48 <=? n) && (n <=? 57))%N.

(** The inner [for] of [parseInfoStats] over [info[idx+len(keyPrefix):]]:
    copies digits until a byte that is none, the end of the input or
    [cap] digits. *)
Fixpoint extractDigits (cap : nat) (s : string) : string :=
  match cap with
  | O => EmptyString
  | S cap' =>
      match s with
      | EmptyString => EmptyString
      | String c s' =>
          if isDigit c then String c (extractDigits cap' s') else EmptyString
      end
  end.

Definition digitValue (c : ascii) : Z := Z.of_N (N_of_ascii c) - 48.

(** The number a string of digits denotes, [acc] being the value of the
    digits read before. *)
Fixpoint decimal_from (acc : Z) (s : string) : Z :=
  match s with
  | EmptyString => acc
  | String c s' => decimal_from (10 * acc + digitValue c) s'
  end.

Definition decimal (s : string) : Z := decimal_from 0 s.

(** [infoIntValue, _ := strconv.ParseInt(digits, 10, 64)] on a string of
    digits: an empty string is a syntax error and a number above the [int64]
    range a range error; with the error dropped they leave 0 and the largest
    [int64]. *)
Definition ParseInt_value (digits : string) : Z :=
  match digits with
  | EmptyString => 0
  | _ => if (MaxInt64 <? decimal digits)%Z then MaxInt64 else decimal digits
  end.

Definition set_Memory (v : Z) (s : Stats) : Stats :=
  mkStats v (MaxMemory s) (Hits s) (Misses s) (Keys s) (Expired s) (Evicted s).
Definition set_MaxMemory (v : Z) (s : Stats) : Stats :=
  mkStats (Memory s) v (Hits s) (Misses s) (Keys s) (Expired s) (Evicted s).
Definition set_Hits (v : Z) (s : Stats) : Stats :=
  mkStats (Memory s) (MaxMemory s) v (Misses s) (Keys s) (Expired s) (Evicted s).
Definition set_Misses (v : Z) (s : Stats) : Stats :=
  mkStats (Memory s) (MaxMemory s) (Hits s) v (Keys s) (Expired s) (Evicted s).
Definition set_Keys (v : Z) (s : Stats) : Stats :=
  mkStats (Memory s) (MaxMemory s) (Hits s) (Misses s) v (Expired s) (Evicted s).
Definition set_Expired (v : Z) (s : Stats) : Stats :=
  mkStats (Memory s) (MaxMemory s) (Hits s) (Misses s) (Keys s) v (Evicted s).
Definition set_Evicted (v : Z) (s : Stats) : Stats :=
  mkStats (Memory s) (MaxMemory s) (Hits s) (Misses s) (Keys s) (Expired s) v.

(** The [switch keyPrefix] of [parseInfoStats]. *)
Definition assignStat (keyPrefix : string) (infoIntValue : Z) (stats : Stats)
    : Stats :=
  if keyPrefix =? redisInfoPrefixMem then set_Memory infoIntValue stats
  else if keyPrefix =? redisInfoPrefixMaxMem then
    if (0 <? MaxMemory stats)%Z then set_MaxMemory infoIntValue stats else stats
  else if keyPrefix =? redisInfoPrefixTotalSystemMem then
    if (MaxMemory stats =? 0)%Z then set_MaxMemory infoIntValue stats else stats
  else if keyPrefix =? redisInfoPrefixEvictedKeys then set_Evicted infoIntValue stats
  else if keyPrefix =? redisInfoPrefixExpiredKeys then set_Expired infoIntValue stats
  else if keyPrefix =? redisInfoPrefixHits then set_Hits infoIntValue stats
  else if keyPrefix =? redisInfoPrefixMisses then set_Misses infoIntValue stats
  else set_Keys infoIntValue stats.

(** The capacity of [extractedDigits]. *)
Definition digitsCap : nat := 20.

(** One round of the outer [for] of [parseInfoStats]. *)
Definition parseInfoStat (info : string) (stats : Stats) (keyPrefix : string)
    : Stats :=
  let idx := Index info keyPrefix in
  if (idx =? -1)%Z then stats
  else
    let digits :=
      extractDigits digitsCap (drop (Z.to_nat idx + length keyPrefix) info) in
    assignStat keyPrefix (ParseInt_value digits) stats.

Definition parseInfoStats (info : string) (keyPrefixes : list string) : Stats :=
  fold_left (parseInfoStat info) keyPrefixes zeroStats.

(** [type RedisConfig struct] *)
Record RedisAuth : Type := mkRedisAuth {
  Username : string;
  Password : string
}.

Record RedisConfig : Type := mkRedisConfig {
  Addrs : list string;
  DB : Z;
  Auth : RedisAuth;
  DialTimeout : Duration;
  ReadTimeout : Duration;
  WriteTimeout : Duration;
  ReadOnly : bool;
  MasterName : string;
  SentinelAuth : RedisAuth
}.

Definition IsCluster (rc : RedisConfig) : bool :=
  (1 <? List.length (Addrs rc))%nat && (MasterName rc =? EmptyString).

End RedisInfo.

(* ===================================================================== *)
(** ** The reconfiguration callbacks: [onConfigChange] of [Memory],
       [Redis6] and [Redis7] *)

Module Reconfig.

Import Go Memory RedisInfo.

Local Open Scope string_scope.

(** A configuration value, with its dynamic type. *)
Inductive cfgValue : Type :=
| VInt (z : Z)
| VInt64 (z : Z)
| VString (s : string)
| VStrings (l : list string)
| VDuration (d : Duration)
| VBool (b : bool).

(** An [xconf.Config], as far as the interface tells: what is stored under
    a key, if anything, and what [Get] makes of a stored value when it is
    given a default.  The conversion belongs to the implementation; an
    [*xconf.DefaultConfig], the one configuration the callbacks are registered
    with, gives the value in the type of the default (the tests store an
    [int64] size and durations written as strings). *)
Record Config : Type := mkConfig {
  stored :> string -> option cfgValue;
  convert : cfgValue -> cfgValue -> cfgValue
}.

(** [config.Get(key, def)]: the default when the key is not found. *)
Definition Get (config : Config) (key : string) (def : cfgValue) : cfgValue :=
  match config key with
  | Some v => convert config v def
  | None => def
  end.

(** Two values of one dynamic type. *)
Definition sameType (a b : cfgValue) : bool :=
  match a, b with
  | VInt _, VInt _ | VInt64 _, VInt64 _ | VString _, VString _
  | VStrings _, VStrings _ | VDuration _, VDuration _ | VBool _, VBool _ => true
  | _, _ => false
  end.

(** A configuration whose [Get] gives every value found in the type of the
    default. *)
Definition typed (config : Config) : Prop :=
  forall v def, sameType (convert config v def) def = true.

(** The type assertions [.(int)], [.(string)], ...; [None] is the panic of
    a failed assertion. *)
Definition asInt (v : cfgValue) : option Z :=
  match v with VInt z => Some z | _ => None end.
Definition asString (v : cfgValue) : option string :=
  match v with VString s => Some s | _ => None end.
Definition asStrings (v : cfgValue) : option (list string) :=
  match v with VStrings l => Some l | _ => None end.
Definition asDuration (v : cfgValue) : option Duration :=
  match v with VDuration d => Some d | _ => None end.
Definition asBool (v : cfgValue) : option bool :=
  match v with VBool b => Some b | _ => None end.

Definition obind (A B : Type) (o : option A) (f : A -> option B) : option B :=
  match o with
  | Some a => f a
  | None => None
  end.

Notation "x <- o ;; k" := (obind o (fun x => k))
  (at level 61, o at next level, right associativity, only parsing).

Definition MemoryCfgKeyMemorySize : string := "xcache.memory.memsizebytes".
Definition memoryCfgDefValueMemorySize : Z := 10 * 1024 * 1024.

Definition RedisCfgKeyAddrs : string := "xcache.redis.addrs".
Definition RedisCfgKeyDB : string := "xcache.redis.db".
Definition RedisCfgKeyAuthUsername : string := "xcache.redis.auth.username".
Definition RedisCfgKeyAuthPassword : string := "xcache.redis.auth.password".
Definition RedisCfgKeyDialTimeout : string := "xcache.redis.timeout.dial".
Definition RedisCfgKeyReadTimeout : string := "xcache.redis.timeout.read".
Definition RedisCfgKeyWriteTimeout : string := "xcache.redis.timeout.write".
Definition RedisCfgKeyClusterReadonly : string := "xcache.redis.cluster.readonly".
Definition RedisCfgKeyFailoverMasterName : string :=
  "xcache.redis.failover.mastername".
Definition RedisCfgKeyFailoverAuthUsername : string :=
  "xcache.redis.failover.auth.usernmae".
Definition RedisCfgKeyFailoverAuthPassword : string :=
  "xcache.redis.failover.auth.password".

Definition getRedisConfig (config : Config) : option RedisConfig :=
  addrs <- asStrings (Get config RedisCfgKeyAddrs (VStrings ["127.0.0.1:6379"])) ;;
  db <- asInt (Get config RedisCfgKeyDB (VInt 0)) ;;
  user <- asString (Get config RedisCfgKeyAuthUsername (VString EmptyString)) ;;
  pass <- asString (Get config RedisCfgKeyAuthPassword (VString EmptyString)) ;;
  dial <- asDuration (Get config RedisCfgKeyDialTimeout (VDuration (5 * Second))) ;;
  read <- asDuration (Get config RedisCfgKeyReadTimeout (VDuration (3 * Second))) ;;
  write <- asDuration (Get config RedisCfgKeyWriteTimeout (VDuration (5 * Second))) ;;
  ro <- asBool (Get config RedisCfgKeyClusterReadonly (VBool false)) ;;
  master <- asString (Get config RedisCfgKeyFailoverMasterName (VString EmptyString)) ;;
  suser <- asString (Get config RedisCfgKeyFailoverAuthUsername (VString EmptyString)) ;;
  spass <- asString (Get config RedisCfgKeyFailoverAuthPassword (VString EmptyString)) ;;
  Some (mkRedisConfig addrs db (mkRedisAuth user pass) dial read write ro master
                      (mkRedisAuth suser spass)).

Definition isRedisConfigKey (key : string) : bool :=
  (key =? RedisCfgKeyAddrs) || (key =? RedisCfgKeyDB) ||
  (key =? RedisCfgKeyAuthUsername) || (key =? RedisCfgKeyAuthPassword) ||
  (key =? RedisCfgKeyDialTimeout) || (key =? RedisCfgKeyReadTimeout) ||
  (key =? RedisCfgKeyWriteTimeout) || (key =? RedisCfgKeyClusterReadonly) ||
  (key =? RedisCfgKeyFailoverMasterName) ||
  (key =? RedisCfgKeyFailoverAuthUsername) ||
  (key =? RedisCfgKeyFailoverAuthPassword).

(** Which go-redis major version a client comes from. *)
Inductive RedisVersion : Type := V6 | V7.

(** A universal client, known by the options it was made from
    ([getRedis6UniversalOptions] and [getRedis7UniversalOptions] copy the
    configuration field by field). *)
Record RedisClient : Type := mkRedisClient {
  version : RedisVersion;
  options : RedisConfig
}.

Definition NewUniversalClient (v : RedisVersion) (cfg : RedisConfig)
    : RedisClient := mkRedisClient v cfg.

(** [type Redis6 struct] and [type Redis7 struct], which differ in the
    client package only. *)
Record Redis : Type := mkRedis {
  rclient : RedisClient;
  isCluster : bool;
  statsInfoKeyPrefixes : list string;
  rmu : bool
}.

(** *** Goroutines over one cache and its [sync.RWMutex] *)

(** The steps of a goroutine, each one call or one assignment of the
    source. *)
Inductive Event : Type :=
| EvLock                                  (* cache.mu.Lock() *)
| EvUnlock                                (* cache.mu.Unlock() *)
| EvRLock                                 (* cache.rLock() *)
| EvRUnlock                               (* cache.rUnlock() *)
| EvOperation                             (* the call on cache.client of a cache operation *)
| EvNewCache (size : Z)                   (* newClient := freecache.NewCache(memSize) *)
| EvNewIterator                           (* oldClient := cache.client; iter := oldClient.NewIterator() *)
| EvIterNext                              (* entry := iter.Next() *)
| EvTTL (key : bytes)                     (* oldClient.TTL(entry.Key) *)
| EvSet (key value : bytes) (ttl : Z)     (* newClient.Set(entry.Key, entry.Value, int(ttl)) *)
| EvAssignMemSize (size : Z)              (* cache.memSize = int64(memSize) *)
| EvNewUniversalClient (v : RedisVersion) (cfg : RedisConfig)
| EvReadClient                            (* oldClient := cache.client *)
| EvAssignClient                          (* cache.client = newClient *)
| EvAssignIsCluster (b : bool)            (* cache.isCluster = redisConfig.IsCluster() *)
| EvSetStatsKeyPrefixes (db : Z)          (* cache.setStatsKeyPrefixes(redisConfig.DB) *)
| EvClose (c : RedisClient).              (* oldClient.Close() *)

Definition Trace : Type := list Event.

Section Programs.

(** The cache the goroutines share: the fields of the struct. *)
Variable St : Type.

(** What is left of a goroutine to do: nothing, or a step, with what it
    does to the cache and what comes after it; what comes after may depend on
    the cache the step has found, which is how a local variable is read from
    a field. *)
Inductive Prog : Type :=
| Ret
| Step (e : Event) (upd : St -> St) (next : St -> Prog).

Definition atStep (p : Prog) : option Event :=
  match p with
  | Ret => None
  | Step e _ _ => Some e
  end.

(** A step that leaves the cache as it is, one that changes it, and one
    that reads it. *)
Definition call (e : Event) (k : Prog) : Prog :=
  Step e (fun cache => cache) (fun _ => k).
Definition assign (e : Event) (upd : St -> St) (k : Prog) : Prog :=
  Step e upd (fun _ => k).
Definition observe (e : Event) (k : St -> Prog) : Prog :=
  Step e (fun cache => cache) k.

(** A goroutine running alone to its end: the cache it leaves and the steps
    it has made, in order. *)
Fixpoint run (p : Prog) (cache : St) : St * Trace :=
  match p with
  | Ret => (cache, [])
  | Step e upd next =>
      let '(cache', tr) := run (next cache) (upd cache) in (cache', e :: tr)
  end.

(** A cache operation of a backend that has a mutex ([Save], [Load],
    [TTL], [Stats], [Close]): [rLock], the call on the client, [rUnlock]. *)
Definition cacheOp (op : St -> St) : Prog :=
  call EvRLock (assign EvOperation op (call EvRUnlock Ret)).

(** A [sync.RWMutex]: whether a writer holds it, whether a writer has
    called [Lock] and waits for the readers to leave, and the number of
    readers that hold it. *)
Record RWMutex : Type := mkRWMutex {
  writing : bool;
  waiting : bool;
  reading : nat
}.

Definition unlocked : RWMutex := mkRWMutex false false 0.

(** A call on the mutex, or any other step: [None] when the goroutine
    cannot go on for now (a writer that calls [Lock] on a held lock, a reader
    that calls [RLock] while a writer holds the lock or waits for it) or ever
    (an unlock of a lock not held, a fatal error); else the mutex after it
    and whether the call has returned.  [Lock] with readers inside does not
    return: it makes the writer wait, which keeps new readers out. *)
Definition mutexStep (e : Event) (m : RWMutex) : option (RWMutex * bool) :=
  match e with
  | EvLock =>
      if writing m then None
      else if (reading m =? 0)%nat then Some (mkRWMutex true false 0, true)
      else if waiting m then None
      else Some (mkRWMutex false true (reading m), false)
  | EvUnlock =>
      if writing m then Some (mkRWMutex false false (reading m), true)
      else None
  | EvRLock =>
      if writing m || waiting m then None
      else Some (mkRWMutex (writing m) (waiting m) (S (reading m)), true)
  | EvRUnlock =>
      match reading m with
      | O => None
      | S n => Some (mkRWMutex (writing m) (waiting m) n, true)
      end
  | _ => Some (m, true)
  end.

(** One step of one goroutine. *)
Definition threadStep (p : Prog) (m : RWMutex) (cache : St)
    : option (RWMutex * St * Prog) :=
  match p with
  | Ret => None
  | Step e upd next =>
      match mutexStep e m with
      | Some (m', true) => Some (m', upd cache, next cache)
      | Some (m', false) => Some (m', cache, p)
      | None => None
      end
  end.

(** The reconfiguration callback and the cache operations under way, over
    one cache and its mutex. *)
Record System : Type := mkSystem {
  mutex : RWMutex;
  shared : St;
  callback : Prog;
  operations : list Prog
}.

Inductive Who : Type := TheCallback | Operation (i : nat).

Fixpoint setNth (i : nat) (p : Prog) (l : list Prog) : list Prog :=
  match l, i with
  | [], _ => []
  | _ :: rest, O => p :: rest
  | q :: rest, S j => q :: setNth j p rest
  end.

(** The scheduler lets one goroutine make a step; [None] when that one
    cannot. *)
Definition sysStep (who : Who) (st : System) : option System :=
  match who with
  | TheCallback =>
      match threadStep (callback st) (mutex st) (shared st) with
      | Some (m, cache, p) => Some (mkSystem m cache p (operations st))
      | None => None
      end
  | Operation i =>
      match nth_error (operations st) i with
      | Some q =>
          match threadStep q (mutex st) (shared st) with
          | Some (m, cache, q') =>
              Some (mkSystem m cache (callback st) (setNth i q' (operations st)))
          | None => None
          end
      | None => None
      end
  end.

(** The states the system comes to from [init], under any scheduling. *)
Inductive steps (init : System) : System -> Prop :=
| steps_refl : steps init init
| steps_step st st' who :
    steps init st -> sysStep who st = Some st' -> steps init st'.

(** The callback [p] starting on [cache] beside the cache operations
    [ops], none of which has started. *)
Definition start (cache : St) (p : Prog) (ops : list (St -> St)) : System :=
  mkSystem unlocked cache p (map cacheOp ops).


(** The operation [q] is between its [rLock] and its [rUnlock]. *)
Definition inside (q : Prog) : bool :=
  match atStep q with
  | Some EvOperation | Some EvRUnlock => true
  | _ => false
  end.

End Programs.

Arguments Ret {St}.

(** *** [Memory.onConfigChange] *)

(** The first [for] of [Memory.onConfigChange]: the size to apply, 0 when
    the memory key is not among the changed ones. *)
Fixpoint changedMemSize (config : Config) (changedKeys : list string)
    : option Z :=
  match changedKeys with
  | [] => Some 0
  | changedKey :: rest =>
      if changedKey =? MemoryCfgKeyMemorySize then
        memSize <- asInt (Get config MemoryCfgKeyMemorySize
                              (VInt memoryCfgDefValueMemorySize)) ;;
        Some (getRealMemorySize memSize)
      else changedMemSize config rest
  end.

Section WithStore.

Variable S : Type.
Variable fc : Freecache S.

(** The copy loop over the entries the iterator yields, [newClient] being
    the new store as filled so far; [k] is the code after the loop.  The TTL
    is asked of the old store, which is still [cache.client]. *)
Fixpoint copyLoop (entries : list (bytes * bytes)) (newClient : S)
    (k : S -> Prog (Memory S)) : Prog (Memory S) :=
  match entries with
  | [] => call EvIterNext (k newClient)
  | (key, value) :: rest =>
      call EvIterNext
        (Step (EvTTL key)
           (fun cache => with_client cache (snd (fc_TTL fc key (client cache))))
           (fun cache =>
              let '(ttl, err) := fst (fc_TTL fc key (client cache)) in
              match err with
              | None =>
                  call (EvSet key value ttl)
                    (copyLoop rest (snd (fc_Set fc key value ttl newClient)) k)
              | Some _ => copyLoop rest newClient k
              end))
  end.

(** [Memory.onConfigChange] from [cache.mu.Lock()] on. *)
Definition Memory_resize (memSize : Z) : Prog (Memory S) :=
  observe EvLock (fun cache =>
    if negb (memSize =? Memory.memSize cache)%Z then
      call (EvNewCache memSize)
        (observe EvNewIterator (fun cache =>
           copyLoop (fc_entries fc (client cache)) (fc_NewCache fc memSize)
             (fun newClient =>
                assign EvAssignClient (fun cache => with_client cache newClient)
                  (assign (EvAssignMemSize memSize)
                          (fun cache => mkMemory (client cache) memSize (mu cache))
                     (call EvUnlock Ret)))))
    else call EvUnlock Ret).

(** [Memory.onConfigChange] running alone; [None] when the type assertion
    panics. *)
Definition Memory_onConfigChange (config : Config) (changedKeys : list string)
    (cache : Memory S) : option (Memory S * Trace) :=
  memSize <- changedMemSize config changedKeys ;;
  if (memSize =? 0)%Z then Some (cache, [])
  else Some (run (Memory_resize memSize) cache).

End WithStore.

(** *** [Redis6.onConfigChange] and [Redis7.onConfigChange] *)

(** [setStatsKeyPrefixes], which reads [cache.isCluster]. *)
Definition setStatsKeyPrefixes (db : Z) (cache : Redis) : Redis :=
  mkRedis (rclient cache) (isCluster cache)
          (statsKeyPrefixes (isCluster cache) db) (rmu cache).

(** The callback once a Redis key is known to have changed and the
    configuration has been read. *)
Definition Redis_reconfigure (v : RedisVersion) (redisConfig : RedisConfig)
    : Prog Redis :=
  let newClient := NewUniversalClient v redisConfig in
  call (EvNewUniversalClient v redisConfig)
    (call EvLock
       (observe EvReadClient (fun cache =>
          let oldClient := rclient cache in
          assign EvAssignClient
                 (fun cache => mkRedis newClient (isCluster cache)
                                       (statsInfoKeyPrefixes cache) (rmu cache))
            (assign (EvAssignIsCluster (IsCluster redisConfig))
                    (fun cache => mkRedis (rclient cache) (IsCluster redisConfig)
                                          (statsInfoKeyPrefixes cache) (rmu cache))
               (assign (EvSetStatsKeyPrefixes (DB redisConfig))
                       (setStatsKeyPrefixes (DB redisConfig))
                  (call EvUnlock
                     (call (EvClose oldClient) Ret))))))).

(** [Redis6.onConfigChange] and [Redis7.onConfigChange] running alone;
    [None] when a type assertion of [getRedisConfig] panics. *)
Definition Redis_onConfigChange (v : RedisVersion) (config : Config)
    (changedKeys : list string) (cache : Redis) : option (Redis * Trace) :=
  let configHasChanged := existsb isRedisConfigKey changedKeys in
  if negb configHasChanged then Some (cache, [])
  else
    redisConfig <- getRedisConfig config ;;
    Some (run (Redis_reconfigure v redisConfig) cache).

Definition Redis6_onConfigChange := Redis_onConfigChange V6.
Definition Redis7_onConfigChange := Redis_onConfigChange V7.

(** Building the new instance: making the store or the client, and for
    Memory the copy of the entries. *)
Definition isConstruction (e : Event) : bool :=
  match e with
  | EvNewCache _ | EvNewIterator | EvIterNext | EvTTL _ | EvSet _ _ _
  | EvNewUniversalClient _ _ => true
  | _ => false
  end.


End Reconfig.

(* ===================================================================== *)
(** ** [StatsWatcher], the periodic poller *)

Module Watcher.

Import Go.

(** A [chan struct{}]: not made yet, open, or closed. *)
Inductive chanState : Type := ChanNil | ChanOpen | ChanClosed.

(** [type watcher struct]; [ticker] is the period of the ticker once
    [time.NewTicker] has made it and [wg] the counter of the wait group.
    The watched cache takes no part in starting and stopping. *)
Record watcher : Type := mkWatcher {
  interval : Duration;
  ticker : option Duration;
  wg : Z;
  closed : chanState
}.

(** [type StatsWatcher struct].  A [sync.Once] is the flag telling whether
    its [Do] has run.  Two parts of the runtime belong to the state too: the
    number of [watchAsync] goroutines of this watcher that are running, and
    whether a finalizer is registered for it. *)
Record StatsWatcher : Type := mkStatsWatcher {
  w : watcher;
  watchOnce : bool;
  closeOnce : bool;
  pollers : nat;
  finalizer : bool
}.

Definition NewStatsWatcher (interval : Duration) : StatsWatcher :=
  mkStatsWatcher (mkWatcher interval None 0 ChanNil) false false O false.

(** How a call ends. *)
Inductive outcome (A : Type) : Type :=
| Returned (a : A)
| Panicked.

Arguments Panicked {A}.

(** [Watch]: the function given to [watchOnce.Do] makes the ticker and the
    channel, adds one to the wait group, starts [watchAsync] and registers
    the finalizer.  [time.NewTicker] panics on a non-positive interval, and a
    [Do] whose function panics counts as done. *)
Definition Watch (sw : StatsWatcher) : StatsWatcher * outcome unit :=
  if watchOnce sw then (sw, Returned tt)
  else if interval (w sw) <=? 0 then
    (mkStatsWatcher (w sw) true (closeOnce sw) (pollers sw) (finalizer sw),
     Panicked)
  else
    (mkStatsWatcher
       (mkWatcher (interval (w sw)) (Some (interval (w sw))) (wg (w sw) + 1)
                  ChanOpen)
       true (closeOnce sw) (S (pollers sw)) true,
     Returned tt).

(** What a [Close] does to shut the poller down. *)
Inductive Action : Type :=
| ActCloseChan          (* close(w.closed) *)
| ActWait               (* w.wg.Wait() *)
| ActClearFinalizer.    (* runtime.SetFinalizer(sw, nil) *)

(** [Close] on a non-nil watcher.  Closing a nil or closed channel panics.
    Once the channel is closed every running [watchAsync] stops its ticker
    and reports to the wait group, which is what [Wait] returns on. *)
Definition Close (sw : StatsWatcher)
    : StatsWatcher * list Action * outcome (option error) :=
  match ticker (w sw) with
  | Some t =>
      if closeOnce sw then (sw, [], Returned None)
      else
        match closed (w sw) with
        | ChanOpen =>
            (mkStatsWatcher
               (mkWatcher (interval (w sw)) (Some t)
                          (wg (w sw) - Z.of_nat (pollers sw)) ChanClosed)
               (watchOnce sw) true O false,
             [ActCloseChan; ActWait; ActClearFinalizer], Returned None)
        | _ =>
            (mkStatsWatcher (w sw) (watchOnce sw) true (pollers sw)
                            (finalizer sw),
             [], Panicked)
        end
  | None => (sw, [], Returned None)
  end.

(** [Close] through the pointer: [if sw != nil && sw.ticker != nil]. *)
Definition Close_ptr (sw : option StatsWatcher)
    : option StatsWatcher * list Action * outcome (option error) :=
  match sw with
  | Some s => let '(s1, acts, r) := Close s in (Some s1, acts, r)
  | None => (None, [], Returned None)
  end.

(** The context given to [Watch] is cancelled: every running [watchAsync]
    takes the [ctx.Done()] case, stops its ticker and reports to the wait
    group. *)
Definition Cancel (sw : StatsWatcher) : StatsWatcher :=
  mkStatsWatcher
    (mkWatcher (interval (w sw)) (ticker (w sw))
               (wg (w sw) - Z.of_nat (pollers sw)) (closed (w sw)))
    (watchOnce sw) (closeOnce sw) O (finalizer sw).

(** The calls to [Stats] made within a time [d]: each running poller makes
    one per tick of its ticker. *)
Definition pollsWithin (d : Duration) (sw : StatsWatcher) : Z :=
  match ticker (w sw) with
  | Some t => Z.of_nat (pollers sw) * (d / t)
  | None => 0
  end.

(** The states a watcher made by [NewStatsWatcher] can be in. *)
Inductive reachable : StatsWatcher -> Prop :=
| reach_new : forall interval, reachable (NewStatsWatcher interval)
| reach_Watch : forall sw, reachable sw -> reachable (fst (Watch sw))
| reach_Close : forall sw, reachable sw -> reachable (fst (fst (Close sw)))
| reach_Cancel : forall sw, reachable sw -> reachable (Cancel sw).

(** What holds of every state a watcher can be in: before the first
    successful [Watch] there is no ticker, no channel and no poller; after it
    [watchOnce] is done, and either [Close] has not run, the channel is open
    and at most one poller runs, or [Close] has run and none does. *)
Definition wellFormed (sw : StatsWatcher) : Prop :=
  (ticker (w sw) = None /\ closed (w sw) = ChanNil /\ closeOnce sw = false /\
   pollers sw = O) \/
  (ticker (w sw) <> None /\ watchOnce sw = true /\
   ((closeOnce sw = false /\ closed (w sw) = ChanOpen /\ (pollers sw <= 1)%nat) \/
    (closeOnce sw = true /\ pollers sw = O))).

End Watcher.

(* ===================================================================== *)
(** ** Calling every backend in turn

    The plain reading of "each backend is called once, in index order":
    the results the backends give when called one after the other, and the
    world after the last call.  The theorems on [Multi] compare its loops
    with these. *)

Module Scan.

Import Go.

Section WithWorld.

Variable W : Type.

Fixpoint save_all (caches : list (Cache W)) (key : string) (value : bytes)
    (expire : Duration) (w : W) : list (option error) * W :=
  match caches with
  | [] => ([], w)
  | c :: rest =>
      let '(r, w1) := Save c key value expire w in
      let '(rs, w2) := save_all rest key value expire w1 in
      (r :: rs, w2)
  end.

Fixpoint load_all (caches : list (Cache W)) (key : string) (w : W)
    : list (bytes * option error) * W :=
  match caches with
  | [] => ([], w)
  | c :: rest =>
      let '(r, w1) := Load c key w in
      let '(rs, w2) := load_all rest key w1 in
      (r :: rs, w2)
  end.

Fixpoint ttl_all (caches : list (Cache W)) (key : string) (w : W)
    : list (Duration * option error) * W :=
  match caches with
  | [] => ([], w)
  | c :: rest =>
      let '(r, w1) := TTL c key w in
      let '(rs, w2) := ttl_all rest key w1 in
      (r :: rs, w2)
  end.

Fixpoint stats_all (caches : list (Cache W)) (w : W)
    : list (Stats * option error) * W :=
  match caches with
  | [] => ([], w)
  | c :: rest =>
      let '(r, w1) := GetStats c w in
      let '(rs, w2) := stats_all rest w1 in
      (r :: rs, w2)
  end.

End WithWorld.

(** The non-nil errors of a list of results, in order. *)
Fixpoint failures (rs : list (option error)) : list error :=
  match rs with
  | [] => []
  | Some e :: rest => e :: failures rest
  | None :: rest => failures rest
  end.

(** The statistics of the replies without an error, in order. *)
Fixpoint successes (rs : list (Stats * option error)) : list Stats :=
  match rs with
  | [] => []
  | (s, None) :: rest => s :: successes rest
  | (_, Some _) :: rest => successes rest
  end.

(** The errors [Multi.Load] records: those that are not a "not found". *)
Definition realFailures (rs : list (option error)) : list error :=
  filter (fun e => negb (errors_Is e ErrNotFound)) (failures rs).

(** A TTL reply that does not end the scan of [Multi.TTL]. *)
Definition noTTL (r : Duration * option error) : Prop :=
  snd r <> None \/ fst r < 0.

Definition sumZ (l : list Z) : Z := fold_right Z.add 0 l.

(** The field-wise sum of a list of statistics, over the integers. *)
Definition sumStats (l : list Stats) : Stats :=
  mkStats (sumZ (map Memory l)) (sumZ (map MaxMemory l)) (sumZ (map Hits l))
          (sumZ (map Misses l)) (sumZ (map Keys l)) (sumZ (map Expired l))
          (sumZ (map Evicted l)).

(** Each field brought back into [int64]. *)
Definition wrapStats (s : Stats) : Stats :=
  mkStats (wrap64 (Memory s)) (wrap64 (MaxMemory s)) (wrap64 (Hits s))
          (wrap64 (Misses s)) (wrap64 (Keys s)) (wrap64 (Expired s))
          (wrap64 (Evicted s)).

Definition statsInRange (s : Stats) : Prop :=
  in_int64 (Memory s) /\ in_int64 (MaxMemory s) /\ in_int64 (Hits s) /\
  in_int64 (Misses s) /\ in_int64 (Keys s) /\ in_int64 (Expired s) /\
  in_int64 (Evicted s).

End Scan.

(* ===================================================================== *)
(** ** What the specification says of the INFO parser *)

Module RedisInfoSpec.

Import Go RedisInfo.

Local Open Scope string_scope.

(** The marker occurs in the report. *)
Definition occurs (info m : string) : Prop :=
  exists pre post, info = pre ++ m ++ post.

(** The first instance of the marker in the report comes after [pre] and
    is followed by [post]. *)
Definition firstAt (info m pre post : string) : Prop :=
  info = pre ++ m ++ post /\
  forall pre' post', info = pre' ++ m ++ post' ->
    (length pre <= length pre')%nat.

(** The run of decimal digits a string starts with. *)
Fixpoint digitRun (s : string) : string :=
  match s with
  | EmptyString => EmptyString
  | String c s' => if isDigit c then String c (digitRun s') else EmptyString
  end.

Fixpoint take (n : nat) (s : string) : string :=
  match n, s with
  | S n', String c s' => String c (take n' s')
  | _, _ => EmptyString
  end.

(** The digits read after a marker: the run that follows it, up to 20. *)
Definition digitsRead (post : string) : string := take digitsCap (digitRun post).

(** The field of [Stats] a marker stands for. *)
Definition markerField (m : string) : Stats -> Z :=
  if m =? redisInfoPrefixMem then Memory
  else if m =? redisInfoPrefixMaxMem then MaxMemory
  else if m =? redisInfoPrefixTotalSystemMem then MaxMemory
  else if m =? redisInfoPrefixEvictedKeys then Evicted
  else if m =? redisInfoPrefixExpiredKeys then Expired
  else if m =? redisInfoPrefixHits then Hits
  else if m =? redisInfoPrefixMisses then Misses
  else Keys.

(** The lists of markers [parseInfoStats] is called with. *)
Definition fixedMarkers (L : list string) : Prop :=
  L = clusterReplicaKeyPrefixes \/
  exists isCluster db, L = statsKeyPrefixes isCluster db.

(** The sentence of the specification for one marker: found, its field
    is the integer the digits read form; not found, its field is zero. *)
Definition markerClaim (info : string) (L : list string) (m : string) : Prop :=
  (forall pre post, firstAt info m pre post ->
     markerField m (parseInfoStats info L) = decimal (digitsRead post)) /\
  (~ occurs info m -> markerField m (parseInfoStats info L) = 0).

(** The same with the integer kept within [int64]: a number above the
    range is read as the largest [int64]. *)
Definition markerReading (info : string) (L : list string) (m : string) : Prop :=
  (forall pre post, firstAt info m pre post ->
     markerField m (parseInfoStats info L) =
     Z.min (decimal (digitsRead post)) MaxInt64) /\
  (~ occurs info m -> markerField m (parseInfoStats info L) = 0).

(** Two reports read alike at a marker: both lack it, or the digits read
    after its first instance are the same. *)
Definition sameReading (info info' m : string) : Prop :=
  (~ occurs info m /\ ~ occurs info' m) \/
  exists pre post pre' post',
    firstAt info m pre post /\ firstAt info' m pre' post' /\
    digitsRead post = digitsRead post'.

(** What [parseInfoStats] reads for a marker: zero when it is absent. *)
Definition valueOr0 (info m : string) : Z :=
  if (Index info m =? -1)%Z then 0
  else ParseInt_value
         (extractDigits digitsCap (drop (Z.to_nat (Index info m) + length m) info)).

End RedisInfoSpec.

(* ===================================================================== *)
(** ** What the specification says of a reconfiguration *)

Module ReconfigSpec.

Import Go Memory Reconfig.

Section Reading.

Variable St : Type.




End Reading.

Section Copy.

Variable S : Type.
Variable fc : Freecache S.

(** What the old store replies when it is asked the TTL of the keys in
    turn, and the store these queries leave. *)
Fixpoint ttlReplies (keys : list bytes) (oldClient : S)
    : list (Z * option error) :=
  match keys with
  | [] => []
  | key :: rest =>
      fst (fc_TTL fc key oldClient) ::
      ttlReplies rest (snd (fc_TTL fc key oldClient))
  end.

Definition afterReplies (keys : list bytes) (oldClient : S) : S :=
  fold_left (fun old key => snd (fc_TTL fc key old)) keys oldClient.

(** The entries to copy, each with the TTL found for it: the ones whose
    TTL came without an error. *)
Definition toCopy (entries : list (bytes * bytes)) (oldClient : S)
    : list (bytes * bytes * Z) :=
  flat_map (fun er : (bytes * bytes) * (Z * option error) =>
              match snd (snd er) with
              | None => [(fst (fst er), snd (fst er), fst (snd er))]
              | Some _ => []
              end)
           (combine entries (ttlReplies (map fst entries) oldClient)).

(** The new store once these are set into it, one after the other. *)
Definition copied (entries : list (bytes * bytes)) (oldClient newClient : S)
    : S :=
  fold_left (fun new kvt : _ =>
               snd (fc_Set fc (fst (fst kvt)) (snd (fst kvt)) (snd kvt) new))
            (toCopy entries oldClient) newClient.


Definition isTTLStep (e : Event) : bool :=
  match e with EvTTL _ => true | _ => false end.
Definition isSetStep (e : Event) : bool :=
  match e with EvSet _ _ _ => true | _ => false end.

End Copy.

End ReconfigSpec.

(* ===================================================================== *)
(** ** The lock discipline of a callback, and what it keeps *)

Module Locking.

Import Go Memory RedisInfo Reconfig.

Section Discipline.

Variable St : Type.

(** Which steps a callback may make with the write lock held, and which
    without. *)
Variable allowed : bool -> Event -> bool.

(** A property of the cache that the cache operations rely on. *)
Variable I : St -> Prop.

(** The callback takes and releases the write lock in turn, ends without
    it, never touches the read lock, and makes the steps allowed. *)
Fixpoint follows (held : bool) (p : Prog St) : Prop :=
  match p with
  | Ret => held = false
  | Step e _ next =>
      match e with
      | EvLock => held = false /\ forall cache, follows true (next cache)
      | EvUnlock => held = true /\ forall cache, follows false (next cache)
      | EvRLock | EvRUnlock | EvOperation => False
      | _ => allowed held e = true /\ forall cache, follows held (next cache)
      end
  end.

(** The callback keeps [I] wherever a cache operation can look: without
    the lock every step of it leaves [I] as it finds it, whatever the cache
    has become in between; with the lock, where nobody else moves, [I] is
    back at the unlock. *)
Fixpoint keeps (held : bool) (p : Prog St) (cache : St) : Prop :=
  match p with
  | Ret => True
  | Step e upd next =>
      if held then
        match e with
        | EvUnlock =>
            I (upd cache) /\ forall cache', I cache' -> keeps false (next cache) cache'
        | _ => keeps true (next cache) (upd cache)
        end
      else
        match e with
        | EvLock => keeps true (next cache) (upd cache)
        | _ =>
            I (upd cache) /\ forall cache', I cache' -> keeps false (next cache) cache'
        end
  end.

(** The states of a cache operation that keeps [I]. *)
Inductive opShape : Prog St -> Prop :=
| shape_start op :
    (forall cache, I cache -> I (op cache)) -> opShape (cacheOp op)
| shape_mid op :
    (forall cache, I cache -> I (op cache)) ->
    opShape (assign EvOperation op (call EvRUnlock Ret))
| shape_end : opShape (call EvRUnlock Ret)
| shape_done : opShape Ret.

Fixpoint insideCount (ops : list (Prog St)) : nat :=
  match ops with
  | [] => O
  | q :: rest => ((if inside q then 1 else 0) + insideCount rest)%nat
  end.

(** What holds of the system at every moment. *)
Definition Inv (st : System St) : Prop :=
  follows (writing (mutex st)) (callback st) /\
  (waiting (mutex st) = true ->
     writing (mutex st) = false /\ atStep (callback st) = Some EvLock) /\
  Forall opShape (operations st) /\
  reading (mutex st) = insideCount (operations st) /\
  (writing (mutex st) = true -> reading (mutex st) = O) /\
  (if writing (mutex st) then keeps true (callback st) (shared st)
   else I (shared st) /\
        forall cache', I cache' -> keeps false (callback st) cache').

End Discipline.

(** A Redis callback builds the client and closes the old one without
    the lock, and puts the new one in place with it. *)
Definition allowedRedis (held : bool) (e : Event) : bool :=
  match e with
  | EvNewUniversalClient _ _ | EvClose _ => negb held
  | EvReadClient | EvAssignClient | EvAssignIsCluster _
  | EvSetStatsKeyPrefixes _ => held
  | _ => false
  end.



End Locking.

(* ===================================================================== *)
(** ** Concrete backends for the examples *)

Module Fixtures.

Import Go Doubles Memory Reconfig.

Local Open Scope string_scope.

Fixpoint bytes_eqb (a b : bytes) : bool :=
  match a, b with
  | [], [] => true
  | x :: a', y :: b' => Byte.eqb x y && bytes_eqb a' b'
  | _, _ => false
  end.

(** A small store with Freecache's interface: the entries as (key, value,
    seconds left), the newest first, where 0 seconds is "no expiration". *)
Definition Store : Type := list (bytes * bytes * Z).

Fixpoint lookup (k : bytes) (s : Store) : option (bytes * Z) :=
  match s with
  | [] => None
  | (k', v, t) :: rest => if bytes_eqb k k' then Some (v, t) else lookup k rest
  end.

Definition remove (k : bytes) (s : Store) : Store :=
  filter (fun e => negb (bytes_eqb k (fst (fst e)))) s.

Definition toyFreecache : Freecache Store :=
  mkFreecache
    (fun _ => [])
    (fun k v t s => (None, (k, v, t) :: remove k s))
    (fun k s => (match lookup k s with Some _ => true | None => false end,
                 remove k s))
    (fun k s => match lookup k s with
                | Some (v, _) => ((v, None), s)
                | None => (([], Some freecache_ErrNotFound), s)
                end)
    (fun k s => match lookup k s with
                | Some (_, t) => ((t, None), s)
                | None => ((0, Some freecache_ErrNotFound), s)
                end)
    (fun s => map fst s)
    (fun _ => 0) (fun _ => 0) (fun s => Z.of_nat (List.length s))
    (fun _ => 0) (fun _ => 0).

Definition keyA : string := "a".
Definition valueA : bytes := list_byte_of_string "alpha".

(** A [Memory] of 512 KiB, reloadable, holding one entry with 60 seconds
    left. *)
Definition memoryWithA : Memory Store :=
  mkMemory [(key_bytes keyA, valueA, 60)] freecacheMinBufSize true.

(** A conversion to the type of the default: an [int64] becomes an [int],
    a value of the default's type is kept, and for anything else the default
    stands in. *)
Definition toDefaultType (v def : cfgValue) : cfgValue :=
  match v, def with
  | VInt64 z, VInt _ => VInt z
  | _, _ => if sameType v def then v else def
  end.


(** A configuration asking for 1 MiB. *)
Definition configOneMiB : Config :=
  mkConfig
    (fun key => if key =? MemoryCfgKeyMemorySize then Some (VInt 1048576) else None)
    toDefaultType.

(** A configuration with another Redis address and nothing else. *)
Definition configNewAddr : Config :=
  mkConfig
    (fun key => if key =? RedisCfgKeyAddrs then Some (VStrings ["10.0.0.2:6379"])
                else None)
    toDefaultType.

Definition defaultRedisConfig : RedisInfo.RedisConfig :=
  RedisInfo.mkRedisConfig ["127.0.0.1:6379"] 0 (RedisInfo.mkRedisAuth EmptyString EmptyString)
    (5 * Second) (3 * Second) (5 * Second) false EmptyString (RedisInfo.mkRedisAuth EmptyString EmptyString).

(** The default configuration at another address. *)
Definition redisConfigNewAddr : RedisInfo.RedisConfig :=
  RedisInfo.mkRedisConfig ["10.0.0.2:6379"] 0 (RedisInfo.mkRedisAuth EmptyString EmptyString)
    (5 * Second) (3 * Second) (5 * Second) false EmptyString (RedisInfo.mkRedisAuth EmptyString EmptyString).

Definition redisSingle (v : RedisVersion) : Redis :=
  mkRedis (NewUniversalClient v defaultRedisConfig) false
          (RedisInfo.statsKeyPrefixes false 0) true.

(** Mocks. *)
Definition plainMock (n : nat) : Mock := mkMock n None None None None.

(** A mock whose [Load] fails with an error of its own. *)
Definition failingLoadMock (n code : nat) : Mock :=
  mkMock n None (Some (fun _ => ([], Some (ErrOther code)))) None None.

(** A mock holding one value, with a TTL. *)
Definition holdingMock (n : nat) (val : bytes) (ttl : Duration) : Mock :=
  mkMock n None (Some (fun _ => (val, None))) (Some (fun _ => (ttl, None))) None.

(** A mock holding one value, whose [TTL] fails. *)
Definition holdingMockTTLFails (n : nat) (val : bytes) (code : nat) : Mock :=
  mkMock n None (Some (fun _ => (val, None)))
         (Some (fun _ => (0, Some (ErrOther code)))) None.

(** A mock answering [TTL] with a fixed reply. *)
Definition ttlMock (n : nat) (r : Duration * option error) : Mock :=
  mkMock n None None (Some (fun _ => r)) None.

(** A mock whose [Save] fails. *)
Definition failingSaveMock (n code : nat) : Mock :=
  mkMock n (Some (fun _ _ _ => Some (ErrOther code))) None None None.

(** A mock answering [Stats] with a fixed reply. *)
Definition statsMock (n : nat) (r : Stats * option error) : Mock :=
  mkMock n None None None (Some r).

Definition hits10 : Stats := mkStats 0 0 10 0 0 0 0.

Definition v1 : bytes := list_byte_of_string "v".

(** A report of a single node, cut down to three lines. *)
Definition infoSample : string :=
  "used_memory:1024 keyspace_hits:7 db0:keys=59,expires=1,avg_ttl=98929".

End Fixtures.

From Stdlib Require Import Permutation.

(* ===================================================================== *)
(** ** [Redis6] and [Redis7], the cache operations *)

Module RedisCache.

Import Go RedisInfo Reconfig.

(** [redis.Nil], the reply for a missing key. *)
Definition redis_Nil : error := ErrOther 4.

(** [redisTTLNoExpire], the reply of TTL for a key without expiration. *)
Definition redisTTLNoExpire : Duration := -1.

(** [NewRedis6] and [NewRedis7]; the mutex pointer is left nil. *)
Definition NewRedis (v : RedisVersion) (config : RedisConfig) : Redis :=
  mkRedis (NewUniversalClient v config) (IsCluster config)
          (statsKeyPrefixes (IsCluster config) (DB config)) false.

(** [NewRedis6WithConfig] and [NewRedis7WithConfig]; [None] when a type
    assertion of [getRedisConfig] panics. *)
Definition NewRedisWithConfig (v : RedisVersion) (config : Config)
    : option Redis :=
  match getRedisConfig config with
  | Some cfg =>
      let cache := NewRedis v cfg in
      Some (mkRedis (rclient cache) (isCluster cache)
                    (statsInfoKeyPrefixes cache) true)
  | None => None
  end.

Section WithServer.

(** The state of the server, or servers, behind a client. *)
Variable W : Type.

(** The commands of a [redis.UniversalClient] the package sends, each with
    its reply read the way the package reads it ([.Err()], [.Bytes()],
    [.Result()]). *)
Record UniversalClient : Type := mkUniversalClient {
  cmd_Set : string -> bytes -> Duration -> W -> option error * W;
  cmd_Del : string -> W -> option error * W;
  cmd_Get : string -> W -> (bytes * option error) * W;
  cmd_TTL : string -> W -> (Duration * option error) * W;
  cmd_Info : W -> (string * option error) * W
}.

Variable client : UniversalClient.

Definition Redis_Save (key : string) (value : bytes) (expire : Duration)
    (w : W) : option error * W :=
  if expire <? 0 then cmd_Del client key w
  else cmd_Set client key value expire w.

Definition Redis_Load (key : string) (w : W) : (bytes * option error) * W :=
  let '((value, err), w1) := cmd_Get client key w in
  match err with
  | Some e =>
      if errors_Is e redis_Nil then (([], Some ErrNotFound), w1)
      else ((value, Some e), w1)
  | None => ((value, None), w1)
  end.

Definition Redis_TTL (key : string) (w : W) : (Duration * option error) * W :=
  let '((ttl, err), w1) := cmd_TTL client key w in
  match err with
  | Some e => ((-1, Some e), w1)
  | None =>
      if ttl =? 0 then ((-1, None), w1)
      else if ttl =? redisTTLNoExpire then ((NoExpire, None), w1)
      else ((ttl, None), w1)
  end.

(** [Stats] outside a cluster: one INFO command, parsed. *)
Definition Redis_Stats (keyPrefixes : list string) (w : W)
    : (Stats * option error) * W :=
  let '((info, err), w1) := cmd_Info client w in
  match err with
  | Some e => ((zeroStats, Some e), w1)
  | None => ((parseInfoStats info keyPrefixes, None), w1)
  end.

(** A [Redis6] or [Redis7] outside a cluster implements [Cache]. *)
Definition Redis_Cache (keyPrefixes : list string) : Cache W :=
  mkCache Redis_Save Redis_Load Redis_TTL (Redis_Stats keyPrefixes).

End WithServer.

(** What one node of a cluster answers to INFO. *)
Definition InfoReply : Type := (string * option error)%type.

(** The function [getClusterStats] gives to [ForEachMaster]: the six
    [atomic.AddInt64] on the shared [stats]. *)
Definition onMaster (keyPrefixes : list string) (stats : Stats) (r : InfoReply)
    : Stats * option error :=
  match snd r with
  | Some errInfo => (stats, Some errInfo)
  | None =>
      let masterStats := parseInfoStats (fst r) keyPrefixes in
      (mkStats (add64 (Memory stats) (Memory masterStats))
               (add64 (MaxMemory stats) (MaxMemory masterStats))
               (add64 (Hits stats) (Hits masterStats))
               (add64 (Misses stats) (Misses masterStats))
               (Keys stats)
               (add64 (Expired stats) (Expired masterStats))
               (add64 (Evicted stats) (Evicted masterStats)), None)
  end.

(** The function it gives to [ForEachSlave]. *)
Definition onReplica (stats : Stats) (r : InfoReply) : Stats * option error :=
  match snd r with
  | Some errInfo => (stats, Some errInfo)
  | None =>
      let replicaStats := parseInfoStats (fst r) clusterReplicaKeyPrefixes in
      (mkStats (Memory stats) (MaxMemory stats)
               (add64 (Hits stats) (Hits replicaStats))
               (add64 (Misses stats) (Misses replicaStats))
               (Keys stats) (Expired stats) (Evicted stats), None)
  end.

(** [ForEachMaster] and [ForEachSlave]: the function runs once for every
    node, and the error returned is the first one a node reported.  The
    nodes are listed in the order in which their runs take effect. *)
Fixpoint forEachNode (fn : Stats -> InfoReply -> Stats * option error)
    (nodes : list InfoReply) (stats : Stats) : Stats * option error :=
  match nodes with
  | [] => (stats, None)
  | r :: rest =>
      let '(stats1, err1) := fn stats r in
      let '(stats2, err2) := forEachNode fn rest stats1 in
      (stats2, match err1 with Some e => Some e | None => err2 end)
  end.

Definition getClusterStats (keyPrefixes : list string)
    (masters replicas : list InfoReply) : Stats * option error :=
  let '(stats, err) := forEachNode (onMaster keyPrefixes) masters zeroStats in
  match err with
  | Some e => (zeroStats, Some e)
  | None =>
      let '(stats1, err1) := forEachNode onReplica replicas stats in
      match err1 with
      | Some e => (zeroStats, Some e)
      | None => (stats1, None)
      end
  end.

(** The sums [getClusterStats] is after, over the integers: every field
    but [Keys] over the masters, and the hits and misses of the replicas
    on top. *)
Definition clusterSum (keyPrefixes : list string) (masters replicas : list string)
    : Stats :=
  let ms := map (fun info => parseInfoStats info keyPrefixes) masters in
  let rs := map (fun info => parseInfoStats info clusterReplicaKeyPrefixes)
                replicas in
  mkStats (Scan.sumZ (map Memory ms)) (Scan.sumZ (map MaxMemory ms))
          (Scan.sumZ (map Hits ms) + Scan.sumZ (map Hits rs))
          (Scan.sumZ (map Misses ms) + Scan.sumZ (map Misses rs))
          0
          (Scan.sumZ (map Expired ms)) (Scan.sumZ (map Evicted ms)).

(** A client in a state coherent with the configuration it was made from:
    the cluster flag and the markers are those of that configuration. *)
Definition coherent (cache : Redis) : Prop :=
  isCluster cache = IsCluster (options (rclient cache)) /\
  statsInfoKeyPrefixes cache =
    statsKeyPrefixes (isCluster cache) (DB (options (rclient cache))).

End RedisCache.

(* ===================================================================== *)
(** ** [NewMemoryWithConfig] *)

Module MemoryConfig.

Import Go Memory Reconfig.

(** [NewMemoryWithConfig]; [None] when the type assertion panics. *)
Definition NewMemoryWithConfig (S : Type) (fc : Freecache S) (config : Config)
    : option (Memory S) :=
  match asInt (Get config MemoryCfgKeyMemorySize
                   (VInt memoryCfgDefValueMemorySize)) with
  | Some mem =>
      let cache := NewMemory fc mem in
      Some (mkMemory (client cache) (memSize cache) true)
  | None => None
  end.

End MemoryConfig.

(* ===================================================================== *)
(** ** The loop of [bytesHumanFriendly] *)

Module Human.

Definition unit : Z := 1024.

(** [measure = "BKMGTPE"] *)
Definition measure : string := "BKMGTPE".

(** [for n := bytes; n >= unit; n /= unit { div *= unit; exp++ }], with
    [div] and [exp] at the values they have reached; [None] when the rounds
    allowed run out before [n] is below [unit]. *)
Fixpoint unitLoop (rounds : nat) (n div : Z) (exp : nat) : option (Z * nat) :=
  if unit <=? n then
    match rounds with
    | O => None
    | S rounds' => unitLoop rounds' (Z.quot n unit) (div * unit) (S exp)
    end
  else Some (div, exp).

(** The loop from [div = 1] and [exp = 0]; an [int64] is below [unit]
    after six divisions at most. *)
Definition unitOf (bytes : Z) : option (Z * nat) := unitLoop 6 bytes 1 O.

(** [measure[exp]]; [None] is the panic of an index out of range. *)
Definition measureAt (exp : nat) : option ascii := String.get exp measure.

End Human.

(* ===================================================================== *)
(** ** Counting the calls a [Mock] received *)

Module MockCalls.

Import Go Doubles.

Definition isSaveOf (n : nat) (c : Call) : bool :=
  match c with CallSave m _ _ _ => Nat.eqb m n | _ => false end.
Definition isLoadOf (n : nat) (c : Call) : bool :=
  match c with CallLoad m _ => Nat.eqb m n | _ => false end.
Definition isTTLOf (n : nat) (c : Call) : bool :=
  match c with CallTTL m _ => Nat.eqb m n | _ => false end.
Definition isStatsOf (n : nat) (c : Call) : bool :=
  match c with CallStats m => Nat.eqb m n | _ => false end.

(** A [uint32]: it wraps at 2^32. *)
Definition uint32 (n : Z) : Z := n mod 4294967296.

(** [SaveCallsCount], [LoadCallsCount], [TTLCallsCount] and
    [StatsCallsCount]: the [uint32] counters, which start at 0 and to which
    [atomic.AddUint32] adds one at each call.  A counter is at the number of
    calls the mock has received, modulo 2^32. *)
Definition SaveCallsCount (mock : Mock) (w : Log) : Z :=
  uint32 (Z.of_nat (List.length (filter (isSaveOf (name mock)) w))).
Definition LoadCallsCount (mock : Mock) (w : Log) : Z :=
  uint32 (Z.of_nat (List.length (filter (isLoadOf (name mock)) w))).
Definition TTLCallsCount (mock : Mock) (w : Log) : Z :=
  uint32 (Z.of_nat (List.length (filter (isTTLOf (name mock)) w))).
Definition StatsCallsCount (mock : Mock) (w : Log) : Z :=
  uint32 (Z.of_nat (List.length (filter (isStatsOf (name mock)) w))).

Definition saveCalls (key : string) (value : bytes) (expire : Duration)
    (mocks : list Mock) : Log :=
  map (fun m => CallSave (name m) key value expire) mocks.
Definition loadCalls (key : string) (mocks : list Mock) : Log :=
  map (fun m => CallLoad (name m) key) mocks.
Definition ttlCalls (key : string) (mocks : list Mock) : Log :=
  map (fun m => CallTTL (name m) key) mocks.
Definition statsCalls (mocks : list Mock) : Log :=
  map (fun m => CallStats (name m)) mocks.

(** What a mock replies to [Load] and to [TTL]; its callbacks are functions
    of their arguments. *)
Definition loadReply (m : Mock) (key : string) : bytes * option error :=
  fst (Mock_Load m key []).
Definition ttlReply (m : Mock) (key : string) : Duration * option error :=
  fst (Mock_TTL m key []).

(** A mock whose [Load] finds the key: [err == nil]. *)
Definition loadHit (key : string) (m : Mock) : bool :=
  match snd (loadReply m key) with
  | None => true
  | Some _ => false
  end.

(** A mock whose [TTL] finds the key: [err == nil] and [ttl >= 0]. *)
Definition ttlHit (key : string) (m : Mock) : bool :=
  match snd (ttlReply m key) with
  | None => 0 <=? fst (ttlReply m key)
  | Some _ => false
  end.

(** The mocks up to the first hit, the hit included; all of them when
    there is no hit. *)
Fixpoint upToHit (hit : Mock -> bool) (mocks : list Mock) : list Mock :=
  match mocks with
  | [] => []
  | m :: rest => if hit m then [m] else m :: upToHit hit rest
  end.

(** The first hit, with the mocks above it. *)
Fixpoint firstHit (hit : Mock -> bool) (mocks : list Mock)
    : option (list Mock * Mock) :=
  match mocks with
  | [] => None
  | m :: rest =>
      if hit m then Some ([], m)
      else match firstHit hit rest with
           | Some (above, h) => Some (m :: above, h)
           | None => None
           end
  end.

(** The calls of a write-back from the hit [h] into the tiers [above] it:
    none when there is no tier above; else the TTL query and, if it comes
    without an error, the saves of the value found, with that TTL, from the
    nearest tier to the first. *)
Definition writeBack (key : string) (above : list Mock) (h : Mock) : Log :=
  match above with
  | [] => []
  | _ :: _ =>
      CallTTL (name h) key ::
      match snd (ttlReply h key) with
      | None =>
          saveCalls key (fst (loadReply h key)) (fst (ttlReply h key)) (rev above)
      | Some _ => []
      end
  end.

(** The mock a call was made on, and whether it is a call of [Stats]. *)
Definition calledOn (c : Call) : nat :=
  match c with
  | CallSave n _ _ _ | CallLoad n _ | CallTTL n _ | CallStats n => n
  end.
Definition isStatsCall (c : Call) : bool :=
  match c with CallStats _ => true | _ => false end.

Definition repairCalls (key : string) (mocks : list Mock) : Log :=
  match firstHit (loadHit key) mocks with
  | Some (above, h) => writeBack key above h
  | None => []
  end.

End MockCalls.

(* ===================================================================== *)
(** ** Two caches side by side *)

Module Pair.

Section WithWorlds.

Variables A B : Type.

(** A cache over [A] as a cache over pairs, acting on the first
    component. *)
Definition onFirst (c : Cache A) : Cache (A * B) :=
  mkCache
    (fun k v e w => let '(r, a) := Save c k v e (fst w) in (r, (a, snd w)))
    (fun k w => let '(r, a) := Load c k (fst w) in (r, (a, snd w)))
    (fun k w => let '(r, a) := TTL c k (fst w) in (r, (a, snd w)))
    (fun w => let '(r, a) := GetStats c (fst w) in (r, (a, snd w))).

(** And one over [B], acting on the second. *)
Definition onSecond (c : Cache B) : Cache (A * B) :=
  mkCache
    (fun k v e w => let '(r, b) := Save c k v e (snd w) in (r, (fst w, b)))
    (fun k w => let '(r, b) := Load c k (snd w) in (r, (fst w, b)))
    (fun k w => let '(r, b) := TTL c k (snd w) in (r, (fst w, b)))
    (fun w => let '(r, b) := GetStats c (snd w) in (r, (fst w, b))).

End WithWorlds.

End Pair.

(* ===================================================================== *)
(** ** The states a given watcher goes through *)

Module WatcherRuns.

Import Watcher.

(** The states reached from [s0] by calls to [Watch] and [Close] and by
    the cancellation of the context. *)
Inductive reachableFrom (s0 : StatsWatcher) : StatsWatcher -> Prop :=
| from_start : reachableFrom s0 s0
| from_Watch : forall sw,
    reachableFrom s0 sw -> reachableFrom s0 (fst (Watch sw))
| from_Close : forall sw,
    reachableFrom s0 sw -> reachableFrom s0 (fst (fst (Close sw)))
| from_Cancel : forall sw,
    reachableFrom s0 sw -> reachableFrom s0 (Cancel sw).

(** What the runtime holds for a watcher agrees with its fields: the wait
    group counts the running pollers, and a finalizer is registered exactly
    between a successful [Watch] and the [Close]. *)
Definition accounted (sw : StatsWatcher) : Prop :=
  wg (w sw) = Z.of_nat (pollers sw) /\
  (finalizer sw = true <-> ticker (w sw) <> None /\ closeOnce sw = false) /\
  (ticker (w sw) <> None -> ticker (w sw) = Some (interval (w sw)) /\
                            0 < interval (w sw)).

End WatcherRuns.

(* ===================================================================== *)
(** ** Counters that make sense *)

Module Counters.

Import Go.

(** Every field is a count: not negative, and within [int64]. *)
Definition countsInRange (s : Stats) : Prop :=
  0 <= Memory s <= MaxInt64 /\ 0 <= MaxMemory s <= MaxInt64 /\
  0 <= Hits s <= MaxInt64 /\ 0 <= Misses s <= MaxInt64 /\
  0 <= Keys s <= MaxInt64 /\ 0 <= Expired s <= MaxInt64 /\
  0 <= Evicted s <= MaxInt64.

(** A node that answered INFO. *)
Definition answered (info : string) : RedisCache.InfoReply := (info, None).

End Counters.

(* ===================================================================== *)
(** ** More concrete values for the examples *)

Module MoreFixtures.

Import Go Doubles Memory Reconfig RedisCache Watcher Fixtures.

Local Open Scope string_scope.

(** A configuration asking for one byte. *)
Definition configOneByte : Config :=
  mkConfig
    (fun key => if key =? MemoryCfgKeyMemorySize then Some (VInt 1) else None)
    toDefaultType.

(** An empty [Memory] of 512 KiB. *)
Definition memoryEmpty : Memory Store := mkMemory [] freecacheMinBufSize false.

(** A client that answers every TTL command with the same reply. *)
Definition ttlReplying (r : Duration * option error) : UniversalClient unit :=
  mkUniversalClient (fun _ _ _ w => (None, w)) (fun _ w => (None, w))
                    (fun _ w => (([], Some redis_Nil), w))
                    (fun _ w => (r, w))
                    (fun w => ((EmptyString, None), w)).

(** A client that holds one value under every key and answers every TTL
    command with the same reply. *)
Definition redisHolding (value : bytes) (r : Duration) : UniversalClient unit :=
  mkUniversalClient (fun _ _ _ w => (None, w)) (fun _ w => (None, w))
                    (fun _ w => ((value, None), w))
                    (fun _ w => ((r, None), w))
                    (fun w => ((EmptyString, None), w)).

(** A Redis7 cache about to be reconfigured for a new address, with one
    cache operation that holds the read lock. *)
Definition operationInside : System Redis :=
  mkSystem (mkRWMutex false false 1) (redisSingle V7)
           (Redis_reconfigure V7 redisConfigNewAddr)
           [assign EvOperation (fun cache => cache) (call EvRUnlock Ret)].

Definition twoMocks : list Mock := [failingSaveMock 0 3; plainMock 1].

(** Two reports that differ at [maxmemory:] alone. *)
Definition infoLimit1000 : string := "maxmemory:1000 total_system_memory:8000".
Definition infoLimit5 : string := "maxmemory:5 total_system_memory:8000".

(** The reports of two masters. *)
Definition infoMasterA : string := "used_memory:100 keyspace_hits:7".
Definition infoMasterB : string := "used_memory:250 keyspace_hits:1".

(** A watcher that was started and closed. *)
Definition closedWatcher : StatsWatcher :=
  fst (fst (Close (fst (Watch (NewStatsWatcher (200 * 1000000)))))).

End MoreFixtures.

(* ===================================================================== *)
(** * Properties *)

(** ** Errors *)

Module ErrorsFacts.

Lemma error_eqb_refl : forall e, error_eqb e e = true.
Proof.
  fix IH 1. intros [ | n | n c | l]; simpl.
  - reflexivity.
  - apply Nat.eqb_refl.
  - rewrite Nat.eqb_refl. apply IH.
  - revert l. fix IHl 1. intros [| x t].
    + reflexivity.
    + rewrite IH. simpl. apply IHl.
Qed.

Lemma errors_Is_eqb (e t : error) : error_eqb e t = true -> errors_Is e t = true.
Proof. intros H. destruct e; cbn [errors_Is]; rewrite H; reflexivity. Qed.

Lemma errors_Is_refl (e : error) : errors_Is e e = true.
Proof. apply errors_Is_eqb, error_eqb_refl. Qed.

Lemma errors_Is_MultiErr (l : list error) (e : error) :
  In e l -> errors_Is (MultiErr l) e = true.
Proof.
  intros Hin. cbn [errors_Is]. apply orb_true_iff. right.
  apply existsb_exists. exists e. split; [exact Hin | apply errors_Is_refl].
Qed.

(** What [ErrOrNil] gives matches every error that was added. *)
Lemma ErrOrNil_contains (l : list error) (agg e : error) :
  ErrOrNil l = Some agg -> In e l -> errors_Is agg e = true.
Proof.
  destruct l as [| x [| y t]]; simpl; intros H Hin; try discriminate.
  - injection H as <-. destruct Hin as [<- | []]. apply errors_Is_refl.
  - injection H as <-. apply errors_Is_MultiErr. exact Hin.
Qed.

Lemma ErrOrNil_None (l : list error) : ErrOrNil l = None <-> l = [].
Proof. destruct l as [| x [| y t]]; simpl; split; intros H; congruence. Qed.

Lemma ErrOrNil_Some (l : list error) :
  l <> [] -> exists agg, ErrOrNil l = Some agg.
Proof. destruct l as [| x [| y t]]; simpl; intros H; eauto; congruence. Qed.

(** Aggregating errors none of which is a "not found" gives none. *)
Lemma ErrOrNil_not_NotFound (l : list error) (agg : error) :
  Forall (fun e => errors_Is e ErrNotFound = false) l ->
  ErrOrNil l = Some agg -> errors_Is agg ErrNotFound = false.
Proof.
  intros Hall H. destruct l as [| x [| y t]]; simpl in H; try discriminate.
  - injection H as <-. inversion Hall; assumption.
  - injection H as <-. cbn [errors_Is error_eqb orb].
    apply not_true_is_false. intros Hex.
    apply existsb_exists in Hex. destruct Hex as [e [Hin He]].
    rewrite Forall_forall in Hall. rewrite (Hall e Hin) in He. discriminate.
Qed.

End ErrorsFacts.

(* ===================================================================== *)
(** ** Multi *)

Module MultiFacts.

Import Go Multi Scan ErrorsFacts.

Lemma In_failures (rs : list (option error)) (e : error) :
  In e (failures rs) <-> In (Some e) rs.
Proof.
  induction rs as [| [x |] rs IH]; simpl.
  - tauto.
  - rewrite IH. split; intros [H | H]; auto; left; congruence.
  - rewrite IH. split; [auto | intros [H | H]; [discriminate | exact H]].
Qed.

Lemma failures_nil (rs : list (option error)) :
  failures rs = [] <-> forall x, In x rs -> x = None.
Proof.
  induction rs as [| [x |] rs IH]; simpl.
  - split; [intros _ y [] | reflexivity].
  - split; [discriminate | intros H; specialize (H (Some x) (or_introl eq_refl))].
    discriminate.
  - rewrite IH. split; intros H y; [intros [<- | Hy]; auto | auto].
Qed.

Section WithWorld.

Variable W : Type.

Implicit Types (caches : list (Cache W)) (key : string) (w : W).

Lemma Save_loop_all caches key value expire mErr w :
  Save_loop caches key value expire mErr w =
  (mErr ++ failures (fst (save_all caches key value expire w)),
   snd (save_all caches key value expire w)).
Proof.
  revert mErr w. induction caches as [| c rest IH]; intros mErr w; simpl.
  - rewrite app_nil_r. reflexivity.
  - destruct (Save c key value expire w) as [[e |] w1] eqn:Hc;
      rewrite IH; destruct (save_all rest key value expire w1) as [rs w2];
      simpl; [unfold Add; rewrite <- app_assoc |]; reflexivity.
Qed.

Lemma save_all_world caches key value expire w :
  snd (save_all caches key value expire w) =
  fold_left (fun w c => snd (Save c key value expire w)) caches w.
Proof.
  revert w. induction caches as [| c rest IH]; intros w; simpl.
  - reflexivity.
  - destruct (Save c key value expire w) as [r w1] eqn:Hc.
    specialize (IH w1). destruct (save_all rest key value expire w1).
    simpl in *. exact IH.
Qed.

Lemma save_all_length caches key value expire w :
  List.length (fst (save_all caches key value expire w)) = List.length caches.
Proof.
  revert w. induction caches as [| c rest IH]; intros w; simpl.
  - reflexivity.
  - destruct (Save c key value expire w) as [r w1].
    specialize (IH w1). destruct (save_all rest key value expire w1).
    simpl in *. now rewrite IH.
Qed.

(** C3.  [Multi.Save] calls [Save] on every backend, in index order,
    whatever the earlier ones returned: the world after it is the one the
    backends' saves produce one after the other, and there is one result per
    backend.  It returns nil exactly when every one of these results is nil,
    and otherwise the aggregate of the failing backends' errors, which
    matches each of them. *)
Theorem Multi_Save_every_backend caches key value expire w :
  let rs := fst (save_all caches key value expire w) in
  let r := Multi_Save caches key value expire w in
  snd r = fold_left (fun w c => snd (Save c key value expire w)) caches w /\
  List.length rs = List.length caches /\
  (fst r = None <-> forall x, In x rs -> x = None) /\
  fst r = ErrOrNil (failures rs) /\
  (forall e, In (Some e) rs ->
     exists agg, fst r = Some agg /\ errors_Is agg e = true).
Proof.
  intros rs r. subst r. unfold Multi_Save.
  rewrite Save_loop_all. unfold nilMultiError. cbn [app fst snd].
  fold rs. repeat split.
  - apply save_all_world.
  - apply save_all_length.
  - intros H. apply failures_nil, ErrOrNil_None, H.
  - intros H. apply ErrOrNil_None, failures_nil, H.
  - intros e He. apply In_failures in He.
    destruct (ErrOrNil_Some (l := failures rs)) as [agg Hagg].
    { intros Hnil. rewrite Hnil in He. exact He. }
    exists agg. split; [exact Hagg | exact (ErrOrNil_contains Hagg He)].
Qed.

End WithWorld.


(** *** Stats *)

Lemma wrap64_add_l (a b : Z) : wrap64 (wrap64 a + b) = wrap64 (a + b).
Proof.
  unfold wrap64.
  replace ((a + 2 ^ 63) mod 2 ^ 64 - 2 ^ 63 + b + 2 ^ 63)
    with ((a + 2 ^ 63) mod 2 ^ 64 + b) by ring.
  rewrite Zplus_mod_idemp_l.
  replace (a + 2 ^ 63 + b) with (a + b + 2 ^ 63) by ring. reflexivity.
Qed.

Lemma wrap64_in_range (z : Z) : in_int64 z -> wrap64 z = z.
Proof.
  unfold in_int64, MinInt64, MaxInt64, wrap64. intros H.
  rewrite Z.mod_small; lia.
Qed.

Lemma fold_add64 (l : list Z) (a : Z) :
  fold_left add64 l (wrap64 a) = wrap64 (a + sumZ l).
Proof.
  revert a. induction l as [| x l IH]; intros a; simpl.
  - now rewrite Z.add_0_r.
  - unfold add64 at 2. rewrite wrap64_add_l, IH. f_equal. ring.
Qed.

Lemma fold_addStats (l : list Stats) (s : Stats) :
  fold_left addStats l s =
  mkStats (fold_left add64 (map Memory l) (Memory s))
          (fold_left add64 (map MaxMemory l) (MaxMemory s))
          (fold_left add64 (map Hits l) (Hits s))
          (fold_left add64 (map Misses l) (Misses s))
          (fold_left add64 (map Keys l) (Keys s))
          (fold_left add64 (map Expired l) (Expired s))
          (fold_left add64 (map Evicted l) (Evicted s)).
Proof.
  revert s. induction l as [| x l IH]; intros s; simpl.
  - destruct s; reflexivity.
  - rewrite IH. reflexivity.
Qed.

(** Adding up from the zero value, field by field on [int64], gives the
    sum over the integers, wrapped. *)
Lemma fold_addStats_zero (l : list Stats) :
  fold_left addStats l zeroStats = wrapStats (sumStats l).
Proof.
  rewrite fold_addStats. unfold wrapStats, sumStats, zeroStats.
  cbn [Memory MaxMemory Hits Misses Keys Expired Evicted].
  change 0 with (wrap64 0). rewrite !fold_add64. reflexivity.
Qed.

Lemma wrapStats_in_range (s : Stats) : statsInRange s -> wrapStats s = s.
Proof.
  unfold statsInRange, wrapStats. intros (H1 & H2 & H3 & H4 & H5 & H6 & H7).
  rewrite !wrap64_in_range by assumption. destruct s; reflexivity.
Qed.

Lemma successes_all (rs : list (Stats * option error)) :
  (forall x, In x rs -> snd x = None) -> successes rs = map fst rs.
Proof.
  induction rs as [| [s [e |]] rs IH]; simpl; intros H.
  - reflexivity.
  - specialize (H (s, Some e) (or_introl eq_refl)). discriminate.
  - rewrite IH; auto.
Qed.

Section StatsWithWorld.

Variable W : Type.

Implicit Types (caches : list (Cache W)) (w : W).

Lemma Stats_loop_all caches mErr mStats w :
  Stats_loop caches mErr mStats w =
  ((mErr ++ failures (map snd (fst (stats_all caches w))),
    fold_left addStats (successes (fst (stats_all caches w))) mStats),
   snd (stats_all caches w)).
Proof.
  revert mErr mStats w.
  induction caches as [| c rest IH]; intros mErr mStats w; simpl.
  - rewrite app_nil_r. reflexivity.
  - destruct (GetStats c w) as [[s [e |]] w1] eqn:Hc;
      rewrite IH; destruct (stats_all rest w1) as [rs w2];
      simpl; [unfold Add; rewrite <- app_assoc |]; reflexivity.
Qed.

Lemma stats_all_length caches w :
  List.length (fst (stats_all caches w)) = List.length caches.
Proof.
  revert w. induction caches as [| c rest IH]; intros w; simpl.
  - reflexivity.
  - destruct (GetStats c w) as [r w1].
    specialize (IH w1). destruct (stats_all rest w1).
    simpl in *. now rewrite IH.
Qed.

(** C4.  [Multi.Stats] queries every backend, once and in order.  If a
    reply carries an error, the result is the zero [Stats] together with the
    aggregate of the errors, which matches each of them, whatever the other
    backends reported.  If no reply does, the result is the field-wise sum of
    the replies, computed on [int64] (so it is the exact sum whenever that
    fits), with a nil error. *)
Theorem Multi_Stats_all_or_nothing caches w :
  let rs := fst (stats_all caches w) in
  let r := Multi_Stats caches w in
  snd r = snd (stats_all caches w) /\
  List.length rs = List.length caches /\
  ((exists x, In x rs /\ snd x <> None) ->
     fst (fst r) = zeroStats /\
     exists agg, snd (fst r) = Some agg /\
       forall s e, In (s, Some e) rs -> errors_Is agg e = true) /\
  ((forall x, In x rs -> snd x = None) ->
     fst r = (wrapStats (sumStats (map fst rs)), None) /\
     (statsInRange (sumStats (map fst rs)) ->
        fst r = (sumStats (map fst rs), None))).
Proof.
  intros rs r. subst r. unfold Multi_Stats.
  rewrite Stats_loop_all. unfold nilMultiError. cbn [app]. fold rs.
  assert (Hin : forall s e, In (s, Some e) rs -> In e (failures (map snd rs))).
  { intros s e H. apply In_failures. change (Some e) with (snd (s, Some e)).
    now apply in_map. }
  destruct (ErrOrNil (failures (map snd rs))) as [agg |] eqn:Hagg;
    cbn [fst snd]; (split; [reflexivity |]);
    (split; [apply stats_all_length |]); split.
  - intros _. split; [reflexivity |]. exists agg. split; [reflexivity |].
    intros s e H. exact (ErrOrNil_contains Hagg (Hin s e H)).
  - intros Hok. exfalso.
    destruct (failures (map snd rs)) as [| e t] eqn:Hf; [discriminate |].
    assert (He : In e (failures (map snd rs))) by (rewrite Hf; left; reflexivity).
    apply In_failures, in_map_iff in He. destruct He as [x [Hx Hinx]].
    rewrite (Hok x Hinx) in Hx. discriminate.
  - intros [x [Hx Hsome]]. exfalso. apply ErrOrNil_None in Hagg.
    destruct x as [s [e |]]; [| now apply Hsome].
    specialize (Hin s e Hx). rewrite Hagg in Hin. exact Hin.
  - intros Hok. rewrite (successes_all Hok), fold_addStats_zero.
    split; [reflexivity |]. intros Hr. now rewrite wrapStats_in_range.
Qed.

End StatsWithWorld.

(** *** TTL and Load *)

Lemma realFailures_cons_Some (e : error) (rs : list (option error)) :
  realFailures (Some e :: rs) =
  if errors_Is e ErrNotFound then realFailures rs else e :: realFailures rs.
Proof.
  unfold realFailures. simpl. now destruct (errors_Is e ErrNotFound).
Qed.

Lemma realFailures_not_NotFound (rs : list (option error)) :
  Forall (fun e => errors_Is e ErrNotFound = false) (realFailures rs).
Proof.
  apply Forall_forall. intros e He. unfold realFailures in He.
  apply filter_In in He. destruct He as [_ He].
  now apply negb_true_iff in He.
Qed.

Lemma In_realFailures (rs : list (option error)) (e : error) :
  In e (realFailures rs) <->
  In (Some e) rs /\ errors_Is e ErrNotFound = false.
Proof.
  unfold realFailures. rewrite filter_In, In_failures, negb_true_iff.
  reflexivity.
Qed.

Section ScanWithWorld.

Variable W : Type.

Implicit Types (caches pre post : list (Cache W)) (key : string) (w : W).

Lemma TTL_loop_skip pre post key mErr w :
  (forall r, In r (fst (ttl_all pre key w)) -> noTTL r) ->
  TTL_loop (pre ++ post) key mErr w =
  TTL_loop post key (mErr ++ failures (map snd (fst (ttl_all pre key w))))
           (snd (ttl_all pre key w)).
Proof.
  revert mErr w. induction pre as [| c pre IH]; intros mErr w Hno; simpl.
  - now rewrite app_nil_r.
  - simpl in Hno. destruct (TTL c key w) as [[ttl err] w1] eqn:Hc.
    destruct (ttl_all pre key w1) as [rs w2] eqn:Hrest.
    assert (Hno' : forall r, In r (fst (ttl_all pre key w1)) -> noTTL r).
    { intros r Hr. apply Hno. right. now rewrite Hrest in Hr. }
    specialize (Hno (ttl, err) (or_introl eq_refl)).
    destruct err as [e |]; cbn [fst snd map failures].
    + rewrite IH by exact Hno'. rewrite Hrest. unfold Add.
      now rewrite <- app_assoc.
    + destruct Hno as [Hno | Hno]; [now elim Hno |]. cbn [fst] in Hno.
      destruct (0 <=? ttl) eqn:Hle; [apply Z.leb_le in Hle; lia |].
      rewrite IH by exact Hno'. now rewrite Hrest.
Qed.

(** C5.  [Multi.TTL] queries the backends in index order.  A query that
    fails is recorded and the scan goes on, as it does after a negative
    reply.  The first reply without an error and with a non-negative duration
    (0 included) is returned at once with a nil error: the world is the one
    right after that query, so no later backend is queried.  If no backend
    gives such a reply, every backend has been queried and the result is -1
    with the aggregate of the recorded errors, nil if there is none. *)
Theorem Multi_TTL_scan caches key w :
  (forall pre c post ttl w1,
     caches = pre ++ c :: post ->
     (forall r, In r (fst (ttl_all pre key w)) -> noTTL r) ->
     TTL c key (snd (ttl_all pre key w)) = ((ttl, None), w1) ->
     0 <= ttl ->
     Multi_TTL caches key w = ((ttl, None), w1)) /\
  ((forall r, In r (fst (ttl_all caches key w)) -> noTTL r) ->
     let errs := failures (map snd (fst (ttl_all caches key w))) in
     Multi_TTL caches key w =
       ((-1, ErrOrNil errs), snd (ttl_all caches key w)) /\
     (errs = [] -> ErrOrNil errs = None) /\
     (forall e, In e errs ->
        exists agg, ErrOrNil errs = Some agg /\ errors_Is agg e = true)).
Proof.
  split.
  - intros pre c post ttl w1 -> Hno Hc Hle. unfold Multi_TTL.
    rewrite TTL_loop_skip by exact Hno. simpl. rewrite Hc.
    apply Z.leb_le in Hle. now rewrite Hle.
  - intros Hno errs. unfold Multi_TTL.
    rewrite <- (app_nil_r caches) at 1. rewrite TTL_loop_skip by exact Hno.
    simpl. fold errs. split; [reflexivity | split].
    + intros ->. reflexivity.
    + intros e He. destruct (ErrOrNil_Some (l := errs)) as [agg Hagg].
      { intros Hnil. rewrite Hnil in He. exact He. }
      exists agg. split; [exact Hagg | exact (ErrOrNil_contains Hagg He)].
Qed.

Lemma Load_loop_skip caches pre post idx key mErr w :
  (forall r, In r (fst (load_all pre key w)) -> snd r <> None) ->
  Load_loop caches (pre ++ post) idx key mErr w =
  Load_loop caches post (idx + List.length pre) key
            (mErr ++ realFailures (map snd (fst (load_all pre key w))))
            (snd (load_all pre key w)).
Proof.
  revert idx mErr w. induction pre as [| c pre IH]; intros idx mErr w Hno; simpl.
  - now rewrite app_nil_r, Nat.add_0_r.
  - simpl in Hno. destruct (Load c key w) as [[val err] w1] eqn:Hc.
    destruct (load_all pre key w1) as [rs w2] eqn:Hrest.
    assert (Hno' : forall r, In r (fst (load_all pre key w1)) -> snd r <> None).
    { intros r Hr. apply Hno. right. now rewrite Hrest in Hr. }
    specialize (Hno (val, err) (or_introl eq_refl)).
    destruct err as [e |]; [| now elim Hno].
    cbn [fst snd map]. rewrite realFailures_cons_Some.
    replace (idx + S (List.length pre))%nat with (S idx + List.length pre)%nat
      by lia.
    destruct (errors_Is e ErrNotFound); rewrite IH by exact Hno';
      rewrite Hrest; cbn [fst snd]; [reflexivity |].
    unfold Add. now rewrite <- app_assoc.
Qed.

(** The write-back loop saves into the backends before the hit, the
    nearest one first. *)
Lemma save_upfront_rev pre post key val ttl w :
  save_upfront (pre ++ post) (List.length pre) key val ttl w =
  fold_left (fun w b => snd (Save b key val ttl w)) (rev pre) w.
Proof.
  revert post w. induction pre as [| b p IH] using rev_ind; intros post w.
  - reflexivity.
  - rewrite length_app, Nat.add_1_r, rev_app_distr. cbn [rev app fold_left].
    cbn [save_upfront]. rewrite <- app_assoc. cbn [app].
    rewrite nth_error_app2 by lia. rewrite Nat.sub_diag. cbn [nth_error].
    apply IH.
Qed.

(** C1.  When [Multi.Load] gets no hit from any backend, every backend
    has been asked (the world is the one after all the loads).  If every
    backend reported "not found", the result is [ErrNotFound] itself.  If
    some backend gave another error, the result is the aggregate of these
    errors, in place of [ErrNotFound]: it matches each of them and does not
    match [ErrNotFound]. *)
Theorem Multi_Load_miss caches key w :
  let rs := fst (load_all caches key w) in
  (forall r, In r rs -> snd r <> None) ->
  snd (Multi_Load caches key w) = snd (load_all caches key w) /\
  ((forall r, In r rs ->
      exists e, snd r = Some e /\ errors_Is e ErrNotFound = true) ->
     fst (Multi_Load caches key w) = ([], Some ErrNotFound)) /\
  ((exists r e, In r rs /\ snd r = Some e /\ errors_Is e ErrNotFound = false) ->
     exists agg,
       fst (Multi_Load caches key w) = ([], Some agg) /\
       ErrOrNil (realFailures (map snd rs)) = Some agg /\
       errors_Is agg ErrNotFound = false /\
       (forall r e, In r rs -> snd r = Some e ->
          errors_Is e ErrNotFound = false -> errors_Is agg e = true)).
Proof.
  intros rs Hno. unfold Multi_Load.
  pose proof (@Load_loop_skip caches caches [] 0 key nilMultiError w Hno) as E.
  rewrite app_nil_r in E. rewrite E. clear E. fold rs.
  unfold nilMultiError. cbn [app Load_loop].
  assert (Hin : forall r e, In r rs -> snd r = Some e ->
            errors_Is e ErrNotFound = false ->
            In e (realFailures (map snd rs))).
  { intros r e Hr He Hnf. apply In_realFailures. split; [| exact Hnf].
    rewrite <- He. now apply in_map. }
  destruct (ErrOrNil (realFailures (map snd rs))) as [agg |] eqn:Hagg;
    cbn [fst snd]; (split; [reflexivity |]); split.
  - intros Hall. exfalso.
    destruct (realFailures (map snd rs)) as [| e t] eqn:Hf; [discriminate |].
    assert (He : In e (realFailures (map snd rs))) by (rewrite Hf; now left).
    apply In_realFailures in He. destruct He as [He Hnf].
    apply in_map_iff in He. destruct He as [r [Hr Hinr]].
    destruct (Hall r Hinr) as [e' [He' Hnf']]. congruence.
  - intros _. exists agg. split; [reflexivity | split; [reflexivity | split]].
    + exact (ErrOrNil_not_NotFound (realFailures_not_NotFound _) Hagg).
    + intros r e Hr He Hnf. exact (ErrOrNil_contains Hagg (Hin r e Hr He Hnf)).
  - intros _. reflexivity.
  - intros [r [e [Hr [He Hnf]]]]. exfalso. apply ErrOrNil_None in Hagg.
    specialize (Hin r e Hr He Hnf). rewrite Hagg in Hin. exact Hin.
Qed.

(** C2.  When the first hit of [Multi.Load] is at an index above 0 (the
    backends [pre] before it gave none), the TTL of the key is asked from the
    backend that had it.  If that query fails nothing more is done.  If it
    succeeds the value is saved with that TTL into each of the backends
    before the hit, from the nearest down to index 0, whatever these saves
    return.  In both cases the value is returned with a nil error. *)
Theorem Multi_Load_read_repair pre c post key w val w1 :
  (0 < List.length pre)%nat ->
  (forall r, In r (fst (load_all pre key w)) -> snd r <> None) ->
  Load c key (snd (load_all pre key w)) = ((val, None), w1) ->
  let q := TTL c key w1 in
  Multi_Load (pre ++ c :: post) key w =
  ((val, None),
   match snd (fst q) with
   | Some _ => snd q
   | None =>
       fold_left (fun w b => snd (Save b key val (fst (fst q)) w)) (rev pre)
                 (snd q)
   end).
Proof.
  intros Hidx Hno Hc q. subst q. unfold Multi_Load.
  rewrite Load_loop_skip by exact Hno. cbn [Load_loop]. rewrite Hc.
  cbn [Nat.add]. destruct (0 <? List.length pre)%nat eqn:Hlt;
    [| apply Nat.ltb_ge in Hlt; lia].
  destruct (TTL c key w1) as [[ttl [e |]] w2]; cbn [fst snd]; [reflexivity |].
  now rewrite save_upfront_rev.
Qed.

End ScanWithWorld.

End MultiFacts.

(* ===================================================================== *)
(** ** Memory *)

Module MemoryFacts.

Import Go Memory.

Section WithStore.

Variable S : Type.
Variable fc : Freecache S.

Implicit Types (cache : Memory S) (key : string) (value : bytes).

Lemma Seconds_int_subsecond (expire : Duration) :
  0 <= expire < Second -> Seconds_int expire = 0.
Proof.
  unfold Seconds_int, Second. intros H. apply Z.quot_small. exact H.
Qed.

(** C7.  [Memory.Save] with an expiry above zero and below one second,
    whose whole seconds are zero, stores the entry with an expiration of one
    second.  An expiry of 0 is handed on as 0, Freecache's "no expiration".
    A negative expiry deletes the key, stores nothing and returns nil. *)
Theorem Memory_Save_expiry cache key value (expire : Duration) :
  (0 < expire < Second ->
     Seconds_int expire = 0 /\
     Memory_Save fc key value expire cache =
       (fst (fc_Set fc (key_bytes key) value 1 (client cache)),
        with_client cache
          (snd (fc_Set fc (key_bytes key) value 1 (client cache))))) /\
  (expire = NoExpire ->
     Memory_Save fc key value expire cache =
       (fst (fc_Set fc (key_bytes key) value 0 (client cache)),
        with_client cache
          (snd (fc_Set fc (key_bytes key) value 0 (client cache))))) /\
  (expire < 0 ->
     Memory_Save fc key value expire cache =
       (None,
        with_client cache (snd (fc_Del fc (key_bytes key) (client cache))))).
Proof.
  unfold Memory_Save, expireSeconds. repeat split.
  - apply Seconds_int_subsecond. lia.
  - rewrite Seconds_int_subsecond by lia.
    destruct (expire <? 0) eqn:Hneg; [apply Z.ltb_lt in Hneg; lia |].
    destruct (0 <? expire) eqn:Hpos; [| apply Z.ltb_ge in Hpos; lia].
    cbn. now destruct (fc_Set fc (key_bytes key) value 1 (client cache)).
  - intros ->. cbn.
    now destruct (fc_Set fc (key_bytes key) value 0 (client cache)).
  - intros Hneg. apply Z.ltb_lt in Hneg. rewrite Hneg.
    now destruct (fc_Del fc (key_bytes key) (client cache)).
Qed.

(** C10.  Freecache's [TTL] fails with its own "not found" error and no
    other; on such a client [Memory.TTL] returns a nil error in every case.
    An absent key gives -1.  For a present key the seconds Freecache reports
    become the duration as they are: with [n] seconds left the duration is
    the number [n], that is [n] nanoseconds, and not [n] seconds. *)
Theorem Memory_TTL_unscaled cache key :
  let q := fc_TTL fc (key_bytes key) (client cache) in
  let r := Memory_TTL fc key cache in
  (forall e, snd (fst q) = Some e -> errors_Is e freecache_ErrNotFound = true) ->
  snd (fst r) = None /\
  (snd (fst q) <> None -> fst (fst r) = -1) /\
  (forall n, fst q = (n, None) ->
     fst (fst r) = n /\ fst (fst r) = n * Nanosecond /\
     (0 < n -> fst (fst r) <> n * Second)).
Proof.
  intros q r Hfc. subst q r. unfold Memory_TTL.
  destruct (fc_TTL fc (key_bytes key) (client cache)) as [[ttl err] s].
  cbn [fst snd] in *. destruct err as [e |].
  - rewrite (Hfc e eq_refl). cbn [fst snd].
    split; [reflexivity | split; [reflexivity |]].
    intros n H. discriminate.
  - cbn [fst snd]. split; [reflexivity | split].
    + intros H. now elim H.
    + intros n H. injection H as ->. unfold Nanosecond, Second.
      split; [reflexivity | split; lia].
Qed.

End WithStore.

End MemoryFacts.

(* ===================================================================== *)
(** ** StatsWatcher *)

Module WatcherFacts.

Import Go Watcher.

Lemma reachable_wellFormed (sw : StatsWatcher) : reachable sw -> wellFormed sw.
Proof.
  induction 1 as [i | sw _ IH | sw _ IH | sw _ IH].
  - left. cbn. auto.
  - unfold Watch. destruct (watchOnce sw) eqn:Hw; [exact IH |].
    destruct IH as [(Ht & Hc & Hco & Hp) | (Ht & Hwo & _)]; [| congruence].
    destruct (interval (w sw) <=? 0); cbn.
    + left. auto.
    + right. rewrite Hp. repeat split; try discriminate. left. auto.
  - unfold Close. destruct IH as [(Ht & Hc & Hco & Hp) | (Ht & Hwo & Hcl)].
    + rewrite Ht. cbn. left. auto.
    + destruct (ticker (w sw)) as [t |] eqn:Et; [| now elim Ht].
      destruct Hcl as [(Hco & Hch & Hp) | (Hco & Hp)]; rewrite Hco.
      * rewrite Hch. cbn. right. repeat split; try discriminate; auto.
      * cbn. right. rewrite Et. repeat split; try discriminate; auto.
  - unfold Cancel. destruct IH as [(Ht & Hc & Hco & Hp) | (Ht & Hwo & Hcl)].
    + left. cbn. auto.
    + right. cbn. split; [exact Ht | split; [exact Hwo |]].
      destruct Hcl as [(Hco & Hch & Hp) | (Hco & Hp)];
        [left; repeat split; auto; lia | right; auto].
Qed.

(** Once [watchOnce] is done [Watch] does nothing, and it stays done. *)
Lemma Watch_done (sw : StatsWatcher) :
  watchOnce sw = true -> Watch sw = (sw, Returned tt).
Proof. unfold Watch. now intros ->. Qed.

Lemma watchOnce_after_Watch (sw : StatsWatcher) :
  watchOnce (fst (Watch sw)) = true.
Proof.
  unfold Watch. destruct (watchOnce sw) eqn:H; [exact H |].
  now destruct (interval (w sw) <=? 0).
Qed.

Lemma watchOnce_kept (sw : StatsWatcher) :
  watchOnce sw = true ->
  watchOnce (fst (fst (Close sw))) = true /\ watchOnce (Cancel sw) = true.
Proof.
  intros H. split; [| exact H]. unfold Close.
  destruct (ticker (w sw)); [| exact H].
  destruct (closeOnce sw); [exact H |].
  now destruct (closed (w sw)).
Qed.

(** A [Close] after a [Close] finds [closeOnce] done, or no ticker. *)
Lemma Close_Close (sw : StatsWatcher) :
  Close (fst (fst (Close sw))) = (fst (fst (Close sw)), [], Returned None).
Proof.
  destruct sw as [[i t g c] wo co p f]. unfold Close. cbn.
  destruct t as [t |], co, c; reflexivity.
Qed.

(** C9.  For a watcher in any state it can reach: a [Watch] after a
    [Watch] returns having changed nothing, so no poller is added (there is
    at most one) and the polls made in any span of time are those of a single
    call, and so does any [Watch] once [watchOnce] is done; [Close] before
    any [Watch] does nothing; a [Close] after a [Close] does nothing, takes
    no shutdown step and so has nothing to wait for; and [Close] returns a
    nil error, also on a nil watcher. *)
Theorem StatsWatcher_idempotent (sw : StatsWatcher) :
  reachable sw ->
  (let s1 := fst (Watch sw) in
   Watch s1 = (s1, Returned tt) /\
   pollers (fst (Watch s1)) = pollers s1 /\
   (pollers s1 <= 1)%nat /\
   forall d, pollsWithin d (fst (Watch s1)) = pollsWithin d s1) /\
  (watchOnce sw = true -> Watch sw = (sw, Returned tt)) /\
  (watchOnce sw = false -> Close sw = (sw, [], Returned None)) /\
  (let s1 := fst (fst (Close sw)) in Close s1 = (s1, [], Returned None)) /\
  snd (Close sw) = Returned None /\
  Close_ptr None = (None, [], Returned None).
Proof.
  intros Hr. pose proof (reachable_wellFormed Hr) as Hwf.
  split; [| split; [apply Watch_done | split; [| split; [| split]]]].
  - intros s1.
    assert (E : Watch s1 = (s1, Returned tt))
      by apply Watch_done, watchOnce_after_Watch.
    rewrite E. cbn [fst]. repeat split.
    pose proof (reachable_wellFormed (reach_Watch Hr)) as H1. fold s1 in H1.
    destruct H1 as [(_ & _ & _ & Hp) | (_ & _ & [(_ & _ & Hp) | (_ & Hp)])];
      lia.
  - intros Hw. unfold Close.
    destruct Hwf as [(Ht & _) | (_ & Hwo & _)]; [now rewrite Ht | congruence].
  - apply Close_Close.
  - unfold Close.
    destruct Hwf as [(Ht & _) | (Ht & Hwo & Hcl)]; [now rewrite Ht |].
    destruct (ticker (w sw)) as [t |] eqn:Et; [| now elim Ht].
    destruct Hcl as [(Hco & Hch & Hp) | (Hco & Hp)]; rewrite Hco;
      [rewrite Hch |]; reflexivity.
  - reflexivity.
Qed.

End WatcherFacts.

(* ===================================================================== *)
(** ** Reconfiguration *)

Module ReconfigFacts.

Import Go Memory RedisInfo Reconfig ReconfigSpec Locking Fixtures.

(** *** The lock discipline, for any callback *)

Section Discipline.

Variable St : Type.
Variable allowed : bool -> Event -> bool.
Variable I : St -> Prop.

Lemma setNth_shape (ops : list (Prog St)) (i : nat) (q : Prog St) :
  Forall (opShape I) ops -> opShape I q -> Forall (opShape I) (setNth i q ops).
Proof.
  intros Hops Hq. revert i.
  induction Hops as [| a ops Ha Hrest IH]; intros i; [destruct i; constructor |].
  destruct i as [| j]; cbn [setNth]; constructor; auto.
Qed.

Lemma setNth_count (ops : list (Prog St)) (i : nat) (q q' : Prog St) :
  nth_error ops i = Some q ->
  (insideCount (setNth i q' ops) + (if inside q then 1 else 0) =
   insideCount ops + (if inside q' then 1 else 0))%nat.
Proof.
  revert i. induction ops as [| a ops IH]; intros i H.
  - destruct i; discriminate H.
  - destruct i as [| j]; cbn [nth_error] in H.
    + injection H as ->. cbn [setNth insideCount]. lia.
    + cbn [setNth insideCount]. specialize (IH j H). lia.
Qed.

Lemma insideCount_start (ops : list (St -> St)) :
  insideCount (map (@cacheOp St) ops) = O.
Proof. induction ops as [| op ops IH]; [reflexivity | exact IH]. Qed.


Lemma Inv_start (cache : St) (p : Prog St) (ops : list (St -> St)) :
  follows allowed false p ->
  I cache ->
  (forall cache', I cache' -> keeps I false p cache') ->
  Forall (fun op => forall c, I c -> I (op c)) ops ->
  Inv allowed I (start cache p ops).
Proof.
  intros Hf HI Hk Hops. unfold Inv, start. cbn.
  split; [exact Hf |]. split; [discriminate |]. split.
  - induction Hops as [| op ops Hop _ IH]; constructor; [| exact IH].
    now apply shape_start.
  - split; [symmetry; apply insideCount_start |].
    split; [discriminate | split; assumption].
Qed.

Lemma Inv_step (st st' : System St) (who : Who) :
  Inv allowed I st -> sysStep who st = Some st' -> Inv allowed I st'.
Proof.
  destruct st as [m s p ops]. unfold Inv. cbn [mutex shared callback operations].
  intros (Hf & Hw & Hops & Hcount & Hex & Hk) Hstep.
  destruct who as [| i]; cbn [sysStep mutex shared callback operations] in Hstep.
  - (* the callback *)
    destruct p as [| e upd next]; [discriminate Hstep |].
    cbn [threadStep] in Hstep.
    destruct m as [w wt r]. cbn [writing waiting reading] in *.
    destruct e; cbn [follows] in Hf; try (now elim Hf);
      cbn [mutexStep writing waiting reading] in Hstep.
    1: { (* Lock *)
      destruct Hf as [-> Hf]. destruct Hk as [HI Hk].
      destruct (r =? 0)%nat eqn:Er.
      * apply Nat.eqb_eq in Er.
        injection Hstep as <-. cbn.
        split; [apply Hf |]. split; [discriminate |].
        split; [exact Hops |]. split; [now rewrite <- Hcount, Er |].
        split; [reflexivity |]. exact (Hk s HI).
      * destruct wt; [discriminate Hstep |].
        injection Hstep as <-. cbn.
        split; [split; [reflexivity | exact Hf] |].
        split; [intros _; split; reflexivity |].
        split; [exact Hops |]. split; [exact Hcount |].
        split; [discriminate |]. split; assumption. }
    1: { (* Unlock *)
      destruct Hf as [-> Hf]. cbn [keeps] in Hk.
      injection Hstep as <-. cbn.
      split; [apply Hf |]. split; [discriminate |].
      split; [exact Hops |]. split; [exact Hcount |].
      split; [discriminate |]. exact Hk. }
    all: injection Hstep as <-; cbn; destruct Hf as [_ Hf];
      (split; [apply Hf |]);
      (split; [intros E; destruct (Hw E) as [_ H]; discriminate H |]);
      (split; [exact Hops |]); (split; [exact Hcount |]);
      (split; [exact Hex |]);
      (destruct w; [exact Hk | exact (proj2 Hk s (proj1 Hk))]).
  - (* a cache operation *)
    destruct (nth_error ops i) as [q |] eqn:Eq; [| discriminate Hstep].
    assert (Hq : opShape I q).
    { rewrite Forall_forall in Hops. apply Hops.
      eapply nth_error_In. exact Eq. }
    destruct m as [w wt r]. cbn [writing waiting reading] in *.
    destruct Hq as [op Hop | op Hop | |].
    + (* at rLock *)
      cbn in Hstep. destruct (w || wt) eqn:Ew; [discriminate Hstep |].
      apply orb_false_elim in Ew. destruct Ew as [-> ->].
      injection Hstep as <-. cbn.
      split; [exact Hf |]. split; [discriminate |].
      split; [apply setNth_shape; [exact Hops | now apply shape_mid] |].
      split; [| split; [discriminate | exact Hk]].
      pose proof (setNth_count (assign EvOperation op (call EvRUnlock Ret)) Eq)
        as Hc.
      cbn in Hc. lia.
    + (* at the call *)
      cbn in Hstep. injection Hstep as <-. cbn.
      pose proof (setNth_count (call EvRUnlock (@Ret St)) Eq) as Hc.
      pose proof (setNth_count (@Ret St) Eq) as Hc0.
      cbn in Hc, Hc0.
      assert (Hw0 : w = false).
      { destruct w; [| reflexivity]. specialize (Hex eq_refl). lia. }
      subst w.
      split; [exact Hf |]. split; [exact Hw |].
      split; [apply setNth_shape; [exact Hops | apply shape_end] |].
      split; [lia |]. split; [discriminate |].
      split; [apply Hop; exact (proj1 Hk) | exact (proj2 Hk)].
    + (* at rUnlock *)
      cbn in Hstep. destruct r as [| n]; [discriminate Hstep |].
      injection Hstep as <-. cbn.
      pose proof (setNth_count (@Ret St) Eq) as Hc. cbn in Hc.
      assert (Hw0 : w = false).
      { destruct w; [| reflexivity]. specialize (Hex eq_refl). lia. }
      subst w.
      split; [exact Hf |]. split; [exact Hw |].
      split; [apply setNth_shape; [exact Hops | apply shape_done] |].
      split; [lia |]. split; [discriminate | exact Hk].
    + discriminate Hstep.
Qed.

Lemma steps_Inv (init st : System St) :
  Inv allowed I init -> steps init st -> Inv allowed I st.
Proof.
  intros Hinit H. induction H as [| st st' who _ IH Hstep]; [exact Hinit |].
  exact (Inv_step IH Hstep).
Qed.

(** An operation inside its read lock excludes the writer. *)
Lemma inside_excludes (st : System St) (i : nat) (q : Prog St) :
  Inv allowed I st -> nth_error (operations st) i = Some q ->
  inside q = true -> writing (mutex st) = false.
Proof.
  intros (_ & _ & _ & Hcount & Hex & _) Eq Hin.
  pose proof (setNth_count (@Ret St) Eq) as Hc. rewrite Hin in Hc.
  destruct (writing (mutex st)); [| reflexivity].
  specialize (Hex eq_refl). cbn in Hc. lia.
Qed.

End Discipline.





(** *** The callbacks follow their discipline *)

Lemma Redis_reconfigure_follows (v : RedisVersion) (cfg : RedisConfig) :
  follows allowedRedis false (Redis_reconfigure v cfg).
Proof. cbn. repeat split. Qed.

Section WithStore.

Variable S : Type.
Variable fc : Freecache S.



(** *** The copy loop running alone *)

Lemma toCopy_cons (key value : bytes) (rest : list (bytes * bytes)) (old : S) :
  toCopy fc ((key, value) :: rest) old =
  match snd (fst (fc_TTL fc key old)) with
  | None => [(key, value, fst (fst (fc_TTL fc key old)))]
  | Some _ => []
  end ++ toCopy fc rest (snd (fc_TTL fc key old)).
Proof. reflexivity. Qed.

Lemma run_copyLoop (entries : list (bytes * bytes)) (newClient : S)
    (k : S -> Prog (Memory S)) (cache : Memory S) :
  exists body,
    run (copyLoop fc entries newClient k) cache =
      (fst (run (k (copied fc entries (client cache) newClient))
                (with_client cache
                   (afterReplies fc (map fst entries) (client cache)))),
       body ++
       snd (run (k (copied fc entries (client cache) newClient))
                (with_client cache
                   (afterReplies fc (map fst entries) (client cache))))) /\
    filter isTTLStep body = map EvTTL (map fst entries) /\
    filter isSetStep body =
      map (fun kvt : bytes * bytes * Z =>
             EvSet (fst (fst kvt)) (snd (fst kvt)) (snd kvt))
          (toCopy fc entries (client cache)) /\
    Forall (fun e => isConstruction e = true) body.
Proof.
  revert newClient cache.
  induction entries as [| [key value] rest IH]; intros newClient cache.
  - exists [EvIterNext]. cbn [copyLoop call run map].
    unfold copied, afterReplies. cbn [toCopy map combine flat_map fold_left].
    assert (Hc : with_client cache (client cache) = cache) by now destruct cache.
    rewrite Hc.
    destruct (run (k newClient) cache) as [c tr]. cbn.
    repeat split. repeat constructor.
  - cbn [copyLoop call run].
    unfold copied. rewrite toCopy_cons. rewrite fold_left_app.
    cbn [map fst]. unfold afterReplies. cbn [fold_left].
    fold (afterReplies fc (map fst rest) (snd (fc_TTL fc key (client cache)))).
    cbn [client with_client].
    destruct (fc_TTL fc key (client cache)) as [[ttl err] old1] eqn:Ettl.
    cbn [fst snd].
    assert (Hw : forall s,
              with_client (with_client cache old1) s = with_client cache s)
      by reflexivity.
    destruct err as [e |].
    + destruct (IH newClient (with_client cache old1)) as (body & Hrun & Ht & Hs & Hb).
      cbn [client with_client] in Hrun, Hs. rewrite Hw in Hrun.
      cbn [fold_left]. fold (copied fc rest old1 newClient).
      rewrite Hrun.
      exists (EvIterNext :: EvTTL key :: body). cbn [fst snd app].
      split; [reflexivity |]. cbn [filter isTTLStep isSetStep map].
      rewrite Ht, Hs. cbn [app].
      split; [reflexivity | split; [reflexivity |]].
      repeat constructor. exact Hb.
    + cbn [call run fold_left fst snd].
      destruct (IH (snd (fc_Set fc key value ttl newClient))
                   (with_client cache old1)) as (body & Hrun & Ht & Hs & Hb).
      cbn [client with_client] in Hrun, Hs. rewrite Hw in Hrun.
      fold (copied fc rest old1 (snd (fc_Set fc key value ttl newClient))).
      rewrite Hrun.
      exists (EvIterNext :: EvTTL key :: EvSet key value ttl :: body).
      cbn [fst snd app].
      split; [reflexivity |]. cbn [filter isTTLStep isSetStep map app].
      rewrite Ht, Hs.
      split; [reflexivity | split; [reflexivity |]].
      repeat constructor. exact Hb.
Qed.

(** [Memory.onConfigChange] running alone, when it resizes. *)
Lemma run_Memory_resize (memSize : Z) (cache : Memory S) :
  memSize <> Memory.memSize cache ->
  exists body,
    run (Memory_resize fc memSize) cache =
      (mkMemory (copied fc (fc_entries fc (client cache)) (client cache)
                        (fc_NewCache fc memSize))
                memSize (mu cache),
       [EvLock; EvNewCache memSize; EvNewIterator] ++ body ++
       [EvAssignClient; EvAssignMemSize memSize; EvUnlock]) /\
    filter isTTLStep body = map EvTTL (map fst (fc_entries fc (client cache))) /\
    filter isSetStep body =
      map (fun kvt : bytes * bytes * Z =>
             EvSet (fst (fst kvt)) (snd (fst kvt)) (snd kvt))
          (toCopy fc (fc_entries fc (client cache)) (client cache)) /\
    Forall (fun e => isConstruction e = true) body.
Proof.
  intros Hne. cbn [Memory_resize observe run].
  apply Z.eqb_neq in Hne. rewrite Hne. cbn [negb call observe run].
  destruct (run_copyLoop (fc_entries fc (client cache)) (fc_NewCache fc memSize)
              (fun newClient =>
                 assign EvAssignClient (fun cache => with_client cache newClient)
                   (assign (EvAssignMemSize memSize)
                      (fun cache => mkMemory (client cache) memSize (mu cache))
                      (call EvUnlock Ret))) cache)
    as (body & Hrun & Ht & Hs & Hb).
  rewrite Hrun. exists body. cbn [assign call run fst snd app].
  split; [| split; [exact Ht | split; [exact Hs | exact Hb]]].
  cbn [with_client client mu]. reflexivity.
Qed.

Lemma run_Memory_same (cache : Memory S) :
  run (Memory_resize fc (Memory.memSize cache)) cache = (cache, [EvLock; EvUnlock]).
Proof.
  cbn [Memory_resize observe run]. rewrite Z.eqb_refl. reflexivity.
Qed.

End WithStore.



End ReconfigFacts.


(* ===================================================================== *)
(** ** The INFO parser *)

Module RedisInfoFacts.

Import Go RedisInfo RedisInfoSpec.

Local Open Scope string_scope.

(** *** Strings *)

Lemma drop_app (a b : string) : drop (length a) (a ++ b) = b.
Proof. induction a as [| c a IH]; cbn; [now destruct b | exact IH]. Qed.

Lemma drop_add (n k : nat) (s : string) : drop (n + k) s = drop k (drop n s).
Proof.
  revert s. induction n as [| n IH]; intros s; cbn.
  - now destruct s.
  - destruct s as [| c s]; [now destruct k | apply IH].
Qed.

Lemma take_app (a b : string) : take (length a) (a ++ b) = a.
Proof. induction a as [| c a IH]; cbn; [now destruct b | now rewrite IH]. Qed.

Lemma hasPrefix_spec (s m : string) :
  hasPrefix s m = true <-> exists post, s = m ++ post.
Proof.
  revert s. induction m as [| c m IH]; intros s; cbn.
  - split; [intros _; now exists s | reflexivity].
  - destruct s as [| d s].
    + split; [discriminate | intros [post H]; discriminate].
    + rewrite andb_true_iff, IH. split.
      * intros [Hc [post ->]]. apply Ascii.eqb_eq in Hc. subst d. now exists post.
      * intros [post H]. injection H as -> ->. split; [apply Ascii.eqb_refl |].
        now exists post.
Qed.

Lemma occurs_head (s m : string) : hasPrefix s m = true -> firstAt s m EmptyString (drop (length m) s).
Proof.
  intros H. apply hasPrefix_spec in H. destruct H as [post ->].
  rewrite drop_app. split; [reflexivity | intros; cbn; lia].
Qed.

(** [Index_from] finds the first instance, or -1 when there is none. *)
Lemma Index_from_spec (s m : string) (i : Z) :
  (Index_from i s m = -1 /\ ~ occurs s m) \/
  (exists pre post,
     firstAt s m pre post /\ Index_from i s m = (i + Z.of_nat (length pre))%Z).
Proof.
  revert i. induction s as [| c s IH]; intros i; cbn [Index_from].
  - destruct (hasPrefix EmptyString m) eqn:Hp.
    + right. exists EmptyString, (drop (length m) EmptyString). split; [now apply occurs_head |].
      cbn. lia.
    + left. split; [reflexivity |]. intros [pre [post H]].
      destruct pre; [| discriminate]. cbn in H.
      assert (hasPrefix EmptyString m = true) by (apply hasPrefix_spec; now exists post).
      congruence.
  - destruct (hasPrefix (String c s) m) eqn:Hp.
    + right. exists EmptyString, (drop (length m) (String c s)).
      split; [now apply occurs_head | cbn; lia].
    + assert (Hnil : forall post, String c s <> EmptyString ++ m ++ post).
      { intros post H. cbn in H.
        assert (hasPrefix (String c s) m = true)
          by (apply hasPrefix_spec; now exists post).
        congruence. }
      destruct (IH (i + 1)%Z) as [[Hi Hno] | [pre [post [[Heq Hmin] Hi]]]].
      * left. split; [exact Hi |]. intros [pre [post H]].
        destruct pre as [| d pre]; [now apply (Hnil post) |].
        cbn in H. injection H as _ H. apply Hno. now exists pre, post.
      * right. exists (String c pre), post. split; [split |].
        -- cbn. now rewrite <- Heq.
        -- intros pre' post' H. destruct pre' as [| d pre'];
             [now elim (Hnil post') |].
           cbn in H. injection H as _ H. specialize (Hmin pre' post' H).
           cbn. lia.
        -- rewrite Hi. cbn [length]. lia.
Qed.

Lemma firstAt_unique (s m pre post pre' post' : string) :
  firstAt s m pre post -> firstAt s m pre' post' -> pre = pre' /\ post = post'.
Proof.
  intros [H1 M1] [H2 M2].
  assert (Hlen : length pre = length pre').
  { specialize (M1 pre' post' H2). specialize (M2 pre post H1). lia. }
  split.
  - rewrite <- (take_app pre (m ++ post)), <- H1, H2, Hlen. apply take_app.
  - rewrite <- (drop_app m post), <- (drop_app pre (m ++ post)), <- H1, H2, Hlen.
    now rewrite !drop_app.
Qed.

Lemma Index_absent (info m : string) : ~ occurs info m -> Index info m = (-1)%Z.
Proof.
  intros Hno. unfold Index.
  destruct (Index_from_spec info m 0) as [[Hi _] | [pre [post [[Heq _] _]]]];
    [exact Hi |].
  elim Hno. now exists pre, post.
Qed.

Lemma Index_firstAt (info m pre post : string) :
  firstAt info m pre post ->
  Index info m = Z.of_nat (length pre) /\
  drop (Z.to_nat (Index info m) + length m) info = post.
Proof.
  intros Hf. unfold Index.
  destruct (Index_from_spec info m 0) as [[_ Hno] | [pre' [post' [Hf' Hi]]]].
  - elim Hno. destruct Hf as [Heq _]. now exists pre, post.
  - destruct (firstAt_unique Hf Hf') as [<- <-]. rewrite Hi. cbn [Z.add].
    split; [reflexivity |]. rewrite Nat2Z.id. destruct Hf as [-> _].
    rewrite drop_add, drop_app. apply drop_app.
Qed.

(** The converses, to settle by computing whether and where a marker
    occurs. *)
Lemma Index_none (info m : string) : Index info m = (-1)%Z -> ~ occurs info m.
Proof.
  intros Hi. unfold Index in Hi.
  destruct (Index_from_spec info m 0) as [[_ Hno] | [pre [post [_ Hp]]]];
    [exact Hno | lia].
Qed.

Lemma Index_found (info m : string) (n : nat) :
  Index info m = Z.of_nat n ->
  firstAt info m (take n info) (drop (n + length m) info).
Proof.
  intros Hn. unfold Index in Hn.
  destruct (Index_from_spec info m 0) as [[Hi _] | [pre [post [Hf Hi]]]];
    [lia |].
  assert (n = length pre) by lia. subst n.
  pose proof Hf as [Heq _].
  assert (Ht : take (length pre) info = pre) by (rewrite Heq; apply take_app).
  assert (Hd : drop (length pre + length m) info = post)
    by (rewrite Heq, drop_add, drop_app; apply drop_app).
  rewrite Ht, Hd. exact Hf.
Qed.

(** *** Digits *)

Lemma extractDigits_run (n : nat) (s : string) :
  extractDigits n s = take n (digitRun s).
Proof.
  revert s. induction n as [| n IH]; intros s; cbn.
  - now destruct (digitRun s).
  - destruct s as [| c s]; cbn; [reflexivity |].
    destruct (isDigit c); [now rewrite IH | reflexivity].
Qed.

Lemma ParseInt_value_min (digits : string) :
  ParseInt_value digits = Z.min (decimal digits) MaxInt64.
Proof.
  unfold ParseInt_value. destruct digits as [| c d]; [reflexivity |].
  destruct (MaxInt64 <? decimal (String c d))%Z eqn:H.
  - apply Z.ltb_lt in H. lia.
  - apply Z.ltb_ge in H. lia.
Qed.

Lemma valueOr0_absent (info m : string) : ~ occurs info m -> valueOr0 info m = 0%Z.
Proof. intros H. unfold valueOr0. now rewrite (Index_absent H). Qed.

Lemma valueOr0_firstAt (info m pre post : string) :
  firstAt info m pre post ->
  valueOr0 info m = Z.min (decimal (digitsRead post)) MaxInt64.
Proof.
  intros H. unfold valueOr0. destruct (Index_firstAt H) as [Hi Hd].
  rewrite Hd. rewrite Hi at 1.
  destruct (Z.of_nat (length pre) =? -1)%Z eqn:E; [apply Z.eqb_eq in E; lia |].
  now rewrite ParseInt_value_min, extractDigits_run.
Qed.

(** *** One round of the parser, and the three lists *)

Lemma parseInfoStat_eq (info : string) (stats : Stats) (k : string) :
  parseInfoStat info stats k =
  if (Index info k =? -1)%Z then stats
  else assignStat k (valueOr0 info k) stats.
Proof.
  unfold parseInfoStat, valueOr0. now destruct (Index info k =? -1)%Z.
Qed.

Lemma valueOr0_none (info k : string) :
  (Index info k =? -1)%Z = true -> valueOr0 info k = 0%Z.
Proof. unfold valueOr0. now intros ->. Qed.

Ltac split_on_markers info :=
  repeat match goal with
         | |- context [(Index info ?k =? -1)%Z] =>
             let E := fresh "E" in
             destruct (Index info k =? -1)%Z eqn:E;
             [rewrite ?(valueOr0_none E) |]
         end.

(** What [parseInfoStats] gives for the markers asked from a replica. *)
Lemma parseInfoStats_replica (info : string) :
  parseInfoStats info clusterReplicaKeyPrefixes =
  mkStats 0 0 (valueOr0 info redisInfoPrefixHits)
          (valueOr0 info redisInfoPrefixMisses) 0 0 0.
Proof.
  unfold parseInfoStats, clusterReplicaKeyPrefixes. cbn [fold_left].
  rewrite !parseInfoStat_eq. split_on_markers info; reflexivity.
Qed.

(** What it gives for the markers asked from a master of a cluster: the
    value read at [maxmemory:] is not in it. *)
Lemma parseInfoStats_master (info : string) :
  parseInfoStats info clusterMasterKeyPrefixes =
  mkStats (valueOr0 info redisInfoPrefixMem)
          (valueOr0 info redisInfoPrefixTotalSystemMem)
          (valueOr0 info redisInfoPrefixHits)
          (valueOr0 info redisInfoPrefixMisses)
          0
          (valueOr0 info redisInfoPrefixExpiredKeys)
          (valueOr0 info redisInfoPrefixEvictedKeys).
Proof.
  unfold parseInfoStats, clusterMasterKeyPrefixes. cbn [fold_left].
  rewrite !parseInfoStat_eq. split_on_markers info; reflexivity.
Qed.

(** And for the markers asked from a single node. *)
Lemma parseInfoStats_single (info : string) (db : Z) :
  parseInfoStats info (statsKeyPrefixes false db) =
  mkStats (valueOr0 info redisInfoPrefixMem)
          (valueOr0 info redisInfoPrefixTotalSystemMem)
          (valueOr0 info redisInfoPrefixHits)
          (valueOr0 info redisInfoPrefixMisses)
          (valueOr0 info (keysCountPrefix db))
          (valueOr0 info redisInfoPrefixExpiredKeys)
          (valueOr0 info redisInfoPrefixEvictedKeys).
Proof.
  unfold parseInfoStats, statsKeyPrefixes, clusterMasterKeyPrefixes.
  cbn [fold_left app].
  rewrite !parseInfoStat_eq. split_on_markers info; reflexivity.
Qed.

(** *** Reports that read alike *)

Lemma parseInfoStat_same (info info' : string) (stats : Stats) (m : string) :
  sameReading info info' m ->
  parseInfoStat info stats m = parseInfoStat info' stats m.
Proof.
  intros [[H H'] | (pre & post & pre' & post' & H & H' & Hd)];
    rewrite !parseInfoStat_eq.
  - now rewrite (Index_absent H), (Index_absent H').
  - rewrite (valueOr0_firstAt H), (valueOr0_firstAt H'), Hd.
    destruct (Index_firstAt H) as [-> _]. destruct (Index_firstAt H') as [-> _].
    destruct (Z.of_nat (length pre) =? -1)%Z eqn:E;
      [apply Z.eqb_eq in E; lia |].
    destruct (Z.of_nat (length pre') =? -1)%Z eqn:E';
      [apply Z.eqb_eq in E'; lia |].
    reflexivity.
Qed.

Lemma parseInfoStats_same (info info' : string) (L : list string) :
  (forall m, In m L -> sameReading info info' m) ->
  parseInfoStats info L = parseInfoStats info' L.
Proof.
  unfold parseInfoStats. generalize zeroStats.
  induction L as [| m L IH]; intros stats H; cbn [fold_left].
  - reflexivity.
  - rewrite (parseInfoStat_same stats (H m (or_introl eq_refl))).
    apply IH. intros k Hk. apply H. now right.
Qed.

(** *** The claim of the specification, and where the code leaves it *)

Ltac read_marker :=
  split;
  [ intros pre post Hf; rewrite <- (valueOr0_firstAt Hf); reflexivity
  | intros Hno; rewrite <- (valueOr0_absent Hno); reflexivity ].

(** Twenty digits do not fit an [int64]: the field holds the largest
    [int64] and not the integer the digits form. *)
Lemma parseInfoStats_overflow :
  firstAt "used_memory:99999999999999999999" redisInfoPrefixMem
          EmptyString "99999999999999999999" /\
  Memory (parseInfoStats "used_memory:99999999999999999999"
                         clusterMasterKeyPrefixes) = MaxInt64 /\
  ~ markerClaim "used_memory:99999999999999999999" clusterMasterKeyPrefixes
                redisInfoPrefixMem.
Proof.
  assert (Hf : firstAt "used_memory:99999999999999999999" redisInfoPrefixMem
                       EmptyString "99999999999999999999")
    by exact (@Index_found "used_memory:99999999999999999999"
                           redisInfoPrefixMem 0 eq_refl).
  split; [exact Hf | split; [reflexivity |]].
  intros [H _]. specialize (H _ _ Hf). vm_compute in H. discriminate.
Qed.

(** The value read at [maxmemory:] is stored only if [MaxMemory] is
    already positive, which it is not when the marker comes up: a configured
    limit is never reported, and the system's total memory takes its place. *)
Lemma parseInfoStats_maxmemory_unread :
  MaxMemory (parseInfoStats "maxmemory:1000" clusterMasterKeyPrefixes) = 0%Z /\
  MaxMemory (parseInfoStats "maxmemory:1000 total_system_memory:8000"
                            clusterMasterKeyPrefixes) = 8000%Z /\
  ~ markerClaim "maxmemory:1000" clusterMasterKeyPrefixes redisInfoPrefixMaxMem.
Proof.
  split; [reflexivity | split; [reflexivity |]].
  intros [H _].
  specialize (H EmptyString "1000" (@Index_found "maxmemory:1000" redisInfoPrefixMaxMem
                                        0 eq_refl)).
  vm_compute in H. discriminate.
Qed.

(** C6, as the code has it.  Let the list of markers be one of those the
    package passes to [parseInfoStats].  For each marker of the list other
    than [maxmemory:], and for [total_system_memory:] when the report has no
    [maxmemory:]: if the marker occurs, its field is the integer formed by
    the run of at most 20 decimal digits after its first instance, or the
    largest [int64] when that integer is above the range; if it does not
    occur its field is zero.  Nothing else in the report counts: two reports
    whose digits read at every marker of the list agree give the same
    result. *)
Theorem parseInfoStats_markers (info : string) (L : list string) :
  fixedMarkers L ->
  (forall m, In m L ->
     m <> redisInfoPrefixMaxMem ->
     (m = redisInfoPrefixTotalSystemMem -> ~ occurs info redisInfoPrefixMaxMem) ->
     markerReading info L m) /\
  (forall info',
     (forall m, In m L -> sameReading info info' m) ->
     parseInfoStats info L = parseInfoStats info' L).
Proof.
  intros HL. split; [| intros info' H; exact (parseInfoStats_same H)].
  intros m Hin Hmax _. unfold markerReading.
  destruct HL as [-> | [[|] [db ->]]].
  - rewrite parseInfoStats_replica.
    destruct Hin as [<- | [<- | []]]; read_marker.
  - rewrite parseInfoStats_master.
    destruct Hin as [<- | [<- | [<- | [<- | [<- | [<- | [<- | []]]]]]]];
      try (now elim Hmax); read_marker.
  - rewrite parseInfoStats_single.
    destruct Hin as [<- | [<- | [<- | [<- | [<- | [<- | [<- | [<- | []]]]]]]]];
      try (now elim Hmax); read_marker.
Qed.

End RedisInfoFacts.

(* ===================================================================== *)
(** ** The theorems at work on concrete backends *)

Module Examples.

Import Go Doubles Multi Scan Memory RedisInfo RedisInfoSpec Reconfig
       ReconfigSpec Watcher Fixtures.

Local Open Scope string_scope.

(** A failure in the first tier and a miss in the second: the failure is
    what [Load] returns, and both tiers were asked. *)
Lemma Multi_Load_miss_witness :
  Multi_Load [Mock_Cache (failingLoadMock 0 7); Mock_Cache (plainMock 1)] "k" [] =
  (([], Some (ErrOther 7)), [CallLoad 0 "k"; CallLoad 1 "k"]).
Proof.
  destruct (@MultiFacts.Multi_Load_miss Log
              [Mock_Cache (failingLoadMock 0 7); Mock_Cache (plainMock 1)]
              "k" []) as (Hw & _ & Hagg).
  - cbn. intros r [<- | [<- | []]]; discriminate.
  - destruct Hagg as (agg & H1 & H2 & _).
    + exists ([], Some (ErrOther 7)), (ErrOther 7). cbn. auto.
    + cbn in H2. injection H2 as <-.
      rewrite (surjective_pairing (Multi_Load _ _ _)), H1, Hw. reflexivity.
Defined.

(** Three tiers, the value in the last with 300 seconds left: it is
    written back to tier 1 and then to tier 0. *)
Lemma Multi_Load_read_repair_witness :
  Multi_Load [Mock_Cache (plainMock 0); Mock_Cache (plainMock 1);
              Mock_Cache (holdingMock 2 v1 (300 * Second))] "k" [] =
  ((v1, None),
   [CallLoad 0 "k"; CallLoad 1 "k"; CallLoad 2 "k"; CallTTL 2 "k";
    CallSave 1 "k" v1 (300 * Second); CallSave 0 "k" v1 (300 * Second)]).
Proof.
  apply (@MultiFacts.Multi_Load_read_repair Log
           [Mock_Cache (plainMock 0); Mock_Cache (plainMock 1)]
           (Mock_Cache (holdingMock 2 v1 (300 * Second))) [] "k" [] v1
           [CallLoad 0 "k"; CallLoad 1 "k"; CallLoad 2 "k"]).
  - cbn. lia.
  - cbn. intros r [<- | [<- | []]]; discriminate.
  - reflexivity.
Defined.

(** A failing save in the first tier does not keep the second from being
    saved to, and is what [Save] returns. *)
Lemma Multi_Save_every_backend_witness :
  Multi_Save [Mock_Cache (failingSaveMock 0 3); Mock_Cache (plainMock 1)]
             "k" v1 Minute [] =
  (Some (ErrOther 3), [CallSave 0 "k" v1 Minute; CallSave 1 "k" v1 Minute]).
Proof.
  destruct (@MultiFacts.Multi_Save_every_backend Log
              [Mock_Cache (failingSaveMock 0 3); Mock_Cache (plainMock 1)]
              "k" v1 Minute []) as (Hw & _ & _ & He & _).
  rewrite (surjective_pairing (Multi_Save _ _ _ _ _)), He, Hw. reflexivity.
Defined.

(** The first tier reports 10 hits and the second fails: no hit is left
    in the result. *)
Lemma Multi_Stats_all_or_nothing_witness :
  fst (fst (Multi_Stats [Mock_Cache (statsMock 0 (hits10, None));
                         Mock_Cache (statsMock 1 (zeroStats, Some (ErrOther 9)))]
                        [])) = zeroStats.
Proof.
  destruct (@MultiFacts.Multi_Stats_all_or_nothing Log
              [Mock_Cache (statsMock 0 (hits10, None));
               Mock_Cache (statsMock 1 (zeroStats, Some (ErrOther 9)))] [])
    as (_ & _ & Hfail & _).
  apply Hfail. exists (zeroStats, Some (ErrOther 9)).
  split; [cbn; auto | discriminate].
Defined.

(** The first tier does not know the key, the second holds it without an
    expiry: 0 is returned and the third tier is not queried. *)
Lemma Multi_TTL_scan_witness :
  Multi_TTL [Mock_Cache (ttlMock 0 (-1, None)); Mock_Cache (ttlMock 1 (0, None));
             Mock_Cache (ttlMock 2 (5, None))] "k" [] =
  ((0, None), [CallTTL 0 "k"; CallTTL 1 "k"]).
Proof.
  apply (proj1 (@MultiFacts.Multi_TTL_scan Log
                  [Mock_Cache (ttlMock 0 (-1, None));
                   Mock_Cache (ttlMock 1 (0, None));
                   Mock_Cache (ttlMock 2 (5, None))] "k" [])
               [Mock_Cache (ttlMock 0 (-1, None))]
               (Mock_Cache (ttlMock 1 (0, None)))
               [Mock_Cache (ttlMock 2 (5, None))]).
  - reflexivity.
  - cbn. intros r [<- | []]. right. cbn. lia.
  - reflexivity.
  - lia.
Defined.

(** Half a second becomes one second in the store. *)
Lemma Memory_Save_expiry_witness :
  Memory_Save toyFreecache "b" v1 500000000 memoryWithA =
  (None,
   mkMemory [(key_bytes "b", v1, 1); (key_bytes keyA, valueA, 60)]
            freecacheMinBufSize true).
Proof.
  destruct (proj1 (@MemoryFacts.Memory_Save_expiry Store toyFreecache
                     memoryWithA "b" v1 500000000)) as [_ H].
  - unfold Second. lia.
  - rewrite H. reflexivity.
Defined.

(** Sixty seconds left come back as the duration 60. *)
Lemma Memory_TTL_unscaled_witness :
  fst (Memory_TTL toyFreecache keyA memoryWithA) = (60, None) /\
  fst (Memory_TTL toyFreecache "b" memoryWithA) = (-1, None).
Proof.
  split.
  - destruct (@MemoryFacts.Memory_TTL_unscaled Store toyFreecache
                memoryWithA keyA) as (He & _ & Hn).
    + cbn. intros e H. discriminate.
    + destruct (Hn 60 eq_refl) as (H & _).
      rewrite (surjective_pairing (fst (Memory_TTL _ _ _))), H, He. reflexivity.
  - destruct (@MemoryFacts.Memory_TTL_unscaled Store toyFreecache
                memoryWithA "b") as (He & Hm & _).
    + cbn. intros e H. injection H as <-. reflexivity.
    + rewrite (surjective_pairing (fst (Memory_TTL _ _ _))), He, Hm;
        [reflexivity | discriminate].
Defined.

(** A watcher on which [Watch] was called once. *)
Lemma StatsWatcher_idempotent_witness :
  let s1 := fst (Watch (NewStatsWatcher (200 * 1000000))) in
  Watch (fst (Watch s1)) = (fst (Watch s1), Returned tt) /\
  pollers (fst (Watch s1)) = 1%nat /\
  snd (Close s1) = Returned None.
Proof.
  intros s1.
  destruct (@WatcherFacts.StatsWatcher_idempotent s1)
    as ((Hw & _) & _ & _ & _ & Hc & _).
  - apply reach_Watch, reach_new.
  - split; [exact Hw | split; [reflexivity | exact Hc]].
Defined.


(** The hits and the keys of a single node's report. *)
Lemma parseInfoStats_markers_witness :
  Hits (parseInfoStats infoSample (statsKeyPrefixes false 0)) = 7 /\
  Misses (parseInfoStats infoSample (statsKeyPrefixes false 0)) = 0.
Proof.
  destruct (@RedisInfoFacts.parseInfoStats_markers infoSample
              (statsKeyPrefixes false 0)) as [H _].
  - right. exists false, 0. reflexivity.
  - split.
    + destruct (H redisInfoPrefixHits) as [Hf _].
      * cbn. tauto.
      * discriminate.
      * discriminate.
      * exact (Hf _ _ (@RedisInfoFacts.Index_found infoSample
                         redisInfoPrefixHits 17 eq_refl)).
    + destruct (H redisInfoPrefixMisses) as [_ Hn].
      * cbn. tauto.
      * discriminate.
      * discriminate.
      * apply Hn. now apply RedisInfoFacts.Index_none.
Defined.

End Examples.

(* ===================================================================== *)
(** ** Multi and Nop together *)

Module MultiNopFacts.

Import Go Multi Scan Doubles ErrorsFacts MultiFacts.

Section WithWorld.

Variable W : Type.

Implicit Types (caches rest : list (Cache W)) (key : string) (w : W).

Lemma Save_loop_Nop caches key value expire mErr w :
  Save_loop (caches ++ [Nop_Cache W]) key value expire mErr w =
  Save_loop caches key value expire mErr w.
Proof.
  revert mErr w. induction caches as [| c rest IH]; intros mErr w; cbn.
  - reflexivity.
  - destruct (Save c key value expire w) as [[e |] w1]; apply IH.
Qed.

Lemma TTL_loop_Nop caches key mErr w :
  TTL_loop (caches ++ [Nop_Cache W]) key mErr w = TTL_loop caches key mErr w.
Proof.
  revert mErr w. induction caches as [| c rest IH]; intros mErr w; cbn.
  - reflexivity.
  - destruct (TTL c key w) as [[ttl [e |]] w1]; [apply IH |].
    destruct (0 <=? ttl); [reflexivity | apply IH].
Qed.

Lemma save_upfront_app caches (extra : list (Cache W)) n key val ttl w :
  (n <= List.length caches)%nat ->
  save_upfront (caches ++ extra) n key val ttl w =
  save_upfront caches n key val ttl w.
Proof.
  revert w. induction n as [| i IH]; intros w Hn; cbn.
  - reflexivity.
  - rewrite nth_error_app1 by lia.
    destruct (nth_error caches i); [apply IH; lia | reflexivity].
Qed.

Lemma Load_loop_Nop caches rest idx key mErr w :
  (idx + List.length rest = List.length caches)%nat ->
  Load_loop (caches ++ [Nop_Cache W]) (rest ++ [Nop_Cache W]) idx key mErr w =
  Load_loop caches rest idx key mErr w.
Proof.
  revert idx mErr w.
  induction rest as [| c rest IH]; intros idx mErr w Hlen; cbn.
  - reflexivity.
  - cbn in Hlen. destruct (Load c key w) as [[val [e |]] w1].
    + destruct (errors_Is e ErrNotFound); apply IH; lia.
    + destruct idx as [| i]; [reflexivity |].
      destruct (TTL c key w1) as [[ttl [e |]] w2]; [reflexivity |].
      rewrite save_upfront_app by lia. reflexivity.
Qed.

Lemma wrap64_idem (z : Z) : wrap64 (wrap64 z) = wrap64 z.
Proof.
  transitivity (wrap64 (wrap64 z + 0)); [now rewrite Z.add_0_r |].
  rewrite wrap64_add_l. now rewrite Z.add_0_r.
Qed.

Lemma wrapStats_addStats (s t : Stats) :
  wrapStats (addStats s t) = addStats s t.
Proof.
  unfold wrapStats, addStats, add64. cbn. now rewrite !wrap64_idem.
Qed.

Lemma addStats_zero_r (s : Stats) : addStats (wrapStats s) zeroStats = wrapStats s.
Proof.
  unfold addStats, wrapStats, zeroStats, add64. cbn.
  rewrite !wrap64_add_l, !Z.add_0_r. reflexivity.
Qed.

Lemma Stats_loop_Nop caches mErr (s : Stats) w :
  Stats_loop (caches ++ [Nop_Cache W]) mErr (wrapStats s) w =
  Stats_loop caches mErr (wrapStats s) w.
Proof.
  revert mErr s w. induction caches as [| c rest IH]; intros mErr s w; cbn.
  - now rewrite addStats_zero_r.
  - destruct (GetStats c w) as [[st [e |]] w1]; [apply IH |].
    rewrite <- (wrapStats_addStats (wrapStats s) st). apply IH.
Qed.

(** X1.  A [Nop] added after the last tier of a [Multi] changes nothing:
    the four operations give the same results and leave the backends in the
    same state as without it. *)
Theorem Multi_Nop_last caches key value expire w :
  Multi_Save (caches ++ [Nop_Cache W]) key value expire w =
    Multi_Save caches key value expire w /\
  Multi_Load (caches ++ [Nop_Cache W]) key w = Multi_Load caches key w /\
  Multi_TTL (caches ++ [Nop_Cache W]) key w = Multi_TTL caches key w /\
  Multi_Stats (caches ++ [Nop_Cache W]) w = Multi_Stats caches w.
Proof.
  unfold Multi_Save, Multi_Load, Multi_TTL, Multi_Stats. repeat split.
  - now rewrite Save_loop_Nop.
  - now apply Load_loop_Nop.
  - apply TTL_loop_Nop.
  - change zeroStats with (wrapStats zeroStats). now rewrite Stats_loop_Nop.
Qed.

(** X2.  A [Multi] without any backend, or with nothing but [Nop]
    backends, is a [Nop]: saves succeed and store nothing, loads find
    nothing, the TTL is -1 and the statistics are zero, with the world left
    as it was. *)
Theorem Multi_of_Nops (n : nat) key value expire w :
  let nops := repeat (Nop_Cache W) n in
  Multi_Save nops key value expire w = (None, w) /\
  Multi_Load nops key w = (([], Some ErrNotFound), w) /\
  Multi_TTL nops key w = ((-1, None), w) /\
  Multi_Stats nops w = ((zeroStats, None), w).
Proof.
  intros nops. subst nops. induction n as [| n IH].
  - repeat split.
  - change (repeat (Nop_Cache W) (S n))
      with (Nop_Cache W :: repeat (Nop_Cache W) n).
    rewrite repeat_cons. revert IH.
    unfold Multi_Save, Multi_Load, Multi_TTL, Multi_Stats.
    rewrite Save_loop_Nop, TTL_loop_Nop, Load_loop_Nop by reflexivity.
    change zeroStats with (wrapStats zeroStats) at 4.
    rewrite Stats_loop_Nop. exact (fun IH => IH).
Qed.

End WithWorld.

End MultiNopFacts.

(* ===================================================================== *)
(** ** The calls Multi makes on its backends *)

Module MockFacts.

Import Go Multi Scan Doubles MockCalls MultiFacts.

Lemma Mock_Save_log (m : Mock) key value expire (w : Log) :
  snd (Mock_Save m key value expire w) = w ++ [CallSave (name m) key value expire].
Proof. unfold Mock_Save. now destruct (saveCallback m). Qed.

Lemma Mock_Load_log (m : Mock) key (w : Log) :
  snd (Mock_Load m key w) = w ++ [CallLoad (name m) key].
Proof. unfold Mock_Load. now destruct (loadCallback m). Qed.

Lemma Mock_TTL_log (m : Mock) key (w : Log) :
  snd (Mock_TTL m key w) = w ++ [CallTTL (name m) key].
Proof. unfold Mock_TTL. now destruct (ttlCallback m). Qed.

Lemma Mock_Stats_log (m : Mock) (w : Log) :
  snd (Mock_Stats m w) = w ++ [CallStats (name m)].
Proof. unfold Mock_Stats. now destruct (statsCallback m). Qed.

Lemma saves_log (ms : list Mock) key value expire (w : Log) :
  fold_left (fun w c => snd (Save c key value expire w)) (map Mock_Cache ms) w =
  w ++ saveCalls key value expire ms.
Proof.
  revert w. induction ms as [| m ms IH]; intros w; cbn.
  - now rewrite app_nil_r.
  - rewrite IH, Mock_Save_log, <- app_assoc. reflexivity.
Qed.

Lemma stats_all_log (ms : list Mock) (w : Log) :
  snd (stats_all (map Mock_Cache ms) w) = w ++ statsCalls ms.
Proof.
  revert w. induction ms as [| m ms IH]; intros w; cbn.
  - now rewrite app_nil_r.
  - pose proof (Mock_Stats_log m w) as Hm.
    destruct (Mock_Stats m w) as [r w1]. cbn in Hm. subst w1.
    specialize (IH (w ++ [CallStats (name m)])).
    destruct (stats_all (map Mock_Cache ms) (w ++ [CallStats (name m)])).
    cbn in *. rewrite IH, <- app_assoc. reflexivity.
Qed.

(** Counting in a log: a mock's calls among those made on a list of
    mocks with distinct names. *)
Section Counting.

Variables (sel : nat -> Call -> bool) (call : Mock -> Call).
Hypothesis sel_call : forall n m, sel n (call m) = Nat.eqb (name m) n.

Lemma count_absent (n : nat) (ms : list Mock) :
  ~ In n (map name ms) -> filter (sel n) (map call ms) = [].
Proof.
  induction ms as [| a ms IH]; cbn; intros Hn; [reflexivity |].
  rewrite sel_call. destruct (Nat.eqb_spec (name a) n) as [E | E].
  - elim Hn. now left.
  - apply IH. intros H. apply Hn. now right.
Qed.

Lemma count_once (m : Mock) (ms : list Mock) :
  NoDup (map name ms) -> In m ms ->
  List.length (filter (sel (name m)) (map call ms)) = 1%nat.
Proof.
  induction ms as [| a ms IH]; cbn; intros Hnd Hin; [now elim Hin |].
  inversion Hnd as [| x l Hnotin Hnd' Heq]; subst.
  rewrite sel_call. destruct (Nat.eqb_spec (name a) (name m)) as [E | E].
  - cbn. rewrite count_absent; [reflexivity |]. now rewrite <- E.
  - apply IH; [exact Hnd' |]. destruct Hin as [-> | Hin]; [now elim E | exact Hin].
Qed.

Lemma count_other (n : nat) (other : Mock -> Call) (ms : list Mock) :
  (forall m, sel n (other m) = false) -> filter (sel n) (map other ms) = [].
Proof.
  intros H. induction ms as [| a ms IH]; cbn; [reflexivity |].
  now rewrite H, IH.
Qed.

End Counting.

Lemma count_app (f : Call -> bool) (w w' : Log) :
  List.length (filter f (w ++ w')) =
  (List.length (filter f w) + List.length (filter f w'))%nat.
Proof. now rewrite filter_app, length_app. Qed.

Lemma uint32_succ (a : nat) :
  uint32 (Z.of_nat (a + 1)) = uint32 (uint32 (Z.of_nat a) + 1).
Proof.
  unfold uint32. rewrite Nat2Z.inj_add. cbn [Z.of_nat Pos.of_succ_nat].
  now rewrite Zplus_mod_idemp_l.
Qed.

Lemma uint32_range (n : Z) : 0 <= uint32 n < 4294967296.
Proof. unfold uint32. apply Z.mod_pos_bound. reflexivity. Qed.

(** X3.  On mocks, [Multi.Save] makes exactly the calls [Save] on every
    backend, in index order, and [Multi.Stats] exactly the calls [Stats],
    whatever the mocks return: every backend is called once, and none is
    called again or left out after a failure.  With distinct mocks, the save
    counter of each, a [uint32], goes up by one, wrapping from 4294967295 to
    0, and its other counters stay; likewise for the stats counter. *)
Theorem Multi_calls_each_once (ms : list Mock) key value expire (w : Log) :
  NoDup (map name ms) ->
  let afterSave := snd (Multi_Save (map Mock_Cache ms) key value expire w) in
  let afterStats := snd (Multi_Stats (map Mock_Cache ms) w) in
  afterSave = w ++ saveCalls key value expire ms /\
  afterStats = w ++ statsCalls ms /\
  forall m, In m ms ->
    SaveCallsCount m afterSave = uint32 (SaveCallsCount m w + 1) /\
    (SaveCallsCount m w < 4294967295 ->
       SaveCallsCount m afterSave = SaveCallsCount m w + 1) /\
    (SaveCallsCount m w = 4294967295 -> SaveCallsCount m afterSave = 0) /\
    LoadCallsCount m afterSave = LoadCallsCount m w /\
    TTLCallsCount m afterSave = TTLCallsCount m w /\
    StatsCallsCount m afterSave = StatsCallsCount m w /\
    StatsCallsCount m afterStats = uint32 (StatsCallsCount m w + 1) /\
    SaveCallsCount m afterStats = SaveCallsCount m w.
Proof.
  intros Hnd afterSave afterStats.
  assert (Hsave : afterSave = w ++ saveCalls key value expire ms).
  { subst afterSave. unfold Multi_Save. rewrite Save_loop_all. cbn [snd].
    rewrite save_all_world. apply saves_log. }
  assert (Hstats : afterStats = w ++ statsCalls ms).
  { subst afterStats. unfold Multi_Stats. rewrite Stats_loop_all.
    destruct (ErrOrNil _); cbn [snd]; apply stats_all_log. }
  split; [exact Hsave | split; [exact Hstats |]].
  intros m Hin. rewrite Hsave, Hstats.
  assert (Hup : SaveCallsCount m (w ++ saveCalls key value expire ms) =
                uint32 (SaveCallsCount m w + 1)).
  { unfold SaveCallsCount, saveCalls. rewrite count_app.
    rewrite (@count_once isSaveOf (fun m => CallSave (name m) key value expire)
               (fun n m => eq_refl) m ms Hnd Hin).
    apply uint32_succ. }
  pose proof (uint32_range
                (Z.of_nat (List.length (filter (isSaveOf (name m)) w)))) as Hr.
  fold (SaveCallsCount m w) in Hr.
  split; [exact Hup |].
  split; [intros Hlt; rewrite Hup; unfold uint32; apply Z.mod_small; lia |].
  split; [intros Hmax; rewrite Hup, Hmax; reflexivity |].
  unfold SaveCallsCount, LoadCallsCount, TTLCallsCount, StatsCallsCount.
  rewrite !count_app. unfold saveCalls, statsCalls.
  rewrite (@count_once isStatsOf (fun m => CallStats (name m))
             (fun n m => eq_refl) m ms Hnd Hin).
  rewrite (@count_other isLoadOf (name m)
             (fun m => CallSave (name m) key value expire) ms (fun _ => eq_refl)).
  rewrite (@count_other isTTLOf (name m)
             (fun m => CallSave (name m) key value expire) ms (fun _ => eq_refl)).
  rewrite (@count_other isStatsOf (name m)
             (fun m => CallSave (name m) key value expire) ms (fun _ => eq_refl)).
  rewrite (@count_other isSaveOf (name m)
             (fun m => CallStats (name m)) ms (fun _ => eq_refl)).
  cbn [List.length]. rewrite !Nat.add_0_r.
  repeat split. apply uint32_succ.
Qed.

Lemma Mock_Load_reply (m : Mock) key (w : Log) :
  fst (Mock_Load m key w) = loadReply m key.
Proof. unfold loadReply, Mock_Load. now destruct (loadCallback m). Qed.

Lemma Mock_TTL_reply (m : Mock) key (w : Log) :
  fst (Mock_TTL m key w) = ttlReply m key.
Proof. unfold ttlReply, Mock_TTL. now destruct (ttlCallback m). Qed.

Lemma TTL_loop_log (ms : list Mock) key mErr (w : Log) :
  snd (TTL_loop (map Mock_Cache ms) key mErr w) =
  w ++ ttlCalls key (upToHit (ttlHit key) ms).
Proof.
  revert mErr w. induction ms as [| m ms IH]; intros mErr w;
    cbn [map TTL_loop upToHit].
  - cbn. now rewrite app_nil_r.
  - cbn [TTL Mock_Cache]. pose proof (Mock_TTL_log m key w) as Hm.
    pose proof (Mock_TTL_reply m key w) as Hr. unfold ttlHit.
    destruct (Mock_TTL m key w) as [[ttl err] w1]. cbn in Hm, Hr.
    subst w1. rewrite <- Hr. cbn [fst snd].
    destruct err as [e |].
    + rewrite IH, <- app_assoc. reflexivity.
    + destruct (0 <=? ttl); [reflexivity |].
      rewrite IH, <- app_assoc. reflexivity.
Qed.

Lemma save_upfront_log (pre rest : list Mock) key val ttl (w : Log) :
  save_upfront (map Mock_Cache (pre ++ rest)) (List.length pre) key val ttl w =
  w ++ saveCalls key val ttl (rev pre).
Proof.
  rewrite map_app, <- (length_map Mock_Cache pre), save_upfront_rev.
  rewrite <- map_rev. apply saves_log.
Qed.

Lemma Load_loop_log (rest pre : list Mock) key mErr (w : Log) :
  snd (Load_loop (map Mock_Cache (pre ++ rest)) (map Mock_Cache rest)
                 (List.length pre) key mErr w) =
  w ++ loadCalls key (upToHit (loadHit key) rest) ++
  match firstHit (loadHit key) rest with
  | Some (above, h) => writeBack key (pre ++ above) h
  | None => []
  end.
Proof.
  revert pre mErr w.
  induction rest as [| m rest IH]; intros pre mErr w;
    cbn [map Load_loop upToHit firstHit].
  - cbn. rewrite app_nil_r. now destruct (ErrOrNil mErr).
  - cbn [Load Mock_Cache]. pose proof (Mock_Load_log m key w) as Hm.
    pose proof (Mock_Load_reply m key w) as Hr. unfold loadHit at 1 3.
    destruct (Mock_Load m key w) as [[val err] w1]. cbn in Hm, Hr.
    subst w1. rewrite <- Hr. cbn [snd].
    assert (Hrec : forall mErr',
      snd (Load_loop (map Mock_Cache (pre ++ m :: rest)) (map Mock_Cache rest)
                     (S (List.length pre)) key mErr'
                     (w ++ [CallLoad (name m) key])) =
      w ++ loadCalls key (m :: upToHit (loadHit key) rest) ++
      match
        match firstHit (loadHit key) rest with
        | Some (above, h) => Some (m :: above, h)
        | None => None
        end
      with
      | Some (above, h) => writeBack key (pre ++ above) h
      | None => []
      end).
    { intros mErr'.
      pose proof (IH (pre ++ [m]) mErr' (w ++ [CallLoad (name m) key])) as E.
      rewrite <- app_assoc in E. cbn [app] in E.
      rewrite length_app, Nat.add_1_r in E. rewrite E.
      rewrite <- app_assoc. cbn [loadCalls map app].
      destruct (firstHit (loadHit key) rest) as [[above h] |]; [| reflexivity].
      now rewrite <- app_assoc. }
    destruct err as [e |]; [destruct (errors_Is e ErrNotFound); apply Hrec |].
    rewrite app_nil_r. cbn [loadCalls map app].
    destruct pre as [| p0 pre']; [cbn; reflexivity |].
    cbn [List.length Nat.ltb Nat.leb].
    cbn [TTL Mock_Cache].
    pose proof (Mock_TTL_log m key (w ++ [CallLoad (name m) key])) as Ht.
    pose proof (Mock_TTL_reply m key (w ++ [CallLoad (name m) key])) as Hrt.
    destruct (Mock_TTL m key (w ++ [CallLoad (name m) key])) as [[ttl errTTL] w2].
    cbn in Ht, Hrt. subst w2. unfold writeBack. rewrite <- Hrt, <- Hr.
    cbn [fst snd].
    destruct errTTL as [e |]; cbn [snd].
    + now rewrite <- app_assoc.
    + change (S (List.length pre')) with (List.length (p0 :: pre')).
      rewrite save_upfront_log, <- !app_assoc. reflexivity.
Qed.

Lemma firstHit_upToHit (hit : Mock -> bool) (ms above : list Mock) (h : Mock) :
  firstHit hit ms = Some (above, h) -> upToHit hit ms = above ++ [h].
Proof.
  revert above. induction ms as [| m ms IH]; intros above H;
    cbn [firstHit upToHit] in *; [discriminate H |].
  destruct (hit m).
  - injection H as <- <-. reflexivity.
  - destruct (firstHit hit ms) as [[above' h'] |]; [| discriminate H].
    injection H as <- <-. cbn [app]. f_equal. now apply IH.
Qed.

Lemma repairCalls_on (key : string) (ms : list Mock) (c : Call) :
  In c (repairCalls key ms) ->
  In (calledOn c) (map name (upToHit (loadHit key) ms)) /\
  isStatsCall c = false.
Proof.
  unfold repairCalls.
  destruct (firstHit (loadHit key) ms) as [[above h] |] eqn:E;
    [| intros H; now elim H].
  rewrite (firstHit_upToHit E). unfold writeBack.
  destruct above as [| a above']; [intros H; now elim H |].
  intros [<- | H].
  - split; [| reflexivity]. cbn [calledOn]. rewrite map_app. apply in_or_app.
    right. now left.
  - destruct (snd (ttlReply h key)); [now elim H |].
    unfold saveCalls in H. apply in_map_iff in H. destruct H as (m & <- & Hm).
    split; [| reflexivity]. cbn [calledOn]. rewrite map_app. apply in_or_app.
    left. apply in_map. now apply in_rev.
Qed.

(** X4.  On mocks, [Multi.TTL] makes the calls [TTL] on the backends up to
    the first that replies without an error a TTL that is not negative, that
    one included, in index order, and no other call.  [Multi.Load] makes the
    calls [Load] on the backends up to the first that replies without an
    error, and then the write-back: nothing when the hit is the first
    backend or there is no hit; else one [TTL] on the hit and, if it replies
    without an error, [Save] on the backends above the hit, from the nearest
    to the first, with the value and the TTL found.  So a hit in the first
    backend makes the one [Load] all that is done, a scan without a hit asks
    every backend once, every call is made on a backend up to the hit, none
    on one after it, and [Stats] is never called. *)
Theorem Multi_scan_calls (ms : list Mock) key (w : Log) :
  snd (Multi_TTL (map Mock_Cache ms) key w) =
    w ++ ttlCalls key (upToHit (ttlHit key) ms) /\
  snd (Multi_Load (map Mock_Cache ms) key w) =
    w ++ loadCalls key (upToHit (loadHit key) ms) ++ repairCalls key ms /\
  (forall m rest, ms = m :: rest -> loadHit key m = true ->
     snd (Multi_Load (map Mock_Cache ms) key w) = w ++ [CallLoad (name m) key]) /\
  (firstHit (loadHit key) ms = None ->
     snd (Multi_Load (map Mock_Cache ms) key w) = w ++ loadCalls key ms) /\
  (forall c,
     In c (loadCalls key (upToHit (loadHit key) ms) ++ repairCalls key ms) ->
     In (calledOn c) (map name (upToHit (loadHit key) ms)) /\
     isStatsCall c = false).
Proof.
  assert (HL : snd (Multi_Load (map Mock_Cache ms) key w) =
               w ++ loadCalls key (upToHit (loadHit key) ms) ++
               repairCalls key ms).
  { exact (Load_loop_log ms [] key nilMultiError w). }
  split; [apply TTL_loop_log |]. split; [exact HL |].
  split; [| split].
  - intros m rest -> Hhit. rewrite HL. unfold repairCalls.
    cbn [upToHit firstHit]. rewrite Hhit. reflexivity.
  - intros Hnone. rewrite HL. unfold repairCalls. rewrite Hnone.
    rewrite app_nil_r. f_equal. f_equal.
    clear HL. induction ms as [| m ms IH]; [reflexivity |].
    cbn [upToHit firstHit] in *. destruct (loadHit key m); [discriminate Hnone |].
    f_equal. apply IH.
    destruct (firstHit (loadHit key) ms) as [[above h] |];
      [discriminate Hnone | reflexivity].
  - intros c Hc. apply in_app_or in Hc. destruct Hc as [Hc | Hc].
    + unfold loadCalls in Hc. apply in_map_iff in Hc.
      destruct Hc as (m & <- & Hm). split; [| reflexivity].
      cbn [calledOn]. now apply in_map.
    + now apply repairCalls_on.
Qed.

End MockFacts.

(* ===================================================================== *)
(** ** More on Memory *)

Module MemoryMoreFacts.

Import Go Multi Memory Reconfig MemoryConfig Pair.

Lemma expireSeconds_sub (n : Z) : 0 < n < Second -> expireSeconds n = 1.
Proof.
  intros H. unfold expireSeconds, Seconds_int.
  rewrite Z.quot_small by lia.
  destruct (0 <? n) eqn:E; [reflexivity | apply Z.ltb_ge in E; lia].
Qed.

Lemma expireSeconds_whole (expire : Z) :
  Second <= expire ->
  expireSeconds expire = expire / Second /\ 1 <= expire / Second.
Proof.
  intros H. unfold expireSeconds, Seconds_int, Second in *.
  rewrite Z.quot_div_nonneg by lia.
  assert (1 <= expire / 1000000000)
    by (apply Z.div_le_lower_bound; lia).
  destruct (expire / 1000000000 =? 0) eqn:E; [apply Z.eqb_eq in E; lia |].
  rewrite andb_false_r. split; [reflexivity | assumption].
Qed.

Lemma changedMemSize_absent (config : Config) (changedKeys : list string) :
  ~ In MemoryCfgKeyMemorySize changedKeys ->
  changedMemSize config changedKeys = Some 0.
Proof.
  induction changedKeys as [| k rest IH]; cbn [changedMemSize]; intros Hn.
  - reflexivity.
  - destruct (String.eqb_spec k MemoryCfgKeyMemorySize) as [E | E].
    + elim Hn. now left.
    + apply IH. intros H. apply Hn. now right.
Qed.

Lemma changedMemSize_present (config : Config) (changedKeys : list string) :
  In MemoryCfgKeyMemorySize changedKeys ->
  changedMemSize config changedKeys =
  match asInt (Get config MemoryCfgKeyMemorySize
                   (VInt memoryCfgDefValueMemorySize)) with
  | Some memSize => Some (getRealMemorySize memSize)
  | None => None
  end.
Proof.
  induction changedKeys as [| k rest IH]; cbn [changedMemSize]; intros Hin.
  - now elim Hin.
  - destruct (String.eqb_spec k MemoryCfgKeyMemorySize) as [E | E].
    + reflexivity.
    + apply IH. destruct Hin as [H | H]; [now elim E | exact H].
Qed.

Lemma Get_typed (config : Config) (key : string) (def : cfgValue) :
  typed config -> sameType (Get config key def) def = true.
Proof.
  intros Ht. unfold Get. destruct (config key) as [v |]; [apply Ht |].
  now destruct def.
Qed.

Lemma changedMemSize_typed (config : Config) (changedKeys : list string) :
  typed config -> exists m, changedMemSize config changedKeys = Some m.
Proof.
  intros Ht. induction changedKeys as [| k rest IH]; cbn [changedMemSize].
  - now exists 0.
  - destruct (String.eqb k MemoryCfgKeyMemorySize); [| exact IH].
    pose proof (Get_typed MemoryCfgKeyMemorySize
                  (VInt memoryCfgDefValueMemorySize) Ht) as Hs.
    destruct (Get config MemoryCfgKeyMemorySize (VInt memoryCfgDefValueMemorySize));
      try discriminate Hs.
    cbn [asInt obind]. eauto.
Qed.

Lemma getRealMemorySize_max (m : Z) :
  getRealMemorySize m = Z.max m freecacheMinBufSize.
Proof.
  unfold getRealMemorySize.
  destruct (m <? freecacheMinBufSize) eqn:E;
    [apply Z.ltb_lt in E | apply Z.ltb_ge in E]; lia.
Qed.

Section WithStore.

Variable S : Type.
Variable fc : Freecache S.

Implicit Types (cache front back : Memory S) (key : string) (value : bytes).

(** X5.  [Memory.Save] with an expiry that is not negative, and below
    2^22 seconds, where the seconds [int(expire.Seconds())] are exact, hands
    to Freecache a number of seconds that is 0 only for the expiry 0: a
    positive expiry is never stored as "no expiration".  From one second on
    it is the expiry cut down to whole seconds, so an entry never lives
    longer than asked. *)
Theorem Memory_Save_seconds cache key value (expire : Duration) :
  0 <= expire < 4194304 * Second ->
  Memory_Save fc key value expire cache =
    (fst (fc_Set fc (key_bytes key) value (expireSeconds expire) (client cache)),
     with_client cache
       (snd (fc_Set fc (key_bytes key) value (expireSeconds expire)
                    (client cache)))) /\
  (expireSeconds expire = 0 <-> expire = NoExpire) /\
  (0 < expire -> 1 <= expireSeconds expire) /\
  (Second <= expire ->
     expireSeconds expire * Second <= expire <
     (expireSeconds expire + 1) * Second) /\
  expireSeconds expire < 4194304.
Proof.
  intros [Hpos Hbound]. split; [| split; [| split; [| split]]].
  - unfold Memory_Save.
    destruct (expire <? 0) eqn:E; [apply Z.ltb_lt in E; lia |].
    now destruct (fc_Set fc (key_bytes key) value (expireSeconds expire)
                         (client cache)).
  - unfold NoExpire. split.
    + intros H0. destruct (Z.eq_dec expire 0) as [-> | Hne]; [reflexivity |].
      destruct (Z_lt_le_dec expire Second) as [Hlt | Hge].
      * rewrite expireSeconds_sub in H0 by lia. discriminate.
      * destruct (expireSeconds_whole Hge) as [E Hq]. lia.
    + intros ->. reflexivity.
  - intros H. destruct (Z_lt_le_dec expire Second) as [Hlt | Hge].
    + rewrite expireSeconds_sub by lia. lia.
    + destruct (expireSeconds_whole Hge) as [E Hq]. lia.
  - intros Hge. destruct (expireSeconds_whole Hge) as [-> _].
    unfold Second.
    pose proof (Z.mul_div_le expire 1000000000 eq_refl).
    pose proof (Z.mul_succ_div_gt expire 1000000000 eq_refl).
    lia.
  - destruct (Z_lt_le_dec expire Second) as [Hlt | Hge].
    + destruct (Z.eq_dec expire 0) as [-> | Hne]; [reflexivity |].
      rewrite expireSeconds_sub by lia. lia.
    + destruct (expireSeconds_whole Hge) as [-> _].
      unfold Second in *. apply Z.div_lt_upper_bound; lia.
Qed.

(** X6.  Two [Memory] tiers in a [Multi], the key missing from the first
    and held by the second with [n] seconds left.  [Load] returns the value
    and writes it back to the first tier; since [Memory.TTL] reports the [n]
    seconds as [n] nanoseconds, the copy is stored with an expiration of one
    second for every [n] from 1 up to 999999999, and without expiration only
    for [n = 0]. *)
Theorem Memory_read_repair_expiry front back key value (n : Z) e sf sb sb' :
  fst (fc_Get fc (key_bytes key) (client front)) = ([], Some e) ->
  errors_Is e freecache_ErrNotFound = true ->
  snd (fc_Get fc (key_bytes key) (client front)) = sf ->
  fc_Get fc (key_bytes key) (client back) = ((value, None), sb) ->
  fc_TTL fc (key_bytes key) sb = ((n, None), sb') ->
  0 <= n < Second ->
  Multi_Load [@onFirst (Memory S) (Memory S) (Memory_Cache fc);
              @onSecond (Memory S) (Memory S) (Memory_Cache fc)]
             key (front, back) =
  ((value, None),
   (with_client front
      (snd (fc_Set fc (key_bytes key) value (if n =? 0 then 0 else 1) sf)),
    with_client back sb')).
Proof.
  intros Hget He Hsf Hback Httl Hn.
  unfold Multi_Load. cbn [Load_loop Load onFirst onSecond Memory_Cache fst snd].
  unfold Memory_Load at 1.
  destruct (fc_Get fc (key_bytes key) (client front)) as [[v0 e0] s0].
  cbn in Hget, Hsf. injection Hget as -> ->. subst s0. rewrite He.
  cbn [errors_Is error_eqb orb fst snd].
  unfold Memory_Load. rewrite Hback. cbn [Nat.ltb Nat.leb fst snd TTL].
  cbn [TTL onSecond Memory_Cache fst snd].
  unfold Memory_TTL. cbn [with_client client]. rewrite Httl.
  cbn [save_upfront nth_error Save onFirst Memory_Cache fst snd].
  unfold Memory_Save.
  destruct (n <? 0) eqn:Eneg; [apply Z.ltb_lt in Eneg; lia |].
  assert (Hs : expireSeconds n = if n =? 0 then 0 else 1).
  { destruct (n =? 0) eqn:E0.
    - apply Z.eqb_eq in E0. now subst n.
    - apply Z.eqb_neq in E0. apply expireSeconds_sub. lia. }
  rewrite Hs. cbn [with_client client memSize mu].
  now destruct (fc_Set fc (key_bytes key) value (if n =? 0 then 0 else 1) sf).
Qed.

(** X7.  The size of a [Memory] is never below Freecache's minimum of
    512 KiB: [NewMemory] raises a smaller request to it,
    [NewMemoryWithConfig] does the same with the configured size (10 MiB
    when the key is not set), a reconfiguration keeps the bound, and the
    cache operations leave the size alone.  [Stats] reports that size as
    both [Memory] and [MaxMemory], with a nil error. *)
Theorem Memory_size_floor :
  (forall m, memSize (NewMemory fc m) = Z.max m freecacheMinBufSize) /\
  (forall config cache,
     NewMemoryWithConfig fc config = Some cache ->
     freecacheMinBufSize <= memSize cache /\ mu cache = true /\
     (config MemoryCfgKeyMemorySize = None ->
        memSize cache = memoryCfgDefValueMemorySize)) /\
  (forall config changedKeys cache cache' tr,
     Memory_onConfigChange fc config changedKeys cache = Some (cache', tr) ->
     freecacheMinBufSize <= memSize cache ->
     freecacheMinBufSize <= memSize cache' /\ mu cache' = mu cache) /\
  (forall cache key value expire,
     memSize (snd (Memory_Save fc key value expire cache)) = memSize cache /\
     memSize (snd (Memory_Load fc key cache)) = memSize cache /\
     memSize (snd (Memory_TTL fc key cache)) = memSize cache /\
     Memory_Stats fc cache =
       ((mkStats (memSize cache) (memSize cache)
                 (fc_HitCount fc (client cache)) (fc_MissCount fc (client cache))
                 (fc_EntryCount fc (client cache))
                 (fc_ExpiredCount fc (client cache))
                 (fc_EvacuateCount fc (client cache)), None), cache)).
Proof.
  split; [| split; [| split]].
  - intros m. cbn. apply getRealMemorySize_max.
  - intros config cache H. unfold NewMemoryWithConfig, Get in H.
    destruct (config MemoryCfgKeyMemorySize) as [v |] eqn:Ec.
    + destruct (asInt (convert config v (VInt memoryCfgDefValueMemorySize)))
        as [m |]; [| discriminate].
      injection H as <-. cbn [memSize NewMemory mu].
      rewrite getRealMemorySize_max.
      split; [apply Z.le_max_r | split; [reflexivity | discriminate]].
    + cbn [asInt] in H. injection H as <-. cbn [memSize NewMemory mu].
      split; [discriminate | split; reflexivity].
  - intros config changedKeys cache cache' tr H Hmin.
    unfold Memory_onConfigChange in H.
    destruct (changedMemSize config changedKeys) as [m |] eqn:Em;
      [| discriminate].
    cbn [obind] in H.
    destruct (m =? 0) eqn:E0; [injection H as <- <-; now split |].
    destruct (Z.eq_dec m (memSize cache)) as [-> | Hne].
    { rewrite ReconfigFacts.run_Memory_same in H. injection H as <- <-.
      now split. }
    destruct (ReconfigFacts.run_Memory_resize fc Hne) as (body & Hrun & _).
    rewrite Hrun in H.
    injection H as <- <-. cbn [memSize mu]. split; [| reflexivity].
    destruct (in_dec string_dec MemoryCfgKeyMemorySize changedKeys) as [Hin | Hn].
    + rewrite (changedMemSize_present config Hin) in Em.
      destruct (asInt _) as [m0 |]; [| discriminate].
      injection Em as <-. rewrite getRealMemorySize_max. apply Z.le_max_r.
    + rewrite (changedMemSize_absent config Hn) in Em. injection Em as <-.
      discriminate E0.
  - intros cache key value expire. repeat split.
    + unfold Memory_Save. destruct (expire <? 0).
      * now destruct (fc_Del fc (key_bytes key) (client cache)).
      * now destruct (fc_Set fc (key_bytes key) value (expireSeconds expire)
                             (client cache)).
    + unfold Memory_Load.
      destruct (fc_Get fc (key_bytes key) (client cache)) as [[v [e |]] s];
        [destruct (errors_Is e freecache_ErrNotFound) |]; reflexivity.
    + unfold Memory_TTL.
      destruct (fc_TTL fc (key_bytes key) (client cache)) as [[t [e |]] s];
        [destruct (errors_Is e freecache_ErrNotFound) |]; reflexivity.
Qed.

(** X8.  A change of configuration rebuilds a [Memory] only when it
    changes its size.  If the memory-size key is not among the changed keys
    the callback returns at once, without taking the lock.  If it is, but the
    size to apply (the one [Get] gives, raised to 512 KiB at least) is the
    current one, the lock is taken and released and the cache is left as it
    was.  And with a configuration whose [Get] gives every value in the type
    of the default, the callback does not panic. *)
Theorem Memory_onConfigChange_unchanged (config : Config)
    (changedKeys : list string) cache :
  (~ In MemoryCfgKeyMemorySize changedKeys ->
     Memory_onConfigChange fc config changedKeys cache = Some (cache, [])) /\
  (In MemoryCfgKeyMemorySize changedKeys ->
     forall m,
       Get config MemoryCfgKeyMemorySize (VInt memoryCfgDefValueMemorySize) =
         VInt m ->
       Z.max m freecacheMinBufSize = memSize cache ->
       Memory_onConfigChange fc config changedKeys cache =
         Some (cache, [EvLock; EvUnlock])) /\
  (typed config ->
     Memory_onConfigChange fc config changedKeys cache <> None).
Proof.
  unfold Memory_onConfigChange. split; [| split].
  - intros Hn. now rewrite (changedMemSize_absent config Hn).
  - intros Hin m Hget Hsize.
    rewrite (changedMemSize_present config Hin), Hget. cbn [asInt obind].
    rewrite getRealMemorySize_max, Hsize.
    destruct (memSize cache =? 0) eqn:E0.
    + apply Z.eqb_eq in E0. unfold freecacheMinBufSize in Hsize. lia.
    + now rewrite ReconfigFacts.run_Memory_same.
  - intros Ht. destruct (changedMemSize_typed changedKeys Ht) as [m ->].
    cbn [obind]. destruct (m =? 0); discriminate.
Qed.

End WithStore.

End MemoryMoreFacts.

(* ===================================================================== *)
(** ** More on the Redis caches *)

Module RedisMoreFacts.

Import Go RedisInfo Reconfig Locking RedisCache Counters Scan MultiFacts.

Lemma getRedisConfig_typed (config : Config) :
  typed config -> exists cfg, getRedisConfig config = Some cfg.
Proof.
  intros Ht. unfold getRedisConfig.
  repeat match goal with
  | |- context [Get config ?k ?d] =>
      let H := fresh "H" in
      pose proof (MemoryMoreFacts.Get_typed k d Ht) as H;
      destruct (Get config k d); try discriminate H; clear H;
      cbn [asInt asString asStrings asDuration asBool obind]
  end.
  eauto.
Qed.

Lemma Redis_reconfigure_coherent (v : RedisVersion) (cfg : RedisConfig)
    (cache : Redis) :
  coherent (fst (run (Redis_reconfigure v cfg) cache)) /\
  rclient (fst (run (Redis_reconfigure v cfg) cache)) = NewUniversalClient v cfg /\
  rmu (fst (run (Redis_reconfigure v cfg) cache)) = rmu cache.
Proof. split; [split; reflexivity | split; reflexivity]. Qed.

Lemma Redis_reconfigure_keeps (v : RedisVersion) (cfg : RedisConfig)
    (cache : Redis) :
  coherent cache -> keeps coherent false (Redis_reconfigure v cfg) cache.
Proof.
  intros Hc. cbn. split; [exact Hc |]. intros cache1 _.
  split; [split; reflexivity |]. intros cache2 H2.
  split; [exact H2 | intros; exact Logic.I].
Qed.

(** X9.  A Redis cache is always coherent with the configuration its
    client was made from.  [NewRedis6]/[NewRedis7] and their [WithConfig]
    variants build it so.  A reconfiguration that touches none of the Redis
    keys changes nothing and does nothing; one that does leaves the cache
    with the new client and with the cluster flag and the markers of the new
    configuration, and keeps the mutex; with a configuration whose [Get]
    gives every value in the type of the default it does not panic.  And
    beside cache operations, under any scheduling, the half-replaced cache is
    never seen: whenever the write lock is not held the cache is coherent,
    and an operation that is between its [rLock] and its [rUnlock] excludes
    the writer, so that it reads a client, a flag and markers that belong
    together. *)
Theorem Redis_onConfigChange_coherent (v : RedisVersion) (config : Config)
    (changedKeys : list string) (cache : Redis) :
  (forall cfg, coherent (NewRedis v cfg) /\ rmu (NewRedis v cfg) = false) /\
  (forall c, NewRedisWithConfig v config = Some c ->
     coherent c /\ rmu c = true /\ getRedisConfig config = Some (options (rclient c))) /\
  (existsb isRedisConfigKey changedKeys = false ->
     Redis_onConfigChange v config changedKeys cache = Some (cache, [])) /\
  (forall cfg cache' tr,
     existsb isRedisConfigKey changedKeys = true ->
     getRedisConfig config = Some cfg ->
     Redis_onConfigChange v config changedKeys cache = Some (cache', tr) ->
     coherent cache' /\ rclient cache' = NewUniversalClient v cfg /\
     rmu cache' = rmu cache) /\
  (typed config -> Redis_onConfigChange v config changedKeys cache <> None) /\
  (forall cfg ops st,
     coherent cache ->
     Forall (fun op : Redis -> Redis => forall c, coherent c -> coherent (op c))
            ops ->
     steps (start cache (Redis_reconfigure v cfg) ops) st ->
     (writing (mutex st) = false -> coherent (shared st)) /\
     (forall i q, nth_error (operations st) i = Some q -> inside q = true ->
        writing (mutex st) = false /\ coherent (shared st))).
Proof.
  split; [| split; [| split; [| split; [| split]]]].
  - intros cfg. split; [split |]; reflexivity.
  - intros c H. unfold NewRedisWithConfig in H.
    destruct (getRedisConfig config) as [cfg |]; [| discriminate].
    injection H as <-. split; [split |]; repeat split; reflexivity.
  - intros H. unfold Redis_onConfigChange. now rewrite H.
  - intros cfg cache' tr Hkey Hcfg H. unfold Redis_onConfigChange in H.
    rewrite Hkey, Hcfg in H. cbn [negb obind] in H.
    pose proof (Redis_reconfigure_coherent v cfg cache) as Hc.
    destruct (run (Redis_reconfigure v cfg) cache) as [c1 tr1].
    injection H as <- <-. exact Hc.
  - intros Ht. unfold Redis_onConfigChange.
    destruct (negb (existsb isRedisConfigKey changedKeys)); [discriminate |].
    destruct (getRedisConfig_typed Ht) as [cfg ->]. discriminate.
  - intros cfg ops st Hc Hops Hsteps.
    assert (HInv : Inv allowedRedis coherent st).
    { revert Hsteps. apply ReconfigFacts.steps_Inv.
      apply ReconfigFacts.Inv_start.
      - apply ReconfigFacts.Redis_reconfigure_follows.
      - exact Hc.
      - intros. now apply Redis_reconfigure_keeps.
      - exact Hops. }
    assert (Hfree : writing (mutex st) = false -> coherent (shared st)).
    { intros Hw. destruct HInv as (_ & _ & _ & _ & _ & Hk).
      rewrite Hw in Hk. exact (proj1 Hk). }
    split; [exact Hfree |]. intros i q Hq Hin.
    pose proof (ReconfigFacts.inside_excludes HInv Hq Hin) as Hw.
    split; [exact Hw | exact (Hfree Hw)].
Qed.

Section WithServer.

Variable W : Type.
Variable client : UniversalClient W.

(** X10.  [Redis6.TTL] and [Redis7.TTL] bring the reply of the client to
    the contract of [Cache].  An error is passed on, with -1.  Without an
    error: the reply -1 (no expiration) becomes 0; the reply 0, as every
    reply below -1, becomes or stays negative, that is "not found"; a
    positive reply is returned as it is.  So the result is 0 only for a key
    that has no expiration. *)
Theorem Redis_TTL_contract (key : string) (w : W) :
  let q := cmd_TTL client key w in
  let r := Redis_TTL client key w in
  let reply := fst (fst q) in
  snd r = snd q /\
  snd (fst r) = snd (fst q) /\
  (snd (fst q) <> None -> fst (fst r) = -1) /\
  (snd (fst q) = None ->
     (fst (fst r) = NoExpire <-> reply = -1) /\
     (fst (fst r) < 0 <-> reply = 0 \/ reply < -1) /\
     (0 < fst (fst r) <-> 0 < reply) /\
     (0 < reply -> fst (fst r) = reply)).
Proof.
  intros q r reply. subst q r reply. unfold Redis_TTL.
  destruct (cmd_TTL client key w) as [[ttl [e |]] w1]; cbn [fst snd].
  - split; [reflexivity | split; [reflexivity | split; [reflexivity |]]].
    intros H. discriminate H.
  - unfold redisTTLNoExpire, NoExpire.
    destruct (ttl =? 0) eqn:E0; [apply Z.eqb_eq in E0 | apply Z.eqb_neq in E0];
      [| destruct (ttl =? -1) eqn:E1;
         [apply Z.eqb_eq in E1 | apply Z.eqb_neq in E1]];
      cbn [fst snd]; (split; [reflexivity |]); (split; [reflexivity |]);
      (split; [intros H; now elim H |]); intros _; repeat split; lia.
Qed.

End WithServer.

(** *** The statistics of a cluster *)

Lemma forEachNode_Keys fn nodes stats :
  (forall s r, Keys (fst (fn s r)) = Keys s) ->
  Keys (fst (forEachNode fn nodes stats)) = Keys stats.
Proof.
  intros Hfn. revert stats. induction nodes as [| r rest IH]; intros stats; cbn.
  - reflexivity.
  - specialize (Hfn stats r). destruct (fn stats r) as [s1 e1].
    specialize (IH s1). destruct (forEachNode fn rest s1) as [s2 e2].
    cbn in *. congruence.
Qed.

Lemma forEachNode_error fn nodes stats :
  (forall s r, snd (fn s r) = snd r) ->
  (snd (forEachNode fn nodes stats) = None <-> forall r, In r nodes -> snd r = None).
Proof.
  intros Hfn. revert stats. induction nodes as [| r rest IH]; intros stats; cbn.
  - split; [intros _ r [] | reflexivity].
  - specialize (Hfn stats r). destruct (fn stats r) as [s1 e1].
    specialize (IH s1). destruct (forEachNode fn rest s1) as [s2 e2].
    cbn in *. subst e1. destruct (snd r) as [e |] eqn:Er.
    + split; [discriminate |]. intros H. specialize (H r (or_introl eq_refl)).
      congruence.
    + rewrite IH. split.
      * intros H x [<- | Hx]; [exact Er | now apply H].
      * intros H x Hx. apply H. now right.
Qed.

Lemma onMaster_error p s r : snd (onMaster p s r) = snd r.
Proof. unfold onMaster. now destruct (snd r). Qed.

Lemma onReplica_error s r : snd (onReplica s r) = snd r.
Proof. unfold onReplica. now destruct (snd r). Qed.

Lemma onMaster_Keys p s r : Keys (fst (onMaster p s r)) = Keys s.
Proof. unfold onMaster. now destruct (snd r). Qed.

Lemma onReplica_Keys s r : Keys (fst (onReplica s r)) = Keys s.
Proof. unfold onReplica. now destruct (snd r). Qed.

Lemma forEachNode_masters p (infos : list string) (s : Stats) :
  forEachNode (onMaster p) (map answered infos) s =
  (let ms := map (fun info => parseInfoStats info p) infos in
   mkStats (fold_left add64 (map Memory ms) (Memory s))
           (fold_left add64 (map MaxMemory ms) (MaxMemory s))
           (fold_left add64 (map Hits ms) (Hits s))
           (fold_left add64 (map Misses ms) (Misses s))
           (Keys s)
           (fold_left add64 (map Expired ms) (Expired s))
           (fold_left add64 (map Evicted ms) (Evicted s)), None).
Proof.
  revert s. induction infos as [| i infos IH]; intros s; cbn.
  - now destruct s.
  - rewrite IH. reflexivity.
Qed.

Lemma forEachNode_replicas (infos : list string) (s : Stats) :
  forEachNode onReplica (map answered infos) s =
  (let rs := map (fun info => parseInfoStats info clusterReplicaKeyPrefixes)
                 infos in
   mkStats (Memory s) (MaxMemory s)
           (fold_left add64 (map Hits rs) (Hits s))
           (fold_left add64 (map Misses rs) (Misses s))
           (Keys s) (Expired s) (Evicted s), None).
Proof.
  revert s. induction infos as [| i infos IH]; intros s.
  - cbn. now destruct s.
  - cbn [map forEachNode]. unfold onReplica at 1. cbn [answered fst snd].
    rewrite IH. reflexivity.
Qed.

Lemma fold_add64_0 (l : list Z) : fold_left add64 l 0 = wrap64 (sumZ l).
Proof. change 0 with (wrap64 0) at 1. now rewrite fold_add64. Qed.

Lemma getClusterStats_answered p (masters replicas : list string) :
  getClusterStats p (map answered masters) (map answered replicas) =
  (wrapStats (clusterSum p masters replicas), None).
Proof.
  unfold getClusterStats. rewrite forEachNode_masters. cbn zeta.
  rewrite forEachNode_replicas. cbn zeta.
  unfold zeroStats.
  cbn [Memory MaxMemory Hits Misses Keys Expired Evicted].
  rewrite !fold_add64_0, !fold_add64. reflexivity.
Qed.

Lemma sumZ_perm (l l' : list Z) : Permutation l l' -> sumZ l = sumZ l'.
Proof.
  unfold sumZ.
  induction 1 as [| x l l' _ IH | x y l | l l' l'' _ IH1 _ IH2]; cbn; lia.
Qed.

Lemma clusterSum_perm p (masters masters' replicas replicas' : list string) :
  Permutation masters masters' -> Permutation replicas replicas' ->
  clusterSum p masters replicas = clusterSum p masters' replicas'.
Proof.
  intros Hm Hr. unfold clusterSum.
  repeat match goal with
         | |- context [sumZ (map ?f (map ?g masters))] =>
             rewrite (sumZ_perm (Permutation_map f (Permutation_map g Hm)))
         | |- context [sumZ (map ?f (map ?g replicas))] =>
             rewrite (sumZ_perm (Permutation_map f (Permutation_map g Hr)))
         end.
  reflexivity.
Qed.

(** X11.  [getClusterStats] asks the masters and then the replicas.  If
    each node answers, the result is, on [int64], the sum over the masters of
    memory, maximum memory, hits, misses, expired and evicted keys, plus the
    hits and misses of the replicas, and it does not depend on the order in
    which the nodes' answers come in.  The number of keys is 0 in every
    case.  If a node fails, the result is the zero [Stats] with an error:
    the error is nil exactly when all masters and all replicas answered. *)
Theorem getClusterStats_sums (keyPrefixes : list string) :
  (forall masters replicas : list string,
     getClusterStats keyPrefixes (map answered masters) (map answered replicas) =
     (wrapStats (clusterSum keyPrefixes masters replicas), None)) /\
  (forall masters masters' replicas replicas' : list string,
     Permutation masters masters' -> Permutation replicas replicas' ->
     getClusterStats keyPrefixes (map answered masters) (map answered replicas) =
     getClusterStats keyPrefixes (map answered masters')
                     (map answered replicas')) /\
  (forall masters replicas : list InfoReply,
     let r := getClusterStats keyPrefixes masters replicas in
     Keys (fst r) = 0 /\
     (snd r = None <->
        (forall x, In x masters -> snd x = None) /\
        (forall x, In x replicas -> snd x = None)) /\
     (snd r <> None -> fst r = zeroStats)).
Proof.
  split; [apply getClusterStats_answered | split].
  - intros masters masters' replicas replicas' Hm Hr.
    rewrite !getClusterStats_answered. now rewrite (clusterSum_perm _ Hm Hr).
  - intros masters replicas r. subst r. unfold getClusterStats.
    pose proof (@forEachNode_Keys (onMaster keyPrefixes) masters zeroStats
                  (onMaster_Keys keyPrefixes)) as Hk.
    pose proof (@forEachNode_error (onMaster keyPrefixes) masters zeroStats
                  (onMaster_error keyPrefixes)) as He.
    destruct (forEachNode (onMaster keyPrefixes) masters zeroStats)
      as [stats [e |]]; cbn [fst snd] in *.
    + split; [reflexivity | split; [| reflexivity]].
      split; [discriminate |]. intros [H _]. apply He in H. discriminate.
    + pose proof (@forEachNode_Keys onReplica replicas stats onReplica_Keys) as Hk'.
      pose proof (@forEachNode_error onReplica replicas stats onReplica_error)
        as He'.
      destruct (forEachNode onReplica replicas stats) as [stats1 [e |]];
        cbn [fst snd] in *.
      * split; [reflexivity | split; [| reflexivity]].
        split; [discriminate |]. intros [_ H]. apply He' in H. discriminate.
      * split; [rewrite Hk', Hk; reflexivity | split].
        -- split; [intros _; split; [now apply He | now apply He'] | reflexivity].
        -- intros H. now elim H.
Qed.

End RedisMoreFacts.

(* ===================================================================== *)
(** ** More on the INFO parser *)

Module RedisInfoMoreFacts.

Import Go RedisInfo RedisInfoSpec RedisInfoFacts Counters.

Local Open Scope string_scope.

Lemma isDigit_value (c : ascii) : isDigit c = true -> (0 <= digitValue c <= 9)%Z.
Proof.
  unfold isDigit, digitValue. cbv zeta. intros H. apply andb_true_iff in H.
  destruct H as [H1 H2]. apply N.leb_le in H1. apply N.leb_le in H2. lia.
Qed.

Lemma decimal_from_digits (n : nat) (s : string) (acc : Z) :
  (0 <= acc)%Z -> (0 <= decimal_from acc (extractDigits n s))%Z.
Proof.
  revert s acc.
  induction n as [| n IH]; intros s acc Hacc; cbn [extractDigits decimal_from].
  - exact Hacc.
  - destruct s as [| c s]; cbn [decimal_from]; [exact Hacc |].
    destruct (isDigit c) eqn:Hd; cbn [decimal_from]; [| exact Hacc].
    apply IH. pose proof (isDigit_value Hd). lia.
Qed.

Lemma ParseInt_value_range (n : nat) (s : string) :
  (0 <= ParseInt_value (extractDigits n s) <= MaxInt64)%Z.
Proof.
  rewrite ParseInt_value_min. unfold decimal.
  pose proof (@decimal_from_digits n s 0 (Z.le_refl 0)).
  unfold MaxInt64. lia.
Qed.

Lemma assignStat_range (k : string) (v : Z) (stats : Stats) :
  (0 <= v <= MaxInt64)%Z -> countsInRange stats ->
  countsInRange (assignStat k v stats).
Proof.
  intros Hv (H1 & H2 & H3 & H4 & H5 & H6 & H7). unfold assignStat.
  repeat match goal with
         | |- context [if ?b then _ else _] => destruct b
         end; unfold countsInRange; cbn; repeat split; lia.
Qed.

(** X12.  Whatever the report and whatever the markers asked for, every
    field of the statistics [parseInfoStats] returns is a number from 0 to
    the largest [int64]: no report makes a counter negative. *)
Theorem parseInfoStats_range (info : string) (keyPrefixes : list string) :
  countsInRange (parseInfoStats info keyPrefixes).
Proof.
  unfold parseInfoStats.
  assert (H0 : countsInRange zeroStats)
    by (unfold countsInRange, MaxInt64; cbn; lia).
  revert H0. generalize zeroStats.
  induction keyPrefixes as [| k rest IH]; intros stats Hs; cbn [fold_left].
  - exact Hs.
  - apply IH. unfold parseInfoStat.
    destruct (Index info k =? -1)%Z; [exact Hs |].
    apply assignStat_range; [apply ParseInt_value_range | exact Hs].
Qed.

Lemma keysCountPrefix_fresh (db : Z) :
  ~ In (keysCountPrefix db) clusterMasterKeyPrefixes.
Proof.
  unfold clusterMasterKeyPrefixes, keysCountPrefix. cbn.
  intros H. repeat destruct H as [H | H]; try discriminate H. exact H.
Qed.

(** X13.  On a cluster the number of keys is never read: with the
    markers of a cluster's master [Keys] is 0 whatever the report holds, a
    [db0:keys=] line included, and with those of a replica every field but
    the hits and the misses is 0.  Outside a cluster the marker of the keys
    count, [db<N>:keys=], is none of the seven others for any [N], and no
    list of markers names a marker twice. *)
Theorem parseInfoStats_cluster_Keys (info : string) (db : Z) :
  Keys (parseInfoStats info (statsKeyPrefixes true db)) = 0%Z /\
  (let r := parseInfoStats info clusterReplicaKeyPrefixes in
   Memory r = 0 /\ MaxMemory r = 0 /\ Keys r = 0 /\ Expired r = 0 /\
   Evicted r = 0)%Z /\
  ~ In (keysCountPrefix db) clusterMasterKeyPrefixes /\
  NoDup (statsKeyPrefixes false db) /\
  NoDup (statsKeyPrefixes true db) /\
  NoDup clusterReplicaKeyPrefixes.
Proof.
  assert (Hm : NoDup clusterMasterKeyPrefixes).
  { unfold clusterMasterKeyPrefixes.
    repeat (constructor;
            [cbn; intros H; repeat destruct H as [H | H];
             try discriminate H; exact H |]).
    constructor. }
  split; [| split; [| split; [| split; [| split]]]].
  - cbn [statsKeyPrefixes]. now rewrite parseInfoStats_master.
  - cbn zeta. rewrite parseInfoStats_replica. repeat split.
  - apply keysCountPrefix_fresh.
  - cbn [statsKeyPrefixes].
    apply (Permutation_NoDup
             (Permutation_cons_append clusterMasterKeyPrefixes
                                      (keysCountPrefix db))).
    constructor; [apply keysCountPrefix_fresh | exact Hm].
  - exact Hm.
  - unfold clusterReplicaKeyPrefixes.
    repeat (constructor;
            [cbn; intros H; repeat destruct H as [H | H];
             try discriminate H; exact H |]).
    constructor.
Qed.

Lemma valueOr0_same (info info' m : string) :
  sameReading info info' m -> valueOr0 info m = valueOr0 info' m.
Proof.
  intros [[H H'] | (pre & post & pre' & post' & H & H' & Hd)].
  - now rewrite (valueOr0_absent H), (valueOr0_absent H').
  - now rewrite (valueOr0_firstAt H), (valueOr0_firstAt H'), Hd.
Qed.

(** X14.  With the lists of markers the package uses, what the report
    holds at [maxmemory:] never reaches the result: two reports that read
    alike at every other marker of the list give the same statistics,
    whatever they say of [maxmemory:]. *)
Theorem parseInfoStats_maxmemory_ignored (info info' : string) (L : list string) :
  fixedMarkers L ->
  (forall m, In m L -> m <> redisInfoPrefixMaxMem -> sameReading info info' m) ->
  parseInfoStats info L = parseInfoStats info' L.
Proof.
  intros HL H.
  assert (Hv : forall m, In m L -> m <> redisInfoPrefixMaxMem ->
                 valueOr0 info m = valueOr0 info' m)
    by (intros m Hin Hne; apply valueOr0_same, H; assumption).
  destruct HL as [-> | [[|] [db ->]]].
  - rewrite !parseInfoStats_replica.
    rewrite (Hv redisInfoPrefixHits), (Hv redisInfoPrefixMisses);
      try discriminate; cbn; tauto.
  - cbn [statsKeyPrefixes] in *. rewrite !parseInfoStats_master.
    rewrite (Hv redisInfoPrefixMem), (Hv redisInfoPrefixTotalSystemMem),
            (Hv redisInfoPrefixHits), (Hv redisInfoPrefixMisses),
            (Hv redisInfoPrefixExpiredKeys), (Hv redisInfoPrefixEvictedKeys);
      try discriminate; cbn; tauto.
  - rewrite !parseInfoStats_single.
    rewrite (Hv redisInfoPrefixMem), (Hv redisInfoPrefixTotalSystemMem),
            (Hv redisInfoPrefixHits), (Hv redisInfoPrefixMisses),
            (Hv redisInfoPrefixExpiredKeys), (Hv redisInfoPrefixEvictedKeys),
            (Hv (keysCountPrefix db));
      try discriminate; cbn; tauto.
Qed.

End RedisInfoMoreFacts.

(* ===================================================================== *)
(** ** The unit [bytesHumanFriendly] picks *)

Module HumanFacts.

Import Go Human.

Lemma pow_unit_succ (k : nat) :
  unit ^ Z.of_nat (S k) = unit * unit ^ Z.of_nat k.
Proof. rewrite Nat2Z.inj_succ, Z.pow_succ_r by lia. reflexivity. Qed.

Lemma pow_unit_pos (k : nat) : 0 < unit ^ Z.of_nat k.
Proof. apply Z.pow_pos_nonneg; unfold unit; lia. Qed.

Lemma unitLoop_spec (rounds : nat) (n div : Z) (exp : nat) :
  n < unit ^ Z.of_nat (S rounds) ->
  exists k,
    (k <= rounds)%nat /\
    unitLoop rounds n div exp = Some (div * unit ^ Z.of_nat k, (exp + k)%nat) /\
    (n < unit -> k = O) /\
    (1 <= n -> unit ^ Z.of_nat k <= n < unit ^ Z.of_nat (S k)).
Proof.
  revert n div exp.
  induction rounds as [| r IH]; intros n div exp Hn; cbn [unitLoop].
  - destruct (unit <=? n) eqn:E;
      [apply Z.leb_le in E; cbn in Hn; unfold unit in *; lia |].
    apply Z.leb_gt in E. exists O. rewrite Nat.add_0_r.
    change (unit ^ Z.of_nat 0) with 1. rewrite Z.mul_1_r.
    repeat split; try lia; try (cbn; unfold unit in *; lia).
  - destruct (unit <=? n) eqn:E; [apply Z.leb_le in E | apply Z.leb_gt in E].
    + assert (Hq : Z.quot n unit = n / unit)
        by (apply Z.quot_div_nonneg; unfold unit in *; lia).
      rewrite Hq. rewrite pow_unit_succ in Hn.
      assert (Hlt : n / unit < unit ^ Z.of_nat (S r))
        by (apply Z.div_lt_upper_bound; unfold unit in *; lia).
      assert (Hge : 1 <= n / unit)
        by (apply Z.div_le_lower_bound; unfold unit in *; lia).
      destruct (IH (n / unit) (div * unit) (S exp) Hlt) as (k & Hk & Hr & _ & Hb).
      specialize (Hb Hge).
      exists (S k). split; [lia |]. split; [| split].
      * rewrite Hr, pow_unit_succ. f_equal. f_equal; [ring | lia].
      * intros H. lia.
      * intros _. rewrite !pow_unit_succ in *.
        pose proof (Z.mul_div_le n unit eq_refl).
        pose proof (Z.mul_succ_div_gt n unit eq_refl).
        pose proof (pow_unit_pos k). unfold unit in *. nia.
    + exists O. rewrite Nat.add_0_r.
      change (unit ^ Z.of_nat 0) with 1. rewrite Z.mul_1_r.
      repeat split; try lia; try (cbn; unfold unit in *; lia).
Qed.

(** X15.  For every [int64], the loop of [bytesHumanFriendly] stops
    within six rounds with an exponent of 6 at most, so that [measure[exp]]
    is one of the seven letters and never out of range.  The divisor is
    1024 to that exponent; it is 1 for a value below 1024 (a negative one
    included), and otherwise the largest power of 1024 that is not above the
    value, so that the number shown is at least 1 and below 1024. *)
Theorem bytesHumanFriendly_unit (bytes : Z) :
  in_int64 bytes ->
  exists div exp,
    unitOf bytes = Some (div, exp) /\
    (exp <= 6)%nat /\
    div = unit ^ Z.of_nat exp /\
    (exists c, measureAt exp = Some c) /\
    (bytes < unit -> exp = O /\ div = 1) /\
    (1 <= bytes -> div <= bytes < unit * div).
Proof.
  intros [_ Hmax]. unfold unitOf.
  destruct (@unitLoop_spec 6 bytes 1 O) as (k & Hk & Hr & H0 & Hb).
  { unfold MaxInt64 in Hmax. change (unit ^ Z.of_nat 7) with 1180591620717411303424.
    lia. }
  exists (unit ^ Z.of_nat k), k. rewrite Hr, Z.mul_1_l, Nat.add_0_l.
  split; [reflexivity | split; [exact Hk | split; [reflexivity | split; [| split]]]].
  - do 7 (destruct k as [| k]; [eexists; reflexivity |]). lia.
  - intros H. rewrite (H0 H). split; reflexivity.
  - intros H. specialize (Hb H). rewrite pow_unit_succ in Hb. exact Hb.
Qed.

End HumanFacts.

(* ===================================================================== *)
(** ** More on StatsWatcher *)

Module WatcherMoreFacts.

Import Go Watcher WatcherRuns WatcherFacts.

Lemma reachableFrom_reachable (s0 sw : StatsWatcher) :
  reachable s0 -> reachableFrom s0 sw -> reachable sw.
Proof.
  intros H0. induction 1; [exact H0 | | |];
    [apply reach_Watch | apply reach_Close | apply reach_Cancel]; assumption.
Qed.

Lemma closeOnce_kept (s0 sw : StatsWatcher) :
  closeOnce s0 = true -> reachableFrom s0 sw -> closeOnce sw = true.
Proof.
  intros H0. induction 1 as [| sw _ IH | sw _ IH | sw _ IH].
  - exact H0.
  - unfold Watch. destruct (watchOnce sw); [exact IH |].
    now destruct (interval (w sw) <=? 0).
  - unfold Close. destruct (ticker (w sw)); [| exact IH].
    now rewrite IH.
  - exact IH.
Qed.

Lemma reachable_accounted (sw : StatsWatcher) : reachable sw -> accounted sw.
Proof.
  induction 1 as [i | sw Hr IH | sw Hr IH | sw Hr IH]; unfold accounted in *.
  - split; [reflexivity | split; [| intros H; now elim H]].
    cbn [fst w wg pollers finalizer ticker closeOnce interval closed watchOnce NewStatsWatcher]. split; [discriminate | intros [H _]; now elim H].
  - pose proof (reachable_wellFormed Hr) as Hwf.
    unfold Watch. destruct (watchOnce sw) eqn:Hw; [exact IH |].
    destruct Hwf as [(Ht & Hc & Hco & Hp) | (Ht & Hwo & _)]; [| congruence].
    destruct IH as (Hwg & Hfin & Htick).
    destruct (interval (w sw) <=? 0) eqn:Hi.
    + split; [exact Hwg | split; [exact Hfin | exact Htick]].
    + apply Z.leb_gt in Hi. cbn [fst w wg pollers finalizer ticker closeOnce interval closed watchOnce NewStatsWatcher]. split; [rewrite ?Nat2Z.inj_succ; lia | split].
      * split; [intros _; split; [discriminate | exact Hco] | reflexivity].
      * intros _. split; [reflexivity | exact Hi].
  - pose proof (reachable_wellFormed Hr) as Hwf.
    destruct IH as (Hwg & Hfin & Htick). unfold Close.
    destruct Hwf as [(Ht & Hc & Hco & Hp) | (Ht & Hwo & Hcl)].
    + rewrite Ht. cbn [fst w wg pollers finalizer ticker closeOnce interval closed watchOnce NewStatsWatcher]. split; [exact Hwg | split; [exact Hfin | exact Htick]].
    + destruct (ticker (w sw)) as [t |] eqn:Et; [| now elim Ht].
      destruct Hcl as [(Hco & Hch & Hp) | (Hco & Hp)]; rewrite Hco.
      * rewrite Hch. cbn [fst w wg pollers finalizer ticker closeOnce interval closed watchOnce NewStatsWatcher]. split; [rewrite ?Nat2Z.inj_succ; lia | split].
        -- split; [discriminate | intros [_ H]; discriminate H].
        -- intros _. destruct (Htick Ht) as [E Hpos]. split; [exact E | exact Hpos].
      * cbn [fst w wg pollers finalizer ticker closeOnce interval closed watchOnce NewStatsWatcher]. rewrite Et. split; [exact Hwg | split; [exact Hfin | exact Htick]].
  - destruct IH as (Hwg & Hfin & Htick). unfold Cancel. cbn [fst w wg pollers finalizer ticker closeOnce interval closed watchOnce NewStatsWatcher].
    split; [lia | split; [exact Hfin | exact Htick]].
Qed.

(** X16.  In every state a watcher can reach, the wait group counts the
    pollers that run (so [Wait] has exactly them to wait for and the counter
    never goes below zero), the ticker, once made, has the watcher's
    interval, which is positive, and a finalizer is registered exactly from
    a successful [Watch] to the [Close].  Once [Close] has run on a started
    watcher it is stopped for good: whatever is called afterwards, no poller
    runs again. *)
Theorem StatsWatcher_accounting (sw : StatsWatcher) :
  reachable sw ->
  accounted sw /\
  (closeOnce sw = true ->
     forall sw', reachableFrom sw sw' ->
       pollers sw' = O /\ closeOnce sw' = true /\ finalizer sw' = false /\
       forall d, pollsWithin d sw' = 0).
Proof.
  intros Hr. split; [now apply reachable_accounted |].
  intros Hco sw' Hfrom.
  pose proof (reachableFrom_reachable Hr Hfrom) as Hr'.
  pose proof (closeOnce_kept Hco Hfrom) as Hco'.
  pose proof (reachable_wellFormed Hr') as Hwf.
  pose proof (reachable_accounted Hr') as (_ & Hfin & _).
  assert (Hp : pollers sw' = O).
  { destruct Hwf as [(_ & _ & H & _) | (_ & _ & [(H & _) | (_ & H)])];
      [congruence | congruence | exact H]. }
  split; [exact Hp | split; [exact Hco' | split]].
  - destruct (finalizer sw'); [| reflexivity].
    destruct (proj1 Hfin eq_refl) as [_ H]. congruence.
  - intros d. unfold pollsWithin. rewrite Hp. now destruct (ticker (w sw')).
Qed.

(** X17.  A watcher made with an interval that is not positive never
    polls.  Its first [Watch] panics, in [time.NewTicker], and uses up
    [watchOnce]: every later [Watch] returns without having started
    anything.  In all its states there is no ticker, no poller and no
    finalizer, and [Close] does nothing and returns nil. *)
Theorem StatsWatcher_bad_interval (i : Duration) (sw : StatsWatcher) :
  i <= 0 ->
  reachableFrom (NewStatsWatcher i) sw ->
  ticker (w sw) = None /\ pollers sw = O /\ finalizer sw = false /\
  (watchOnce sw = false -> snd (Watch sw) = Panicked) /\
  (watchOnce sw = true -> Watch sw = (sw, Returned tt)) /\
  watchOnce (fst (Watch sw)) = true /\
  Close sw = (sw, [], Returned None).
Proof.
  intros Hi Hfrom.
  assert (Hinv : interval (w sw) = i /\ ticker (w sw) = None /\
                 pollers sw = O /\ finalizer sw = false).
  { induction Hfrom as [| sw _ IH | sw _ IH | sw _ IH].
    - repeat split.
    - destruct IH as (Hint & Ht & Hp & Hf). unfold Watch.
      destruct (watchOnce sw); [now repeat split |].
      destruct (interval (w sw) <=? 0) eqn:E; [now repeat split |].
      apply Z.leb_gt in E. lia.
    - destruct IH as (Hint & Ht & Hp & Hf). unfold Close. rewrite Ht.
      now repeat split.
    - destruct IH as (Hint & Ht & Hp & Hf). unfold Cancel. cbn.
      now repeat split. }
  destruct Hinv as (Hint & Ht & Hp & Hf).
  assert (Hle : (interval (w sw) <=? 0) = true) by (apply Z.leb_le; lia).
  split; [exact Ht | split; [exact Hp | split; [exact Hf |]]].
  split; [| split; [| split]].
  - intros Hw. unfold Watch. now rewrite Hw, Hle.
  - apply Watch_done.
  - apply watchOnce_after_Watch.
  - unfold Close. now rewrite Ht.
Qed.

End WatcherMoreFacts.

(* ===================================================================== *)
(** ** Memory in front of Redis, and the two kinds of configuration keys *)

Module TiersFacts.

Import Go Multi Memory Reconfig RedisCache Pair MemoryMoreFacts.

Lemma isRedisConfigKey_not_memory (k : string) :
  isRedisConfigKey k = true -> k <> MemoryCfgKeyMemorySize.
Proof. intros H ->. discriminate H. Qed.

Section WithStores.

Variables S W : Type.
Variable fc : Freecache S.
Variable server : UniversalClient W.

(** X18.  A [Memory] tier in front of a Redis tier, the key missing from
    the first and found in the second.  [Load] returns the value with a nil
    error and repairs the first tier with what the TTL command replies: a
    positive reply stores the value for its whole seconds, one at least; the
    reply -1, for a key without expiration, stores it without expiration; the
    reply 0 and the replies below -1, which [TTL] reports as a negative
    duration without an error (the key is gone since the load), make the
    write-back a deletion of the key from the first tier.  Replies are taken
    below 2^22 seconds, where the seconds of [Memory.Save] are exact. *)
Theorem Memory_before_Redis_repair (keyPrefixes : list string)
    (front : Memory S) (w w1 w2 : W) (key : string) (value : bytes)
    (reply : Duration) (e : error) (sf : S) :
  fc_Get fc (key_bytes key) (client front) = (([], Some e), sf) ->
  errors_Is e freecache_ErrNotFound = true ->
  cmd_Get server key w = ((value, None), w1) ->
  cmd_TTL server key w1 = ((reply, None), w2) ->
  reply < 4194304 * Second ->
  Multi_Load [@onFirst (Memory S) W (Memory_Cache fc);
              @onSecond (Memory S) W (Redis_Cache server keyPrefixes)]
             key (front, w) =
  ((value, None),
   (if (reply =? 0) || (reply <? -1)
    then with_client front (snd (fc_Del fc (key_bytes key) sf))
    else with_client front
           (snd (fc_Set fc (key_bytes key) value
                        (if reply =? -1 then 0 else expireSeconds reply) sf)),
    w2)) /\
  (0 < reply -> 1 <= expireSeconds reply).
Proof.
  intros Hget He Hr Httl _. split.
  - unfold Multi_Load.
    cbn [Load_loop Load onFirst onSecond Memory_Cache Redis_Cache fst snd].
    unfold Memory_Load at 1. rewrite Hget, He.
    cbn [errors_Is error_eqb orb fst snd].
    unfold Redis_Load. rewrite Hr. cbn [Nat.ltb Nat.leb fst snd].
    cbn [TTL onSecond Redis_Cache fst snd]. unfold Redis_TTL. rewrite Httl.
    unfold redisTTLNoExpire, NoExpire.
    destruct (reply =? 0) eqn:E0.
    + cbn [orb save_upfront nth_error Save onFirst Memory_Cache fst snd].
      unfold Memory_Save. cbn [Z.ltb Z.compare with_client client memSize mu].
      now destruct (fc_Del fc (key_bytes key) sf).
    + apply Z.eqb_neq in E0. destruct (reply =? -1) eqn:E1.
      * apply Z.eqb_eq in E1. subst reply.
        cbn [orb Z.ltb Z.compare Pos.compare Pos.compare_cont].
        cbn [save_upfront nth_error Save onFirst Memory_Cache fst snd].
        unfold Memory_Save. cbn [Z.ltb Z.compare with_client client memSize mu].
        change (expireSeconds 0) with 0.
        now destruct (fc_Set fc (key_bytes key) value 0 sf).
      * apply Z.eqb_neq in E1.
        cbn [orb save_upfront nth_error Save onFirst Memory_Cache fst snd].
        unfold Memory_Save. cbn [with_client client memSize mu].
        destruct (reply <? -1) eqn:E2.
        -- apply Z.ltb_lt in E2.
           destruct (reply <? 0) eqn:E3; [| apply Z.ltb_ge in E3; lia].
           now destruct (fc_Del fc (key_bytes key) sf).
        -- apply Z.ltb_ge in E2.
           destruct (reply <? 0) eqn:E3; [apply Z.ltb_lt in E3; lia |].
           now destruct (fc_Set fc (key_bytes key) value (expireSeconds reply) sf).
  - intros Hpos. destruct (Z_lt_le_dec reply Second) as [Hlt | Hge].
    + rewrite expireSeconds_sub by lia. lia.
    + destruct (expireSeconds_whole Hge) as [-> Hq]. exact Hq.
Qed.

(** X19.  The memory-size key is none of the Redis keys.  So a change of
    Redis keys alone never resizes a [Memory], and a change of the
    memory-size key alone never replaces the client of a Redis cache: each
    callback returns at once, the cache as it was. *)
Theorem onConfigChange_separate_keys (v : RedisVersion) (config : Config)
    (changedKeys : list string) (memory : Memory S) (redis : Redis) :
  ((forall k, In k changedKeys -> isRedisConfigKey k = true) ->
     Memory_onConfigChange fc config changedKeys memory = Some (memory, [])) /\
  ((forall k, In k changedKeys -> k = MemoryCfgKeyMemorySize) ->
     Redis_onConfigChange v config changedKeys redis = Some (redis, [])).
Proof.
  split.
  - intros H. unfold Memory_onConfigChange.
    rewrite changedMemSize_absent; [reflexivity |].
    intros Hin. exact (isRedisConfigKey_not_memory (H _ Hin) eq_refl).
  - intros H. unfold Redis_onConfigChange.
    replace (existsb isRedisConfigKey changedKeys) with false; [reflexivity |].
    symmetry. apply not_true_is_false. intros Hex.
    apply existsb_exists in Hex. destruct Hex as [k [Hin Hk]].
    rewrite (H k Hin) in Hk. discriminate Hk.
Qed.

End WithStores.

End TiersFacts.

(* ===================================================================== *)
(** ** These theorems at work on concrete values *)

Module MoreExamples.

Import Go Doubles Multi Scan Memory RedisInfo RedisInfoSpec Reconfig
       ReconfigSpec Watcher WatcherRuns Fixtures MoreFixtures MockCalls
       RedisCache Counters Pair MemoryConfig.

Local Open Scope string_scope.

(** The second mock is saved to once although the first one failed. *)
Lemma Multi_calls_each_once_witness :
  SaveCallsCount (plainMock 1)
    (snd (Multi_Save (map Mock_Cache twoMocks) "k" v1 Minute [])) = 1 /\
  StatsCallsCount (plainMock 1)
    (snd (Multi_Save (map Mock_Cache twoMocks) "k" v1 Minute [])) = 0.
Proof.
  destruct (@MockFacts.Multi_calls_each_once twoMocks "k" v1 Minute [])
    as (_ & _ & H).
  - repeat constructor; cbn; intuition discriminate.
  - destruct (H (plainMock 1)) as (_ & Hs & _ & _ & _ & Hst & _).
    + cbn. tauto.
    + split; [exact (Hs eq_refl) | exact Hst].
Defined.

(** A hit in the first of two mocks: one call. *)
Lemma Multi_scan_calls_witness :
  snd (Multi_Load (map Mock_Cache [holdingMock 0 v1 Minute; plainMock 1]) "k" []) =
  [CallLoad 0 "k"].
Proof.
  exact (proj1 (proj2 (proj2
           (@MockFacts.Multi_scan_calls [holdingMock 0 v1 Minute; plainMock 1]
              "k" [])))
           (holdingMock 0 v1 Minute) [plainMock 1] eq_refl eq_refl).
Defined.

(** One second and a half is stored as one second. *)
Lemma Memory_Save_seconds_witness :
  expireSeconds 1500000000 * Second <= 1500000000 <
  (expireSeconds 1500000000 + 1) * Second.
Proof.
  refine (proj1 (proj2 (proj2 (proj2
    (@MemoryMoreFacts.Memory_Save_seconds Store toyFreecache memoryWithA
       "b" v1 1500000000 _)))) _).
  - unfold Second. lia.
  - unfold Second. lia.
Defined.

(** The entry with 60 seconds left comes into the empty first tier with
    one second. *)
Lemma Memory_read_repair_expiry_witness :
  Multi_Load [@onFirst (Memory Store) (Memory Store) (Memory_Cache toyFreecache);
              @onSecond (Memory Store) (Memory Store) (Memory_Cache toyFreecache)]
             keyA (memoryEmpty, memoryWithA) =
  ((valueA, None),
   (mkMemory [(key_bytes keyA, valueA, 1)] freecacheMinBufSize false,
    memoryWithA)).
Proof.
  apply (@MemoryMoreFacts.Memory_read_repair_expiry Store toyFreecache
           memoryEmpty memoryWithA keyA valueA 60 freecache_ErrNotFound
           [] [(key_bytes keyA, valueA, 60)] [(key_bytes keyA, valueA, 60)]).
  - reflexivity.
  - reflexivity.
  - reflexivity.
  - reflexivity.
  - reflexivity.
  - unfold Second. lia.
Defined.

(** A resize to 1 MiB keeps the floor and the mutex. *)
Lemma Memory_size_floor_witness :
  exists cache' tr,
    Memory_onConfigChange toyFreecache configOneMiB [MemoryCfgKeyMemorySize]
                          memoryWithA = Some (cache', tr) /\
    freecacheMinBufSize <= memSize cache' /\ mu cache' = true.
Proof.
  eexists _, _. split; [reflexivity |].
  apply (proj1 (proj2 (proj2 (@MemoryMoreFacts.Memory_size_floor Store
                                toyFreecache)))
           configOneMiB [MemoryCfgKeyMemorySize] memoryWithA _ _ eq_refl).
  unfold memoryWithA. cbn. lia.
Defined.

(** A request for one byte on a cache of 512 KiB rebuilds nothing. *)
Lemma Memory_onConfigChange_unchanged_witness :
  Memory_onConfigChange toyFreecache configOneByte [MemoryCfgKeyMemorySize]
                        memoryWithA = Some (memoryWithA, [EvLock; EvUnlock]).
Proof.
  apply (proj1 (proj2 (@MemoryMoreFacts.Memory_onConfigChange_unchanged Store
                         toyFreecache configOneByte [MemoryCfgKeyMemorySize]
                         memoryWithA))
           (or_introl eq_refl) 1 eq_refl eq_refl).
Defined.

(** A new address: the client is replaced and the cache stays coherent;
    and an operation that has taken the read lock before the callback has
    started keeps the writer out. *)
Lemma Redis_onConfigChange_coherent_witness :
  (exists cache' tr,
     Redis_onConfigChange V7 configNewAddr [RedisCfgKeyAddrs] (redisSingle V7) =
       Some (cache', tr) /\
     coherent cache' /\ rmu cache' = true) /\
  (sysStep (Operation 0)
     (start (redisSingle V7) (Redis_reconfigure V7 redisConfigNewAddr)
            [fun cache => cache]) = Some operationInside /\
   writing (mutex operationInside) = false /\
   coherent (shared operationInside)).
Proof.
  pose proof (@RedisMoreFacts.Redis_onConfigChange_coherent V7 configNewAddr
                [RedisCfgKeyAddrs] (redisSingle V7)) as (_ & _ & _ & H4 & _ & H6).
  split.
  - exists (fst (run (Redis_reconfigure V7 redisConfigNewAddr) (redisSingle V7))),
           (snd (run (Redis_reconfigure V7 redisConfigNewAddr) (redisSingle V7))).
    split; [reflexivity |].
    destruct (H4 redisConfigNewAddr
      (fst (run (Redis_reconfigure V7 redisConfigNewAddr) (redisSingle V7)))
      (snd (run (Redis_reconfigure V7 redisConfigNewAddr) (redisSingle V7)))
      eq_refl eq_refl eq_refl)
      as (Hc & _ & Hmu).
    split; [exact Hc | exact Hmu].
  - split; [reflexivity |].
    assert (Hcoh : coherent (redisSingle V7)) by (split; reflexivity).
    assert (Hops : Forall (fun op : Redis -> Redis =>
                             forall c, coherent c -> coherent (op c))
                          [fun cache : Redis => cache]).
    { constructor; [intros c Hc; exact Hc | constructor]. }
    assert (Hsteps : steps (start (redisSingle V7)
                              (Redis_reconfigure V7 redisConfigNewAddr)
                              [fun cache => cache]) operationInside).
    { eapply steps_step with (who := Operation 0); [apply steps_refl |].
      reflexivity. }
    destruct (H6 redisConfigNewAddr [fun cache => cache] operationInside
                 Hcoh Hops Hsteps) as [_ Hin].
    exact (Hin 0%nat _ eq_refl eq_refl).
Defined.

(** The replies -1, 0, -2 and 90 seconds. *)
Lemma Redis_TTL_contract_witness :
  fst (Redis_TTL (ttlReplying (-1, None)) "k" tt) = (0, None) /\
  fst (fst (Redis_TTL (ttlReplying (0, None)) "k" tt)) < 0 /\
  fst (fst (Redis_TTL (ttlReplying (-2, None)) "k" tt)) < 0 /\
  fst (fst (Redis_TTL (ttlReplying (90 * Second, None)) "k" tt)) = 90 * Second.
Proof.
  split; [| split; [| split]].
  - destruct (@RedisMoreFacts.Redis_TTL_contract unit
                (ttlReplying (-1, None)) "k" tt) as (_ & He & _ & H).
    destruct (H eq_refl) as (H0 & _).
    rewrite (surjective_pairing (fst (Redis_TTL _ _ _))), He, (proj2 H0 eq_refl).
    reflexivity.
  - destruct (@RedisMoreFacts.Redis_TTL_contract unit
                (ttlReplying (0, None)) "k" tt) as (_ & _ & _ & H).
    destruct (H eq_refl) as (_ & Hneg & _). apply Hneg. now left.
  - destruct (@RedisMoreFacts.Redis_TTL_contract unit
                (ttlReplying (-2, None)) "k" tt) as (_ & _ & _ & H).
    destruct (H eq_refl) as (_ & Hneg & _). apply Hneg. right. cbn. lia.
  - destruct (@RedisMoreFacts.Redis_TTL_contract unit
                (ttlReplying (90 * Second, None)) "k" tt) as (_ & _ & _ & H).
    destruct (H eq_refl) as (_ & _ & _ & Hpos). apply Hpos. cbn. lia.
Defined.

(** Two masters answering in either order. *)
Lemma getClusterStats_sums_witness :
  getClusterStats clusterMasterKeyPrefixes
                  [answered infoMasterA; answered infoMasterB] [] =
  getClusterStats clusterMasterKeyPrefixes
                  [answered infoMasterB; answered infoMasterA] [].
Proof.
  apply (proj1 (proj2 (@RedisMoreFacts.getClusterStats_sums
                         clusterMasterKeyPrefixes))
           [infoMasterA; infoMasterB] [infoMasterB; infoMasterA] [] []).
  - apply perm_swap.
  - apply Permutation_refl.
Defined.

(** A limit of 1000 or of 5: the same statistics. *)
Lemma parseInfoStats_maxmemory_ignored_witness :
  parseInfoStats infoLimit1000 clusterMasterKeyPrefixes =
  parseInfoStats infoLimit5 clusterMasterKeyPrefixes.
Proof.
  apply RedisInfoMoreFacts.parseInfoStats_maxmemory_ignored.
  - right. exists true, 0. reflexivity.
  - intros m Hin Hne. cbn in Hin.
    destruct Hin as [<- | [<- | [<- | [<- | [<- | [<- | [<- | []]]]]]]];
      try (now elim Hne);
      try (left; split; apply RedisInfoFacts.Index_none; reflexivity).
    right.
    exists "maxmemory:1000 ", "8000", "maxmemory:5 ", "8000".
    split; [| split; [| reflexivity]].
    + exact (@RedisInfoFacts.Index_found infoLimit1000
               redisInfoPrefixTotalSystemMem 15 eq_refl).
    + exact (@RedisInfoFacts.Index_found infoLimit5
               redisInfoPrefixTotalSystemMem 12 eq_refl).
Defined.

(** Two mebibytes are shown in units of "M". *)
Lemma bytesHumanFriendly_unit_witness :
  Human.unitOf (2 * 1024 * 1024) = Some (1024 * 1024, 2%nat) /\
  exists div exp,
    Human.unitOf (2 * 1024 * 1024) = Some (div, exp) /\
    (exp <= 6)%nat /\ div = Human.unit ^ Z.of_nat exp /\
    (exists c, Human.measureAt exp = Some c).
Proof.
  split; [reflexivity |].
  destruct (@HumanFacts.bytesHumanFriendly_unit (2 * 1024 * 1024))
    as (div & exp & H & Hexp & Hdiv & Hc & _).
  - unfold in_int64, MinInt64, MaxInt64. lia.
  - exists div, exp. repeat split; assumption.
Defined.

(** After [Close], a [Watch] and a cancellation later, nothing polls. *)
Lemma StatsWatcher_accounting_witness :
  pollers (Cancel (fst (Watch closedWatcher))) = O /\
  wg (w closedWatcher) = 0.
Proof.
  destruct (@WatcherMoreFacts.StatsWatcher_accounting closedWatcher)
    as ((Hwg & _) & Hstop).
  - apply reach_Close, reach_Watch, reach_new.
  - split; [| exact Hwg].
    apply (Hstop eq_refl). apply from_Cancel, from_Watch, from_start.
Defined.

(** An interval of zero: the second [Watch] returns, nothing runs. *)
Lemma StatsWatcher_bad_interval_witness :
  snd (Watch (NewStatsWatcher 0)) = Panicked /\
  Watch (fst (Watch (NewStatsWatcher 0))) =
    (fst (Watch (NewStatsWatcher 0)), Returned tt) /\
  pollers (fst (Watch (NewStatsWatcher 0))) = O.
Proof.
  destruct (@WatcherMoreFacts.StatsWatcher_bad_interval 0 (NewStatsWatcher 0))
    as (_ & _ & _ & Hp & _); [lia | apply from_start |].
  destruct (@WatcherMoreFacts.StatsWatcher_bad_interval 0
              (fst (Watch (NewStatsWatcher 0))))
    as (_ & Hn & _ & _ & Hw & _); [lia | apply from_Watch, from_start |].
  split; [apply Hp; reflexivity | split; [apply Hw; reflexivity | exact Hn]].
Defined.

(** The key found in Redis with 90 seconds left comes into the empty
    [Memory] with 90 seconds. *)
Lemma Memory_before_Redis_repair_witness :
  Multi_Load [@onFirst (Memory Store) unit (Memory_Cache toyFreecache);
              @onSecond (Memory Store) unit
                 (Redis_Cache (redisHolding valueA (90 * Second)) [])]
             keyA (memoryEmpty, tt) =
  ((valueA, None),
   (mkMemory [(key_bytes keyA, valueA, 90)] freecacheMinBufSize false, tt)).
Proof.
  apply (proj1 (@TiersFacts.Memory_before_Redis_repair Store unit toyFreecache
                  (redisHolding valueA (90 * Second)) [] memoryEmpty tt tt tt
                  keyA valueA (90 * Second) freecache_ErrNotFound []
                  eq_refl eq_refl eq_refl eq_refl eq_refl)).
Defined.

(** A change of the Redis address leaves a [Memory] alone. *)
Lemma onConfigChange_separate_keys_witness :
  Memory_onConfigChange toyFreecache configNewAddr [RedisCfgKeyAddrs]
                        memoryWithA = Some (memoryWithA, []).
Proof.
  apply (proj1 (@TiersFacts.onConfigChange_separate_keys Store toyFreecache V7
                  configNewAddr [RedisCfgKeyAddrs] memoryWithA (redisSingle V7))).
  intros k [<- | []]. reflexivity.
Defined.

End MoreExamples.
